(** * Land-area calculator: the geometry engine of [client/src/lib/utils/area.ts]

    The five functions of [area.ts] are embedded once, over an interface
    [Number] for the arithmetic of a TypeScript [number], and the interface
    is given two instances:

    - [Binary64.number]: IEEE-754 binary64, what the program runs on.  It is
      executable, and every property of a computed value is stated and
      proved for it, with the rounding, the overflow and the NaN it has.
    - [Exact.number]: the real numbers with a partial division.  It serves
      for the properties that are the same in both arithmetics: that no
      division has a zero divisor, and the control flow of the handlers.

    Properties that only depend on the control flow of the functions are
    proved for every instance.  The formulas of the specification are
    written a second time, from its words and without the functions of the
    code ([euclidean_distance], [closing_pairs], [running_sum],
    [mean_ratio]), and the code is compared with them in binary64.  Where
    an identity of arithmetic is needed (the area of a reversed or rotated
    polygon), it is proved for integer coordinates small enough that no
    operation of the loop rounds, from the specification of binary64
    ([SpecFloat]).

    The callers of these functions follow: the handlers of [Canvas.tsx]
    and of the measurement panel (module [Ui], over the same interface),
    and the storage and the routes of the server (module [Server], the
    identifiers being integers). *)

From Stdlib Require Import List Arith Lia Bool ZArith.
From Stdlib Require Import Reals Lra.
From Stdlib Require Import Floats.
From Stdlib Require String.
Import ListNotations.

(** ** The arithmetic interface *)

(** Division is the one operation that is partial in exact arithmetic, so it
    returns an [option]; in binary64 it always yields a value (an infinity
    or NaN for a zero divisor). *)
Class Number (T : Type) : Type := {
  zero : T;                      (* the literal [0] *)
  two : T;                       (* the literal [2] *)
  five : T;                      (* the literal [5] *)
  tenth : T;                     (* the literal [0.1] *)
  of_nat : nat -> T;             (* an array length used as a number *)
  add : T -> T -> T;             (* [a + b] *)
  sub : T -> T -> T;             (* [a - b] *)
  mul : T -> T -> T;             (* [a * b] *)
  div : T -> T -> option T;      (* [a / b] *)
  sqrt : T -> T;                 (* [Math.sqrt] *)
  abs : T -> T;                  (* [Math.abs] *)
  ltb : T -> T -> bool;          (* [a < b] *)
  eqb : T -> T -> bool           (* [a === b] *)
}.

(** A small error monad for the partial division. *)
Definition bind {A B : Type} (m : option A) (k : A -> option B) : option B :=
  match m with
  | Some a => k a
  | None => None
  end.

Notation "x <- m ;; k" := (bind m (fun x => k))
  (at level 61, m at next level, right associativity).

(** ** The data model of [shared/schema.ts] and the functions of [area.ts] *)

Section Area.

Context {T : Type} {N : Number T}.

(** [pointSchema] *)
Record Point : Type := mkPoint { x : T; y : T }.

(** [lineSchema] *)
Record Line : Type := mkLine {
  id : T;
  startPoint : Point;
  endPoint : Point;
  length : T
}.

(** [a > b] is [b < a]; [a !== b] is the negation of [a === b]. *)
Definition gtb (a b : T) : bool := ltb b a.
Definition neqb (a b : T) : bool := negb (eqb a b).

Definition calculateDistance (point1 point2 : Point) : T :=
  let dx := sub (x point2) (x point1) in
  let dy := sub (y point2) (y point1) in
  sqrt (add (mul dx dx) (mul dy dy)).

(** [vertices[i]]; every index the functions use is within bounds, so the
    default is never returned. *)
Definition at_index (vertices : list Point) (i : nat) : Point :=
  nth i vertices (mkPoint zero zero).

(** One turn of the loop of [calculatePolygonArea]. *)
Definition shoelace_step (vertices : list Point) (area : T) (i : nat) : T :=
  let j := (i + 1) mod (List.length vertices) in
  let area := add area (mul (x (at_index vertices i)) (y (at_index vertices j))) in
  sub area (mul (x (at_index vertices j)) (y (at_index vertices i))).

Definition calculatePolygonArea (vertices : list Point) : option T :=
  if List.length vertices <? 3 then Some zero
  else
    let area :=
      fold_left (shoelace_step vertices) (seq 0 (List.length vertices)) zero in
    div (abs area) two.

(** The loop that fills [pixelToMeterRatios], [acc] being the array so far. *)
Fixpoint collectRatios (lines : list Line) (acc : list T) : option (list T) :=
  match lines with
  | [] => Some acc
  | line :: rest =>
      let pixelLength := calculateDistance (startPoint line) (endPoint line) in
      if gtb pixelLength zero then
        ratio <- div (length line) pixelLength ;;
        collectRatios rest (acc ++ [ratio])
      else collectRatios rest acc
  end.

(** The test [isRectangle], on the four lines of a four-sided polygon. *)
Definition isRectangle (l0 l1 l2 l3 : Line) : bool :=
  let lengthA := length l0 in
  let lengthB := length l1 in
  let lengthC := length l2 in
  let lengthD := length l3 in
  ltb (abs (sub lengthA lengthC)) tenth
  && ltb (abs (sub lengthB lengthD)) tenth.

(** The general path, from [pixelToMeterRatios] on. *)
Definition scaleByAverageRatio (pixelArea : T) (lines : list Line) : option T :=
  pixelToMeterRatios <- collectRatios lines [] ;;
  if List.length pixelToMeterRatios =? 0 then Some zero
  else
    avgRatio <- div (fold_left add pixelToMeterRatios zero)
                    (of_nat (List.length pixelToMeterRatios)) ;;
    Some (mul (mul pixelArea avgRatio) avgRatio).

Definition scaleAreaToRealWorld (pixelArea : T) (lines : list Line) (scale : T)
  : option T :=
  if List.length lines <? 3 then Some zero
  else
    match lines with
    | [l0; l1; l2; l3] =>
        if isRectangle l0 l1 l2 l3 then Some (mul (length l0) (length l1))
        else scaleByAverageRatio pixelArea lines
    | _ => scaleByAverageRatio pixelArea lines
    end.

Definition isClosedPolygon (points : list Point) : bool :=
  if List.length points <? 3 then false
  else
    let firstPoint := at_index points 0 in
    let lastPoint := at_index points (List.length points - 1) in
    let distance := calculateDistance firstPoint lastPoint in
    ltb distance five.

Definition extractVerticesFromLines (lines : list Line) : list Point :=
  match lines with
  | [] => []
  | line0 :: _ =>
      let vertices := startPoint line0 :: map endPoint lines in
      if 3 <=? List.length lines then
        let firstPoint := at_index vertices 0 in
        let lastPoint := at_index vertices (List.length vertices - 1) in
        if neqb (x firstPoint) (x lastPoint) || neqb (y firstPoint) (y lastPoint)
        then vertices ++ [firstPoint]
        else vertices
      else vertices
  end.

(** [totalArea] of [client/src/pages/Home.tsx]: the pipeline from the drawn
    segments to the real-world area. *)
Definition totalArea (lines : list Line) (scale : T) : option T :=
  if List.length lines <? 3 then Some zero
  else
    let vertices := extractVerticesFromLines lines in
    pixelArea <- calculatePolygonArea vertices ;;
    scaleAreaToRealWorld pixelArea lines scale.

End Area.

Arguments Point T : clear implicits.
Arguments Line T : clear implicits.

(** ** Notions of the specification, for every arithmetic *)

(** The pairs of the shoelace formula, read along the sequence: every
    vertex with the one after it, and the last vertex with the first (the
    index [(i + 1) mod n]). *)
Definition closing_pairs {A : Type} (vertices : list A) : list (A * A) :=
  match vertices with
  | [] => []
  | first :: rest => combine vertices (rest ++ [first])
  end.

Section Notions.

Context {T : Type} {N : Number T}.

(** Coordinate equality of two points, with the [===] of the arithmetic. *)
Definition same_coordinates (p q : Point T) : bool :=
  eqb (x p) (x q) && eqb (y p) (y q).

(** The vertices before the closure rule is applied. *)
Definition open_vertices (line0 : Line T) (rest : list (Line T)) : list (Point T) :=
  startPoint line0 :: map endPoint (line0 :: rest).

(** A cyclic rotation: the sequence started [k] places later. *)
Definition rotate (k : nat) (vertices : list (Point T)) : list (Point T) :=
  skipn k vertices ++ firstn k vertices.

(** [lines[i].length], the declared length of the segment at index [i]. *)
Definition declared (lines : list (Line T)) (i : nat) : T :=
  length (nth i lines (mkLine zero (mkPoint zero zero) (mkPoint zero zero) zero)).

(** The pixel distance between the two ends of a segment. *)
Definition pixel_distance (line : Line T) : T :=
  calculateDistance (startPoint line) (endPoint line).

(** The point [p] moved by [(dx, dy)]. *)
Definition translate (dx dy : T) (p : Point T) : Point T :=
  mkPoint (add (x p) dx) (add (y p) dy).

(** The euclidean distance as the specification defines it,
    [sqrt((q.x - p.x)^2 + (q.y - p.y)^2)], a square being the product of a
    number with itself. *)
Definition square (a : T) : T := mul a a.

Definition euclidean_distance (p q : Point T) : T :=
  sqrt (add (square (sub (x q) (x p))) (square (sub (y q) (y p)))).

(** The shoelace sum as the loop accumulates it along the pairs, from 0:
    for the pair of [(x_i, y_i)] and [(x_(i+1), y_(i+1))] the product
    [x_i * y_(i+1)] is added, then the product [x_(i+1) * y_i] is
    subtracted. *)
Definition accumulate (sum : T) (pair : Point T * Point T) : T :=
  sub (add sum (mul (x (fst pair)) (y (snd pair))))
      (mul (x (snd pair)) (y (fst pair))).

Definition running_sum (vertices : list (Point T)) : T :=
  fold_left accumulate (closing_pairs vertices) zero.

(** The shoelace sum as the formula writes it: the differences
    [x_i * y_(i+1) - x_(i+1) * y_i], added up from 0. *)
Definition difference (pair : Point T * Point T) : T :=
  sub (mul (x (fst pair)) (y (snd pair))) (mul (x (snd pair)) (y (fst pair))).

Definition sum_of_differences (vertices : list (Point T)) : T :=
  fold_left add (map difference (closing_pairs vertices)) zero.

End Notions.

(** ** Binary64: the arithmetic the program runs on *)

Module Binary64.

#[global] Instance number : Number float := {
  zero := 0%float;
  two := 2%float;
  five := 5%float;
  tenth := 0x1.999999999999ap-4%float;
  of_nat := fun n => PrimFloat.of_uint63 (Uint63.of_Z (Z.of_nat n));
  add := PrimFloat.add;
  sub := PrimFloat.sub;
  mul := PrimFloat.mul;
  div := fun a b => Some (PrimFloat.div a b);
  sqrt := PrimFloat.sqrt;
  abs := PrimFloat.abs;
  ltb := PrimFloat.ltb;
  eqb := PrimFloat.eqb
}.

(** The binary64 number of an integer: the integer itself, as long as its
    magnitude is below 2^53. *)
Definition integer (z : Z) : float :=
  if (z <? 0)%Z then PrimFloat.opp (PrimFloat.of_uint63 (Uint63.of_Z (- z)))
  else PrimFloat.of_uint63 (Uint63.of_Z z).

(** A point of the drawing at integer coordinates. *)
Definition pixel (p : Z * Z) : Point float :=
  mkPoint (integer (fst p)) (integer (snd p)).

Definition both_pixels (pair : (Z * Z) * (Z * Z)) : Point float * Point float :=
  (pixel (fst pair), pixel (snd pair)).

(** The segments that have a pixel length, their ratios of declared length
    to pixel length in the order of the segments, and the mean of the
    ratios: their sum from 0, divided by their number. *)
Definition has_pixel_length (line : Line float) : bool :=
  PrimFloat.ltb 0 (euclidean_distance (startPoint line) (endPoint line)).

Definition measured (lines : list (Line float)) : list (Line float) :=
  filter has_pixel_length lines.

Definition ratio (line : Line float) : float :=
  PrimFloat.div (length line)
                (euclidean_distance (startPoint line) (endPoint line)).

Definition mean_ratio (lines : list (Line float)) : float :=
  PrimFloat.div (fold_left PrimFloat.add (map ratio (measured lines)) 0%float)
                (of_nat (List.length (measured lines))).

(** The condition under which the rectangle shortcut is not taken: the
    segments are not four, or the declared lengths of two opposite sides
    differ by 0.1 or more. *)
Definition no_shortcut (lines : list (Line float)) : Prop :=
  List.length lines <> 4%nat
  \/ PrimFloat.leb tenth (PrimFloat.abs (PrimFloat.sub (declared lines 0)
                                                       (declared lines 2))) = true
  \/ PrimFloat.leb tenth (PrimFloat.abs (PrimFloat.sub (declared lines 1)
                                                       (declared lines 3))) = true.

(** A finite number: neither NaN nor an infinity. *)
Definition finite (a : float) : Prop :=
  match Prim2SF a with
  | S754_nan | S754_infinity _ => False
  | _ => True
  end.

Definition finite_point (p : Point float) : Prop := finite (x p) /\ finite (y p).

Definition finite_ends (line : Line float) : Prop :=
  (finite (x (startPoint line)) /\ finite (y (startPoint line)))
  /\ (finite (x (endPoint line)) /\ finite (y (endPoint line))).

(** A number that is not negative: NaN, or a number with [0 <= a]. *)
Definition not_negative (a : float) : Prop :=
  PrimFloat.is_nan a = true \/ PrimFloat.leb 0 a = true.

(** [a === b] on two results. *)
Definition same_value (r1 r2 : option float) : bool :=
  match r1, r2 with
  | Some a, Some b => PrimFloat.eqb a b
  | None, None => true
  | _, _ => false
  end.

Definition pt (a b : float) : Point float := mkPoint a b.
Definition ln (p q : Point float) (len : float) : Line float :=
  mkLine 0%float p q len.

#[local] Set Warnings "-inexact-float".

(** A 200 x 100 rectangle of the drawing, declared 20 m x 10 m. *)
Definition rectangle_plot : list (Line float) :=
  [ln (pt 0 0) (pt 200 0) 20; ln (pt 200 0) (pt 200 100) 10;
   ln (pt 200 100) (pt 0 100) 20; ln (pt 0 100) (pt 0 0) 10]%float.

(** Four segments declared 10, 5, 10.05 and 4.97 m, drawn as a kite. *)
Definition near_rectangle : list (Line float) :=
  [ln (pt 0 0) (pt 40 30) 10; ln (pt 40 30) (pt 80 0) 5;
   ln (pt 80 0) (pt 40 (-90)) 10.05; ln (pt 40 (-90)) (pt 0 0) 4.97]%float.

(** The same drawing declared 10, 5, 10.2 and 4.97 m. *)
Definition not_rectangle : list (Line float) :=
  [ln (pt 0 0) (pt 40 30) 10; ln (pt 40 30) (pt 80 0) 5;
   ln (pt 80 0) (pt 40 (-90)) 10.2; ln (pt 40 (-90)) (pt 0 0) 4.97]%float.

(** Two connected segments: three vertices, the first and the last apart. *)
Definition two_lines : list (Line float) :=
  [ln (pt 0 0) (pt 10 0) 10; ln (pt 10 0) (pt 10 10) 10]%float.

(** One segment of 100 pixels declared 10 m, and two of no pixel length. *)
Definition one_measured_line : list (Line float) :=
  [ln (pt 0 0) (pt 100 0) 10; ln (pt 100 0) (pt 100 0) 7;
   ln (pt 100 0) (pt 100 0) 3]%float.

(** A triangle with corners at tenths of a pixel. *)
Definition skewed_triangle : list (Point float) :=
  [pt 0.1 0.1; pt 0.1 0.2; pt 0.5 0.1]%float.

(** A triangle with sides of 1e200 pixels: its products overflow. *)
Definition huge_triangle : list (Point float) :=
  [pt 1e200 0; pt 1e200 1e200; pt 0 1e200]%float.

(** A triangle with sides of 1e-200 pixels, declared 3, 4 and 5 m: the
    squares of its coordinate differences underflow to 0. *)
Definition tiny_triangle : list (Line float) :=
  [ln (pt 0 0) (pt 1e-200 0) 3; ln (pt 1e-200 0) (pt 1e-200 1e-200) 4;
   ln (pt 1e-200 1e-200) (pt 0 0) 5]%float.

(** A 200 x 100 rectangle at integer coordinates. *)
Definition pixel_rectangle : list (Z * Z) :=
  [(0, 0); (200, 0); (200, 100); (0, 100)]%Z.

End Binary64.

(** ** Exact arithmetic: the real numbers *)

Module Exact.

Definition Rltb (a b : R) : bool := if Rlt_dec a b then true else false.
Definition Reqb (a b : R) : bool := if Req_dec_T a b then true else false.

(** Division by zero has no value. *)
Definition Rdiv_checked (a b : R) : option R :=
  if Req_dec_T b 0 then None else Some (a / b)%R.

#[global] Instance number : Number R := {
  zero := 0%R;
  two := 2%R;
  five := 5%R;
  tenth := (1 / 10)%R;
  of_nat := INR;
  add := Rplus;
  sub := Rminus;
  mul := Rmult;
  div := Rdiv_checked;
  sqrt := R_sqrt.sqrt;
  abs := Rabs;
  ltb := Rltb;
  eqb := Reqb
}.

Local Open Scope R_scope.

(** The segments that have a pixel length, their ratios of declared length
    to pixel length, and the arithmetic mean of these ratios. *)
Definition measured (lines : list (Line R)) : list (Line R) :=
  filter (fun line => negb (Reqb (pixel_distance line) 0)) lines.

Definition ratio (line : Line R) : R := length line / pixel_distance line.

Definition mean_ratio (lines : list (Line R)) : R :=
  fold_right Rplus 0 (map ratio (measured lines))
  / INR (List.length (measured lines)).

(** The condition under which the rectangle shortcut is not taken. *)
Definition no_shortcut (lines : list (Line R)) : Prop :=
  List.length lines <> 4%nat
  \/ 1 / 10 <= Rabs (declared lines 0 - declared lines 2)
  \/ 1 / 10 <= Rabs (declared lines 1 - declared lines 3).

(** A 3-4-5 triangle of the drawing, declared 6, 8 and 10 m. *)
Definition triangle_plot : list (Line R) :=
  [mkLine 1 (mkPoint 0 0) (mkPoint 3 0) 6;
   mkLine 2 (mkPoint 3 0) (mkPoint 3 4) 8;
   mkLine 3 (mkPoint 3 4) (mkPoint 0 0) 10].


End Exact.


(** ** Polygons at integer coordinates *)

Module Integer.

Local Open Scope Z_scope.

(** The summand of the shoelace formula for the edge from [p] to [q]. *)
Definition cross (p q : Z * Z) : Z := fst p * snd q - fst q * snd p.

(** [Σ_i (x_i * y_(i+1) - x_(i+1) * y_i)] over the integers, the last
    vertex paired with the first. *)
Definition shoelace_sum (points : list (Z * Z)) : Z :=
  fold_right Z.add 0
    (map (fun pair => cross (fst pair) (snd pair)) (closing_pairs points)).

(** The same sum read along the list: the summands of the consecutive
    pairs, and the closing pair from the last vertex back to the first. *)
Fixpoint pair_sum (points : list (Z * Z)) : Z :=
  match points with
  | p :: (q :: _) as rest => cross p q + pair_sum rest
  | _ => 0
  end.

Definition cyclic_sum (points : list (Z * Z)) : Z :=
  match points with
  | [] => 0
  | p :: _ => pair_sum (points ++ [p])
  end.

(** Every coordinate is at most [bound] in magnitude. *)
Definition within (bound : Z) (points : list (Z * Z)) : Prop :=
  forall p, In p points -> Z.abs (fst p) <= bound /\ Z.abs (snd p) <= bound.

(** With [n] vertices within [bound], no sum of the loop reaches 2^53. *)
Definition no_rounding (bound : Z) (points : list (Z * Z)) : Prop :=
  within bound points
  /\ 2 * Z.of_nat (List.length points) * bound * bound < 2 ^ 53.

(** A point moved by [(dx, dy)], and the corners of the axis-aligned
    rectangle with corner [(a, b)], width [w] and height [h], in the order
    they are drawn. *)
Definition moved (dx dy : Z) (p : Z * Z) : Z * Z := (fst p + dx, snd p + dy).

Definition rectangle_corners (a b w h : Z) : list (Z * Z) :=
  [(a, b); (a + w, b); (a + w, b + h); (a, b + h)].

End Integer.

(** ** The binary64 numbers of the integers, in the terms of [SpecFloat] *)

Module Binary64Integers.

Local Open Scope Z_scope.

(** The number of binary digits of [v]. *)
Definition digits (v : positive) : Z := Zpos (digits2_pos v).

(** [v * 2^k] *)
Definition lift (v : positive) (k : Z) : positive :=
  match k with
  | Zpos p => Pos.iter xO v p
  | _ => v
  end.

(** The binary64 number of the integer [v] of at most 53 digits: a
    mantissa of 53 digits and the exponent that goes with it. *)
Definition canon (s : bool) (v : positive) : spec_float :=
  S754_finite s (lift v (53 - digits v)) (digits v - 53).

(** The binary64 number of an integer below 2^53 in magnitude; the integer
    0 is the positive zero. *)
Definition SFint (c : Z) : spec_float :=
  match c with
  | Z0 => S754_zero false
  | Zpos v => canon false v
  | Zneg v => canon true v
  end.

Definition sign_of (c : Z) : bool :=
  match c with
  | Zneg _ => true
  | _ => false
  end.

(** A product that is 0 can be the negative zero. *)
Definition SFint_or_negative_zero (c : Z) (f : spec_float) : Prop :=
  f = SFint c \/ (c = 0 /\ f = S754_zero true).

(** A [spec_float] that is not below zero: NaN, a zero, or positive. *)
Definition SFnot_negative (f : spec_float) : Prop :=
  match f with
  | S754_nan | S754_zero _ => True
  | S754_infinity s | S754_finite s _ _ => s = false
  end.

(** A [spec_float] that is a zero of positive sign, positive, or the
    positive infinity. *)
Definition SFpositive_or_zero (f : spec_float) : Prop :=
  match f with
  | S754_nan => False
  | S754_zero s | S754_infinity s | S754_finite s _ _ => s = false
  end.

End Binary64Integers.
(** ** The handlers of [Canvas.tsx] and [MeasurementPanel] *)

(** The arithmetic the handlers use beyond that of [area.ts]. *)
Class NumberOps (T : Type) {N : Number T} : Type := {
  half : T;                      (* the literal [0.5] *)
  one : T;                       (* the literal [1] *)
  three : T;                     (* the literal [3] *)
  ten : T;                       (* the literal [10] *)
  hundred : T;                   (* the literal [100] *)
  leb : T -> T -> bool;          (* [a <= b] *)
  math_min : T -> T -> T;        (* [Math.min] *)
  math_max : T -> T -> T         (* [Math.max] *)
}.

Module Ui.

Section Handlers.

Context {T : Type} {N : Number T} {O : NumberOps T}.

(** [isNaN] of a number, and the truth value of a number as the left
    operand of [||]: every number but [0] and [NaN] is true. *)
Definition isNaN (value : T) : bool := neqb value value.
Definition truthy (value : T) : bool := negb (eqb value zero) && negb (isNaN value).

(** [a || b] on numbers. *)
Definition or_else (a b : T) : T := if truthy a then a else b.

(** The line being drawn, [Partial<Line>]: [handleCanvasMouseDown] sets its
    identifier, start and length; the end is there once the mouse moved. *)
Record PartialLine : Type := mkPartialLine {
  current_id : T;
  current_startPoint : Point T;
  current_endPoint : option (Point T);
  current_length : T
}.

Record DragPoint : Type := mkDragPoint { lineId : T; isStart : bool }.

(** The state of [Home] ([lines], [backgroundImage], [defaultLength],
    [scale]) and of [Canvas] ([isDrawing], [currentLine], [isDragging],
    [dragPoint], [zoom]). *)
Record App : Type := mkApp {
  lines : list (Line T);
  backgroundImage : option String.string;
  defaultLength : T;
  scale : T;
  isDrawing : bool;
  currentLine : option PartialLine;
  isDragging : bool;
  dragPoint : option DragPoint;
  zoom : T
}.

(** The initial values of the [useState] calls. *)
Definition initial : App :=
  mkApp [] None ten hundred false None false None one.

Definition set_lines (app : App) (newLines : list (Line T)) : App :=
  mkApp newLines (backgroundImage app) (defaultLength app) (scale app)
        (isDrawing app) (currentLine app) (isDragging app) (dragPoint app)
        (zoom app).

Definition set_zoom (app : App) (newZoom : T) : App :=
  mkApp (lines app) (backgroundImage app) (defaultLength app) (scale app)
        (isDrawing app) (currentLine app) (isDragging app) (dragPoint app)
        newZoom.

(** What a handler reads of a mouse event: the pointer, and whether the
    target is the canvas itself or its grid (not a handle of a line); and
    of [getBoundingClientRect]: the corner of the canvas. *)
Record MouseEvent : Type := mkMouseEvent {
  clientX : T;
  clientY : T;
  onBackground : bool
}.

Record Rect : Type := mkRect { left : T; top : T }.

(** [(e.clientX - rect.left) / zoom] and [(e.clientY - rect.top) / zoom]. *)
Definition pointer (app : App) (rect : Rect) (e : MouseEvent) : option (Point T) :=
  x <- div (sub (clientX e) (left rect)) (zoom app) ;;
  y <- div (sub (clientY e) (top rect)) (zoom app) ;;
  Some (mkPoint x y).

Definition handleCanvasMouseDown (app : App) (rect : Rect) (e : MouseEvent)
  : option App :=
  if isDragging app then Some app
  else if onBackground e then
    p <- pointer app rect e ;;
    let newLine :=
      mkPartialLine (of_nat (List.length (lines app) + 1)) p None
                    (defaultLength app) in
    Some (mkApp (lines app) (backgroundImage app) (defaultLength app)
                (scale app) true (Some newLine) (isDragging app)
                (dragPoint app) (zoom app))
  else Some app.

(** [lines.findIndex(line => line.id === lineId)], [None] for [-1]. *)
Fixpoint findIndex (lineId : T) (ls : list (Line T)) : option nat :=
  match ls with
  | [] => None
  | line :: rest =>
      if eqb (id line) lineId then Some 0
      else match findIndex lineId rest with
           | Some i => Some (S i)
           | None => None
           end
  end.

(** [newLines[lineIndex] = f(newLines[lineIndex])] on a copy of the array. *)
Fixpoint update_at (i : nat) (f : Line T -> Line T) (ls : list (Line T))
  {struct ls} : list (Line T) :=
  match ls, i with
  | [], _ => []
  | line :: rest, 0 => f line :: rest
  | line :: rest, S j => line :: update_at j f rest
  end.

Definition with_startPoint (p : Point T) (line : Line T) : Line T :=
  mkLine (id line) p (endPoint line) (length line).

Definition with_endPoint (p : Point T) (line : Line T) : Line T :=
  mkLine (id line) (startPoint line) p (length line).

Definition with_length (newLength : T) (line : Line T) : Line T :=
  mkLine (id line) (startPoint line) (endPoint line) newLength.

Definition handleCanvasMouseMove (app : App) (rect : Rect) (e : MouseEvent)
  : option App :=
  p <- pointer app rect e ;;
  match isDrawing app, currentLine app with
  | true, Some current =>
      let moved :=
        mkPartialLine (current_id current) (current_startPoint current)
                      (Some p) (current_length current) in
      Some (mkApp (lines app) (backgroundImage app) (defaultLength app)
                  (scale app) (isDrawing app) (Some moved) (isDragging app)
                  (dragPoint app) (zoom app))
  | _, _ =>
      match isDragging app, dragPoint app with
      | true, Some drag =>
          match findIndex (lineId drag) (lines app) with
          | None => Some app
          | Some lineIndex =>
              let newLines :=
                update_at lineIndex
                  (if isStart drag then with_startPoint p else with_endPoint p)
                  (lines app) in
              Some (set_lines app newLines)
          end
      | _, _ => Some app
      end
  end.

(** [now] is the value of [Date.now()]. *)
Definition handleCanvasMouseUp (app : App) (now : T) : App :=
  let finished :=
    match isDrawing app, currentLine app with
    | true, Some current =>
        match current_endPoint current with
        | Some endPoint =>
            let newLine :=
              mkLine (or_else (current_id current) now)
                     (current_startPoint current) endPoint
                     (or_else (current_length current) (defaultLength app)) in
            Some (lines app ++ [newLine])
        | None => None
        end
    | _, _ => None
    end in
  match finished with
  | Some newLines =>
      mkApp newLines (backgroundImage app) (defaultLength app) (scale app)
            false None false None (zoom app)
  | None =>
      mkApp (lines app) (backgroundImage app) (defaultLength app) (scale app)
            false (currentLine app) false None (zoom app)
  end.

Definition handlePointMouseDown (app : App) (lineId : T) (isStart : bool) : App :=
  mkApp (lines app) (backgroundImage app) (defaultLength app) (scale app)
        (isDrawing app) (currentLine app) true
        (Some (mkDragPoint lineId isStart)) (zoom app).

Definition handleZoomIn (app : App) : App :=
  set_zoom app (math_min (add (zoom app) tenth) three).

Definition handleZoomOut (app : App) : App :=
  set_zoom app (math_max (sub (zoom app) tenth) half).

Definition handleUndo (app : App) : App :=
  if 0 <? List.length (lines app) then set_lines app (removelast (lines app))
  else app.

Definition handleClearAll (app : App) : App := set_lines app [].

(** [value] is the number [parseFloat] read from the input. *)
Definition handleDefaultLengthChange (app : App) (value : T) : App :=
  if negb (isNaN value) && gtb value zero then
    mkApp (lines app) (backgroundImage app) value (scale app)
          (isDrawing app) (currentLine app) (isDragging app) (dragPoint app)
          (zoom app)
  else app.

Definition handleScaleChange (app : App) (value : T) : App :=
  if negb (isNaN value) && gtb value zero then
    mkApp (lines app) (backgroundImage app) (defaultLength app) value
          (isDrawing app) (currentLine app) (isDragging app) (dragPoint app)
          (zoom app)
  else app.

Definition handleLineLengthChange (app : App) (lineId newLength : T) : App :=
  if isNaN newLength || leb newLength zero then app
  else
    let updatedLines :=
      map (fun line => if eqb (id line) lineId
                       then with_length newLength line else line)
          (lines app) in
    set_lines app updatedLines.

Definition handleDeleteLine (app : App) (lineId : T) : App :=
  let updatedLines := filter (fun line => neqb (id line) lineId) (lines app) in
  set_lines app updatedLines.

(** [confirmed] is the answer to [window.confirm], asked only when there is
    something to lose: a line, or an image (a string that is not empty). *)
Definition handleNewPlot (app : App) (confirmed : bool) : App :=
  let cleared :=
    mkApp [] None (defaultLength app) (scale app) (isDrawing app)
          (currentLine app) (isDragging app) (dragPoint app) (zoom app) in
  if (0 <? List.length (lines app))
     || match backgroundImage app with
        | Some data => negb (String.eqb data String.EmptyString)
        | None => false
        end
  then if confirmed then cleared else app
  else cleared.

(** [reader.onload] of [handleImageUpload]. *)
Definition imageLoaded (app : App) (data : String.string) : App :=
  mkApp (lines app) (Some data) (defaultLength app) (scale app)
        (isDrawing app) (currentLine app) (isDragging app) (dragPoint app)
        (zoom app).

(** Indices in ascending order. *)
Fixpoint ascending (indices : list nat) : Prop :=
  match indices with
  | [] => True
  | i :: rest => Forall (lt i) rest /\ ascending rest
  end.

(** The events of a session, and the handler each one runs. *)
Inductive Event : Type :=
| CanvasMouseDown (rect : Rect) (e : MouseEvent)
| CanvasMouseMove (rect : Rect) (e : MouseEvent)
| CanvasMouseUp (now : T)
| PointMouseDown (lineId : T) (isStart : bool)
| ZoomIn
| ZoomOut
| Undo
| ClearAll
| DefaultLengthChange (value : T)
| ScaleChange (value : T)
| LineLengthChange (lineId newLength : T)
| DeleteLine (lineId : T)
| NewPlot (confirmed : bool)
| ImageLoaded (data : String.string).

Definition handle (app : App) (event : Event) : option App :=
  match event with
  | CanvasMouseDown rect e => handleCanvasMouseDown app rect e
  | CanvasMouseMove rect e => handleCanvasMouseMove app rect e
  | CanvasMouseUp now => Some (handleCanvasMouseUp app now)
  | PointMouseDown lineId isStart => Some (handlePointMouseDown app lineId isStart)
  | ZoomIn => Some (handleZoomIn app)
  | ZoomOut => Some (handleZoomOut app)
  | Undo => Some (handleUndo app)
  | ClearAll => Some (handleClearAll app)
  | DefaultLengthChange value => Some (handleDefaultLengthChange app value)
  | ScaleChange value => Some (handleScaleChange app value)
  | LineLengthChange lineId newLength =>
      Some (handleLineLengthChange app lineId newLength)
  | DeleteLine lineId => Some (handleDeleteLine app lineId)
  | NewPlot confirmed => Some (handleNewPlot app confirmed)
  | ImageLoaded data => Some (imageLoaded app data)
  end.

Fixpoint run (app : App) (events : list Event) : option App :=
  match events with
  | [] => Some app
  | event :: rest => app' <- handle app event ;; run app' rest
  end.

(** Drawing one line: the mouse pressed at [e1], moved to [e2], released. *)
Definition draw (app : App) (rect : Rect) (e1 e2 : MouseEvent) (now : T)
  : option App :=
  run app [CanvasMouseDown rect e1; CanvasMouseMove rect e2; CanvasMouseUp now].

End Handlers.

Arguments App T : clear implicits.
Arguments Event T : clear implicits.
Arguments PartialLine T : clear implicits.
Arguments DragPoint T : clear implicits.
Arguments MouseEvent T : clear implicits.
Arguments Rect T : clear implicits.

End Ui.

Module Binary64Ops.

Local Open Scope float_scope.

(** [Math.min] and [Math.max] of two numbers: NaN when either is NaN, and
    [-0] below [+0]. *)
Definition is_negative_zero (a : float) : bool :=
  match PrimFloat.classify a with
  | FloatClass.NZero => true
  | _ => false
  end.

Definition js_min (a b : float) : float :=
  if PrimFloat.is_nan a || PrimFloat.is_nan b then PrimFloat.nan
  else if PrimFloat.ltb a b then a
  else if PrimFloat.ltb b a then b
  else if is_negative_zero a then a else b.

Definition js_max (a b : float) : float :=
  if PrimFloat.is_nan a || PrimFloat.is_nan b then PrimFloat.nan
  else if PrimFloat.ltb a b then b
  else if PrimFloat.ltb b a then a
  else if is_negative_zero a then b else a.

#[global] Instance ops : NumberOps float := {
  half := 0.5%float;
  one := 1%float;
  three := 3%float;
  ten := 10%float;
  hundred := 100%float;
  leb := PrimFloat.leb;
  math_min := js_min;
  math_max := js_max
}.

(** The 200 x 100 rectangle with its lines numbered, at rest; with a fifth
    line being drawn; and with the start of line 2 being dragged. *)
Definition numbered_plot : list (Line float) :=
  [mkLine 1 (Binary64.pt 0 0) (Binary64.pt 200 0) 20;
   mkLine 2 (Binary64.pt 200 0) (Binary64.pt 200 100) 10;
   mkLine 3 (Binary64.pt 200 100) (Binary64.pt 0 100) 20;
   mkLine 4 (Binary64.pt 0 100) (Binary64.pt 0 0) 10]%float.

Definition resting_app : Ui.App float :=
  Ui.mkApp numbered_plot None 10 100 false None false None 1.

Definition drawing_app : Ui.App float :=
  Ui.mkApp numbered_plot None 10 100 true
    (Some (Ui.mkPartialLine 5 (Binary64.pt 0 0) (Some (Binary64.pt 30 40)) 10))
    false None 1.

Definition dragging_app : Ui.App float :=
  Ui.mkApp numbered_plot None 10 100 false None true
    (Some (Ui.mkDragPoint 2 true)) 2.

(** The zoom levels a session can reach from 1: the closure of [{1}] under
    the steps of the two zoom buttons. *)
Definition zoom_steps (z : float) : list float :=
  [math_min (add z tenth) three; math_max (sub z tenth) half].

Fixpoint zoom_closure (fuel : nat) (seen todo : list float) : list float :=
  match fuel with
  | O => seen
  | S fuel' =>
      match todo with
      | [] => seen
      | z :: rest =>
          if existsb (PrimFloat.Leibniz.eqb z) seen
          then zoom_closure fuel' seen rest
          else zoom_closure fuel' (z :: seen) (zoom_steps z ++ rest)
      end
  end.

Definition zoom_levels : list float :=
  Eval vm_compute in zoom_closure 1000 [] [one].

(** What every session keeps: a zoom level of the list, and the default
    length, the scale and every declared length above 0. *)
Definition above_zero (a : float) : Prop := PrimFloat.ltb 0 a = true.

Definition invariant (app : Ui.App float) : Prop :=
  In (Ui.zoom app) zoom_levels
  /\ above_zero (Ui.defaultLength app)
  /\ above_zero (Ui.scale app)
  /\ Forall (fun line => above_zero (length line)) (Ui.lines app)
  /\ (forall current, Ui.currentLine app = Some current ->
                       above_zero (Ui.current_length current)).

End Binary64Ops.

Module ExactOps.

Definition Rleb (a b : R) : bool := if Rle_dec a b then true else false.

#[global] Instance ops : NumberOps R := {
  half := (1 / 2)%R;
  one := 1%R;
  three := 3%R;
  ten := 10%R;
  hundred := 100%R;
  leb := Rleb;
  math_min := Rmin;
  math_max := Rmax
}.

End ExactOps.

Module UiExact.

Import Ui.
Local Open Scope R_scope.

(** The segments numbered 1, 2, ..., [n] in order. *)
Definition numbered (n : nat) (ls : list (Line R)) : Prop :=
  map id ls = map INR (seq 1 n).

(** The pointer of an event in the coordinates of the drawing. *)
Definition drawing_point (app : App R) (rect : Rect R) (e : MouseEvent R)
  : Point R :=
  mkPoint ((clientX e - left rect) / zoom app) ((clientY e - top rect) / zoom app).

(** A session at rest on the 3-4-5 triangle. *)
Definition triangle_app : App R :=
  mkApp Exact.triangle_plot None 10 100 false None false None 1.

End UiExact.

(** ** The storage of [server/storage.ts] and the routes of [server/routes.ts] *)

Module Server.

Import String.StringSyntax.
Local Open Scope string_scope.
Local Open Scope Z_scope.

(** *** A JavaScript [Map] with integer keys

    The entries in insertion order: [set] on a key that is there replaces
    its value in place, [set] on a new key appends, [delete] removes. *)
Section JsMap.

Context {V : Type}.

Definition JsMap : Type := list (Z * V).

Fixpoint map_get (key : Z) (m : JsMap) : option V :=
  match m with
  | [] => None
  | (k, v) :: rest => if k =? key then Some v else map_get key rest
  end.

Fixpoint map_set (key : Z) (value : V) (m : JsMap) : JsMap :=
  match m with
  | [] => [(key, value)]
  | (k, v) :: rest =>
      if k =? key then (k, value) :: rest else (k, v) :: map_set key value rest
  end.

(** [Map.prototype.delete]: whether the key was there, and the map without it. *)
Fixpoint map_delete (key : Z) (m : JsMap) : bool * JsMap :=
  match m with
  | [] => (false, [])
  | (k, v) :: rest =>
      if k =? key then (true, rest)
      else let (found, rest') := map_delete key rest in (found, (k, v) :: rest')
  end.

Definition map_values (m : JsMap) : list V := map snd m.
Definition map_keys (m : JsMap) : list Z := map fst m.

End JsMap.

Arguments JsMap V : clear implicits.

(** [id++] on a number: exact below 2^53, where a binary64 number stops
    counting ([2^53 + 1] rounds back to [2^53]). *)
Definition increment (n : Z) : Z := if n <? 2 ^ 53 then n + 1 else n.

(** *** The records of [shared/schema.ts] *)

Module User.
Record t : Type := make { id : Z; username : String.string; password : String.string }.
End User.

Module InsertUser.
Record t : Type := make { username : String.string; password : String.string }.
End InsertUser.

Section Storage.

(** The JSON value a plot stores as its [measurements]. *)
Context {J : Type}.

(** [LandPlot]: [userId] is a number or [null]. *)
Record LandPlot : Type := mkLandPlot {
  plot_id : Z;
  plot_userId : option Z;
  plot_name : String.string;
  plot_measurements : J;
  plot_area : Z;
  plot_createdAt : String.string
}.

(** [InsertLandPlot]: [userId] may also be left out ([undefined]). *)
Record InsertLandPlot : Type := mkInsertLandPlot {
  insert_userId : option (option Z);
  insert_name : String.string;
  insert_measurements : J;
  insert_area : Z;
  insert_createdAt : String.string
}.

(** The update of a plot.  Its declared type is [Partial<InsertLandPlot>],
    but the route hands over the body of the request as it came, and the
    spread copies every key it finds: so each key of [LandPlot], the
    [id] included, is left out or carries a value.  The values are taken
    to have the types of their keys. *)
Record LandPlotUpdate : Type := mkLandPlotUpdate {
  update_id : option Z;
  update_userId : option (option Z);
  update_name : option String.string;
  update_measurements : option J;
  update_area : option Z;
  update_createdAt : option String.string
}.

(** [MemStorage] *)
Record MemStorage : Type := mkMemStorage {
  users : JsMap User.t;
  landPlots : JsMap LandPlot;
  userCurrentId : Z;
  landPlotCurrentId : Z
}.

(** The constructor. *)
Definition newMemStorage : MemStorage := mkMemStorage [] [] 1 1.

Definition getUser (s : MemStorage) (id : Z) : option User.t :=
  map_get id (users s).

Definition getUserByUsername (s : MemStorage) (username : String.string)
  : option User.t :=
  find (fun user => String.eqb (User.username user) username)
       (map_values (users s)).

Definition createUser (s : MemStorage) (insertUser : InsertUser.t)
  : MemStorage * User.t :=
  let id := userCurrentId s in
  let user := User.make id (InsertUser.username insertUser)
                        (InsertUser.password insertUser) in
  (mkMemStorage (map_set id user (users s)) (landPlots s)
                (increment id) (landPlotCurrentId s),
   user).

Definition getLandPlot (s : MemStorage) (id : Z) : option LandPlot :=
  map_get id (landPlots s).

(** [landPlot.userId === userId], the right side a number. *)
Definition has_userId (userId : Z) (landPlot : LandPlot) : bool :=
  match plot_userId landPlot with
  | Some u => u =? userId
  | None => false
  end.

Definition getLandPlotsByUserId (s : MemStorage) (userId : Z) : list LandPlot :=
  filter (has_userId userId) (map_values (landPlots s)).

Definition createLandPlot (s : MemStorage) (insertLandPlot : InsertLandPlot)
  : MemStorage * LandPlot :=
  let id := landPlotCurrentId s in
  let userId :=
    match insert_userId insertLandPlot with
    | None => None
    | Some userId => userId
    end in
  let landPlot :=
    mkLandPlot id userId (insert_name insertLandPlot)
               (insert_measurements insertLandPlot)
               (insert_area insertLandPlot)
               (insert_createdAt insertLandPlot) in
  (mkMemStorage (users s) (map_set id landPlot (landPlots s))
                (userCurrentId s) (increment id),
   landPlot).

(** [a ?? b] for a key of the update spread over the existing record. *)
Definition spread {A : Type} (existing : A) (update : option A) : A :=
  match update with
  | Some value => value
  | None => existing
  end.

Definition updateLandPlot (s : MemStorage) (id : Z)
    (landPlotUpdate : LandPlotUpdate) : MemStorage * option LandPlot :=
  match map_get id (landPlots s) with
  | None => (s, None)
  | Some existingLandPlot =>
      let updatedLandPlot :=
        mkLandPlot
          (spread (plot_id existingLandPlot) (update_id landPlotUpdate))
          (spread (plot_userId existingLandPlot) (update_userId landPlotUpdate))
          (spread (plot_name existingLandPlot) (update_name landPlotUpdate))
          (spread (plot_measurements existingLandPlot)
                  (update_measurements landPlotUpdate))
          (spread (plot_area existingLandPlot) (update_area landPlotUpdate))
          (spread (plot_createdAt existingLandPlot)
                  (update_createdAt landPlotUpdate)) in
      (mkMemStorage (users s) (map_set id updatedLandPlot (landPlots s))
                    (userCurrentId s) (landPlotCurrentId s),
       Some updatedLandPlot)
  end.

Definition deleteLandPlot (s : MemStorage) (id : Z) : MemStorage * bool :=
  let (deleted, landPlots') := map_delete id (landPlots s) in
  (mkMemStorage (users s) landPlots' (userCurrentId s) (landPlotCurrentId s),
   deleted).

(** The calls on the storage, and a sequence of calls. *)
Inductive Call : Type :=
| CreateUser (insertUser : InsertUser.t)
| CreateLandPlot (insertLandPlot : InsertLandPlot)
| UpdateLandPlot (id : Z) (landPlotUpdate : LandPlotUpdate)
| DeleteLandPlot (id : Z).

Definition call (s : MemStorage) (c : Call) : MemStorage :=
  match c with
  | CreateUser insertUser => fst (createUser s insertUser)
  | CreateLandPlot insertLandPlot => fst (createLandPlot s insertLandPlot)
  | UpdateLandPlot id landPlotUpdate => fst (updateLandPlot s id landPlotUpdate)
  | DeleteLandPlot id => fst (deleteLandPlot s id)
  end.

Definition calls (s : MemStorage) (cs : list Call) : MemStorage :=
  fold_left call cs s.

(** What the storage keeps of a map: the keys in the order of creation are
    increasing, every key is at least 1 and below the counter (or equal to
    it, once the counter has stopped at 2^53), and the counter is between 1
    and 2^53. *)
Fixpoint increasing (keys : list Z) : Prop :=
  match keys with
  | [] => True
  | k :: rest => Forall (Z.lt k) rest /\ increasing rest
  end.

Definition ordered_below {V : Type} (counter : Z) (m : JsMap V) : Prop :=
  increasing (map_keys m)
  /\ (forall k, In k (map_keys m) ->
                 1 <= k /\ (k < counter \/ (k = counter /\ counter = 2 ^ 53)))
  /\ 1 <= counter <= 2 ^ 53.

(** Every user is stored under its own [id].  For the plots this is lost
    with the first update that carries an [id]: see [own_ids]. *)
Definition well_formed (s : MemStorage) : Prop :=
  ordered_below (userCurrentId s) (users s)
  /\ ordered_below (landPlotCurrentId s) (landPlots s)
  /\ (forall k user, In (k, user) (users s) -> User.id user = k).

(** Every plot is stored under its own [id]. *)
Definition own_ids (s : MemStorage) : Prop :=
  forall k landPlot, In (k, landPlot) (landPlots s) -> plot_id landPlot = k.

(** A call that is no update with an [id] key. *)
Definition no_id_key (c : Call) : Prop :=
  match c with
  | UpdateLandPlot _ landPlotUpdate => update_id landPlotUpdate = None
  | _ => True
  end.

(** The fields of [existing] with the keys of [landPlotUpdate] written over
    them. *)
Definition merged (existing updated : LandPlot) (landPlotUpdate : LandPlotUpdate)
  : Prop :=
  plot_id updated = spread (plot_id existing) (update_id landPlotUpdate)
  /\ plot_userId updated
     = spread (plot_userId existing) (update_userId landPlotUpdate)
  /\ plot_name updated = spread (plot_name existing) (update_name landPlotUpdate)
  /\ plot_measurements updated
     = spread (plot_measurements existing) (update_measurements landPlotUpdate)
  /\ plot_area updated = spread (plot_area existing) (update_area landPlotUpdate)
  /\ plot_createdAt updated
     = spread (plot_createdAt existing) (update_createdAt landPlotUpdate).

(** *** The routes *)

(** The body of a request; [insertLandPlotSchema.parse] and
    [measurementsSchema.parse], which give the message of the [ZodError]
    when they fail; and [parseInt], [None] standing for NaN. *)
Context {Body : Type}.
Variable parseInsertLandPlot : Body -> String.string + InsertLandPlot.
Variable parseMeasurements : J -> option String.string.
Variable parseInt : String.string -> option Z.

(** Whether a JSON value counts as true in a condition. *)
Variable isTruthy : J -> bool.

Inductive Json : Type :=
| JsonLandPlot (landPlot : LandPlot)
| JsonLandPlots (landPlots : list LandPlot)
| JsonMessage (message : String.string)
| NoContent.

Record Response : Type := mkResponse { status : Z; sent : Json }.

(** [POST /api/land-plots] *)
Definition postLandPlot (s : MemStorage) (body : Body) : MemStorage * Response :=
  match parseInsertLandPlot body with
  | inl message => (s, mkResponse 400 (JsonMessage message))
  | inr landPlotData =>
      match parseMeasurements (insert_measurements landPlotData) with
      | Some message => (s, mkResponse 400 (JsonMessage message))
      | None =>
          let (s', savedLandPlot) := createLandPlot s landPlotData in
          (s', mkResponse 201 (JsonLandPlot savedLandPlot))
      end
  end.

(** [GET /api/land-plots/:id] *)
Definition getLandPlotById (s : MemStorage) (idParam : String.string) : Response :=
  match parseInt idParam with
  | None => mkResponse 400 (JsonMessage "Invalid ID format")
  | Some id =>
      match getLandPlot s id with
      | None => mkResponse 404 (JsonMessage "Land plot not found")
      | Some landPlot => mkResponse 200 (JsonLandPlot landPlot)
      end
  end.

(** [PATCH /api/land-plots/:id]: the measurements are validated when the
    body has them and they count as true; nothing else of the body is. *)
Definition patchLandPlotById (s : MemStorage) (idParam : String.string)
    (updateData : LandPlotUpdate) : MemStorage * Response :=
  match parseInt idParam with
  | None => (s, mkResponse 400 (JsonMessage "Invalid ID format"))
  | Some id =>
      let refused :=
        match update_measurements updateData with
        | Some measurements =>
            if isTruthy measurements then parseMeasurements measurements
            else None
        | None => None
        end in
      match refused with
      | Some message => (s, mkResponse 400 (JsonMessage message))
      | None =>
          let (s', updatedLandPlot) := updateLandPlot s id updateData in
          match updatedLandPlot with
          | None => (s', mkResponse 404 (JsonMessage "Land plot not found"))
          | Some landPlot => (s', mkResponse 200 (JsonLandPlot landPlot))
          end
      end
  end.

(** [DELETE /api/land-plots/:id] *)
Definition deleteLandPlotById (s : MemStorage) (idParam : String.string)
  : MemStorage * Response :=
  match parseInt idParam with
  | None => (s, mkResponse 400 (JsonMessage "Invalid ID format"))
  | Some id =>
      let (s', deleted) := deleteLandPlot s id in
      if negb deleted
      then (s', mkResponse 404 (JsonMessage "Land plot not found"))
      else (s', mkResponse 204 NoContent)
  end.

(** [GET /api/land-plots]: [userIdQuery] is [req.query.userId] when it is a
    string, [None] when it is missing.  The empty string, NaN and 0 are
    false. *)
Definition listLandPlots (s : MemStorage) (userIdQuery : option String.string)
  : Response :=
  let userId :=
    match userIdQuery with
    | Some text => if String.eqb text String.EmptyString then None else parseInt text
    | None => None
    end in
  let landPlots :=
    match userId with
    | Some n => if n =? 0 then [] else getLandPlotsByUserId s n
    | None => []
    end in
  mkResponse 200 (JsonLandPlots landPlots).

End Storage.

Arguments LandPlot J : clear implicits.
Arguments InsertLandPlot J : clear implicits.
Arguments LandPlotUpdate J : clear implicits.
Arguments MemStorage J : clear implicits.
Arguments Call J : clear implicits.
Arguments Json J : clear implicits.
Arguments Response J : clear implicits.

End Server.

(** A storage with one user and two plots, the measurements left out. *)
Module ServerSample.

Import Server.
Import String.StringSyntax.
Local Open Scope string_scope.
Local Open Scope Z_scope.

Definition first_plot : InsertLandPlot unit :=
  mkInsertLandPlot (Some (Some 1)) "Lahan A" tt 200 "2025-01-01".

Definition second_plot : InsertLandPlot unit :=
  mkInsertLandPlot None "Lahan B" tt 50 "2025-01-02".

Definition sample_storage : MemStorage unit :=
  calls newMemStorage
    [CreateUser (InsertUser.make "ani" "secret");
     CreateLandPlot first_plot; CreateLandPlot second_plot].

(** An update that carries nothing but the [id] 3, and a third plot. *)
Definition renumbering : LandPlotUpdate unit :=
  mkLandPlotUpdate (Some 3) None None None None None.

Definition third_plot : InsertLandPlot unit :=
  mkInsertLandPlot (Some (Some 1)) "Lahan C" tt 75 "2025-01-03".

(** A stand-in for [parseInt] on the three texts the samples use. *)
Definition sample_parseInt (text : String.string) : option Z :=
  if String.eqb text "1" then Some 1
  else if String.eqb text "2" then Some 2
  else if String.eqb text "0" then Some 0
  else None.

End ServerSample.

(** ** Properties of the control flow, for every arithmetic *)

Section Generic.

Context {T : Type} {N : Number T}.

Implicit Types (lines : list (Line T)) (points : list (Point T)).

(** [vertices[vertices.length - 1]] is the last element. *)
Lemma at_index_last points (d : Point T) :
  nth (List.length points - 1) points d = last points d.
Proof.
  induction points as [|p [|q ps] IH]; try reflexivity.
  change (last (p :: q :: ps) d) with (last (q :: ps) d).
  rewrite <- IH; simpl. now rewrite Nat.sub_0_r.
Qed.

Lemma last_cons {A : Type} (a : A) (l : list A) (d : A) :
  last (a :: l) d = last l a.
Proof.
  revert a d. induction l as [|b l IH]; intros a d; [reflexivity|].
  change (last (a :: b :: l) d) with (last (b :: l) d).
  now rewrite (IH b d), (IH b a).
Qed.

Lemma last_map {A B : Type} (f : A -> B) (l : list A) (d : A) :
  last (map f l) (f d) = f (last l d).
Proof.
  induction l as [|a [|b l] IH]; try reflexivity.
  change (last (map f (a :: b :: l)) (f d)) with (last (map f (b :: l)) (f d)).
  now rewrite IH.
Qed.

(** C1: with exactly four segments whose opposite declared lengths differ
    by less than 0.1, [scaleAreaToRealWorld] returns
    [segments[0].length * segments[1].length], whatever the pixel area,
    the scale and the coordinates of the segments. *)
Theorem rectangle_shortcut_returns_product
    (pixelArea scale : T) (l0 l1 l2 l3 : Line T) :
  ltb (abs (sub (length l0) (length l2))) tenth = true ->
  ltb (abs (sub (length l1) (length l3))) tenth = true ->
  scaleAreaToRealWorld pixelArea [l0; l1; l2; l3] scale
  = Some (mul (length l0) (length l1)).
Proof.
  intros HAC HBD.
  unfold scaleAreaToRealWorld, isRectangle; simpl.
  now rewrite HAC, HBD.
Qed.

(** C7: with fewer than three segments [scaleAreaToRealWorld] returns 0,
    whatever the pixel area, the segments and the scale. *)
Theorem fewer_than_three_lines_scale_to_zero
    (pixelArea scale : T) lines :
  List.length lines < 3 ->
  scaleAreaToRealWorld pixelArea lines scale = Some zero.
Proof.
  intros Hlen. unfold scaleAreaToRealWorld.
  apply Nat.ltb_lt in Hlen. now rewrite Hlen.
Qed.

(** C9: the [scale] argument of [scaleAreaToRealWorld] never affects the
    result. *)
Theorem scale_argument_is_ignored (pixelArea s1 s2 : T) lines :
  scaleAreaToRealWorld pixelArea lines s1
  = scaleAreaToRealWorld pixelArea lines s2.
Proof.
  unfold scaleAreaToRealWorld.
  destruct (List.length lines <? 3); reflexivity.
Qed.

(** C5: [extractVerticesFromLines] maps the empty sequence to the empty
    sequence, and on a non-empty sequence its output is the start point of
    the first segment, then the end point of every segment in order, then
    the closure, which is empty or one copy of that start point. *)
Theorem extract_vertices_prefix :
  extractVerticesFromLines (@nil (Line T)) = []
  /\ forall (line0 : Line T) rest,
       exists closure,
         extractVerticesFromLines (line0 :: rest)
         = (startPoint line0 :: map endPoint (line0 :: rest)) ++ closure
         /\ (closure = [] \/ closure = [startPoint line0]).
Proof.
  split; [reflexivity|].
  intros line0 rest. unfold extractVerticesFromLines.
  destruct (3 <=? List.length (line0 :: rest)).
  - cbv zeta.
    destruct (neqb _ _ || neqb _ _).
    + exists [startPoint line0]. split; [reflexivity | now right].
    + exists []. split; [now rewrite app_nil_r | now left].
  - exists []. split; [now rewrite app_nil_r | now left].
Qed.

(** C4, as the code has it: the closure rule is guarded by the number of
    segments.  With at least three segments a copy of the first vertex is
    appended exactly when the first vertex (the start of the first
    segment) and the last vertex (the end of the last segment) differ in a
    coordinate; with fewer than three segments nothing is appended. *)
Theorem closure_rule_by_segment_count (line0 : Line T) rest :
  let lines := line0 :: rest in
  let firstPoint := startPoint line0 in
  let lastPoint := endPoint (last lines line0) in
  extractVerticesFromLines lines
  = if (3 <=? List.length lines) && negb (same_coordinates firstPoint lastPoint)
    then open_vertices line0 rest ++ [firstPoint]
    else open_vertices line0 rest.
Proof.
  intros lines firstPoint lastPoint.
  unfold extractVerticesFromLines, open_vertices, lines.
  destruct (3 <=? List.length (line0 :: rest)); [|reflexivity].
  cbv zeta. unfold at_index.
  rewrite at_index_last. simpl map.
  rewrite !last_cons, (last_map endPoint).
  unfold lastPoint, lines. rewrite last_cons.
  simpl nth. fold firstPoint.
  unfold same_coordinates, neqb. simpl andb.
  now rewrite negb_andb.
Qed.

(** The closure rule appends the first vertex or nothing, and it appends
    only with at least three segments. *)
Lemma extract_vertices_cases (line0 : Line T) rest :
  extractVerticesFromLines (line0 :: rest) = open_vertices line0 rest
  \/ extractVerticesFromLines (line0 :: rest)
     = open_vertices line0 rest ++ [startPoint line0].
Proof.
  unfold extractVerticesFromLines, open_vertices.
  destruct (3 <=? List.length (line0 :: rest))%nat; [|now left].
  cbv zeta. destruct (neqb _ _ || neqb _ _); [now right | now left].
Qed.

Lemma extract_vertices_closure (line0 : Line T) rest :
  extractVerticesFromLines (line0 :: rest) = open_vertices line0 rest
  \/ (3 <= List.length (line0 :: rest)
      /\ extractVerticesFromLines (line0 :: rest)
         = open_vertices line0 rest ++ [startPoint line0]).
Proof.
  unfold extractVerticesFromLines, open_vertices.
  destruct (3 <=? List.length (line0 :: rest))%nat eqn:E; [|now left].
  apply Nat.leb_le in E.
  cbv zeta. destruct (neqb _ _ || neqb _ _); [right; now split | now left].
Qed.

(** *** The code against the notions of the specification *)

(** [calculateDistance] computes the euclidean distance of the
    specification, operation by operation. *)
Lemma calculateDistance_euclidean (p q : Point T) :
  calculateDistance p q = euclidean_distance p q.
Proof. reflexivity. Qed.

(** The turns of the loop for the indices from [length before] on, the
    vertices being [before ++ a :: after]: the pairs of [a :: after] along
    the list, closed by the first vertex. *)
Lemma shoelace_loop_pairs (after before : list (Point T)) (a first : Point T)
    (area : T) :
  let vertices := before ++ a :: after in
  at_index vertices 0 = first ->
  fold_left (shoelace_step vertices)
            (seq (List.length before) (S (List.length after))) area
  = fold_left accumulate (combine (a :: after) (after ++ [first])) area.
Proof.
  revert before a area.
  induction after as [|b rest IH]; intros before a area vertices Hfirst.
  - cbn [List.length seq fold_left app combine].
    assert (Hn : List.length vertices = S (List.length before)).
    { unfold vertices. rewrite length_app. simpl. lia. }
    unfold shoelace_step, accumulate. cbn [fst snd].
    rewrite Hn. replace (List.length before + 1) with (S (List.length before)) by lia.
    rewrite Nat.Div0.mod_same, Hfirst.
    unfold at_index at 1 2, vertices. now rewrite nth_middle.
  - cbn [List.length]. rewrite <- cons_seq. cbn [fold_left app combine].
    assert (Hv : vertices = (before ++ [a]) ++ b :: rest).
    { unfold vertices. now rewrite <- app_assoc. }
    assert (Hn : List.length vertices = List.length before + S (S (List.length rest))).
    { unfold vertices. rewrite length_app. reflexivity. }
    assert (Ha : at_index vertices (List.length before) = a).
    { unfold at_index, vertices. apply nth_middle. }
    assert (Hb : at_index vertices (List.length before + 1) = b).
    { unfold at_index. rewrite Hv.
      replace (List.length before + 1) with (List.length (before ++ [a]))
        by (rewrite length_app; reflexivity).
      apply nth_middle. }
    assert (Hstep : shoelace_step vertices area (List.length before)
                    = accumulate area (a, b)).
    { unfold shoelace_step, accumulate. cbn [fst snd].
      rewrite Hn, Nat.mod_small by lia. now rewrite Ha, Hb. }
    rewrite Hstep.
    specialize (IH (before ++ [a]) b (accumulate area (a, b))).
    cbv zeta in IH. rewrite <- Hv in IH.
    replace (List.length (before ++ [a])) with (S (List.length before)) in IH
      by (rewrite length_app; simpl; lia).
    exact (IH Hfirst).
Qed.

(** The loop of [calculatePolygonArea] accumulates [running_sum]. *)
Lemma polygon_area_running_sum points :
  calculatePolygonArea points
  = if List.length points <? 3 then Some zero
    else div (abs (running_sum points)) two.
Proof.
  unfold calculatePolygonArea.
  destruct (List.length points <? 3); [reflexivity|].
  cbv zeta. f_equal. f_equal. unfold running_sum.
  destruct points as [|p rest]; [reflexivity|].
  exact (shoelace_loop_pairs rest [] p p zero eq_refl).
Qed.

(** C10: [isClosedPolygon] holds exactly of the sequences of at least three
    points whose first and last point are at a euclidean distance
    [sqrt((q.x - p.x)^2 + (q.y - p.y)^2)] below 5; on fewer than three
    points it is false. *)
Theorem closed_polygon_iff points (d : Point T) :
  (isClosedPolygon points = true <->
     3 <= List.length points
     /\ ltb (euclidean_distance (hd d points) (last points d)) five = true)
  /\ (List.length points < 3 -> isClosedPolygon points = false).
Proof.
  unfold isClosedPolygon.
  destruct (List.length points <? 3) eqn:Hlen.
  - apply Nat.ltb_lt in Hlen. split; [|reflexivity].
    split; [discriminate | intros [H _]; lia].
  - apply Nat.ltb_ge in Hlen. split; [|lia].
    cbv zeta. rewrite calculateDistance_euclidean. unfold at_index.
    destruct points as [|p ps]; [simpl in Hlen; lia|].
    rewrite at_index_last.
    rewrite !last_cons. simpl nth. simpl hd.
    split; [intros H; split; [exact Hlen | exact H] | intros [_ H]; exact H].
Qed.

End Generic.

(** ** The control-flow properties at work in binary64 *)

Module Binary64Checks.

Import Binary64.
#[local] Set Warnings "-inexact-float".
Local Open Scope float_scope.

(** C1 at the declared lengths 10, 5, 10.05, 4.97: the result is 50,
    whatever the drawing. *)
Lemma rectangle_shortcut_witness :
  ltb (abs (sub 10 10.05)) tenth = true
  /\ ltb (abs (sub 5 4.97)) tenth = true
  /\ scaleAreaToRealWorld 1234%float near_rectangle 100%float = Some 50%float.
Proof.
  split; [reflexivity | split; [reflexivity|]].
  pose (side := fun i => nth i near_rectangle (ln (pt 0 0) (pt 0 0) 0)).
  exact (rectangle_shortcut_returns_product
           1234 100 (side 0%nat) (side 1%nat) (side 2%nat) (side 3%nat)
           eq_refl eq_refl).
Defined.

(** C7 at two segments. *)
Lemma fewer_than_three_lines_witness :
  List.length two_lines < 3
  /\ scaleAreaToRealWorld 50%float two_lines 100%float = Some 0%float.
Proof.
  assert (H : List.length two_lines < 3) by (vm_compute; lia).
  split; [exact H|].
  exact (fewer_than_three_lines_scale_to_zero 50%float 100%float two_lines H).
Defined.

(** C4 as stated fails at two segments: they give three vertices, the
    first and the last apart, and no copy of the first is appended. *)
Lemma closure_by_vertex_count_fails :
  ~ (forall (line0 : Line float) (rest : list (Line float)),
       3 <= List.length (open_vertices line0 rest) ->
       same_coordinates (startPoint line0)
                        (endPoint (last (line0 :: rest) line0)) = false ->
       extractVerticesFromLines (line0 :: rest)
       = open_vertices line0 rest ++ [startPoint line0]).
Proof.
  intros H.
  specialize (H (ln (pt 0 0) (pt 10 0) 10) [ln (pt 10 0) (pt 10 10) 10]).
  assert (E : extractVerticesFromLines two_lines = [pt 0 0; pt 10 0; pt 10 10])
    by reflexivity.
  unfold two_lines in E. rewrite E in H.
  discriminate H; [vm_compute; lia | reflexivity].
Qed.

(** Two results that differ under [===] are different. *)
Lemma different_values (r1 r2 : option float) :
  same_value r1 r1 = true -> same_value r1 r2 = false -> r1 <> r2.
Proof. intros H1 H2 E. rewrite <- E, H1 in H2. discriminate. Qed.

(** C8 as stated fails in binary64: the triangle (0.1, 0.1), (0.1, 0.2),
    (0.5, 0.1) has the area 0.02, its reversal and its rotation by one
    vertex have the area 0.019999999999999997. *)
Lemma reversal_and_rotation_change_area :
  calculatePolygonArea (rev skewed_triangle)
  <> calculatePolygonArea skewed_triangle
  /\ calculatePolygonArea (rotate 1 skewed_triangle)
     <> calculatePolygonArea skewed_triangle.
Proof. split; now apply different_values. Qed.

Example skewed_triangle_areas :
  calculatePolygonArea skewed_triangle = Some 0.02
  /\ calculatePolygonArea (rev skewed_triangle) = Some 0.019999999999999997
  /\ calculatePolygonArea (rotate 1 skewed_triangle) = Some 0.019999999999999997
  /\ calculatePolygonArea (rotate 2 skewed_triangle) = Some 0.02.
Proof. repeat split. Qed.

(** C3 as stated fails in binary64.  On the triangle (0.1, 0.1),
    (0.1, 0.2), (0.5, 0.1) the result 0.02 is not half the absolute value of
    the sum of the differences [x_i * y_(i+1) - x_(i+1) * y_i], which is
    0.019999999999999993; and on the triangle with sides of 1e200 pixels
    the products overflow and the result is NaN, which is not [>= 0]. *)
Lemma polygon_area_is_not_the_sum_of_differences :
  (3 <= List.length skewed_triangle
   /\ calculatePolygonArea skewed_triangle
      <> Some (abs (sum_of_differences skewed_triangle) / 2))
  /\ (3 <= List.length huge_triangle
      /\ exists area,
           calculatePolygonArea huge_triangle = Some area
           /\ (0 <=? area) = false).
Proof.
  split; split; try (cbn; lia).
  - now apply different_values.
  - eexists. split; reflexivity.
Qed.

Example skewed_triangle_sum_of_differences :
  Some (abs (sum_of_differences skewed_triangle) / 2)
  = Some 0.019999999999999993.
Proof. reflexivity. Qed.

Example huge_triangle_area :
  option_map is_nan (calculatePolygonArea huge_triangle) = Some true.
Proof. reflexivity. Qed.

(** C2 as stated fails in binary64.  On the kite declared 10, 5, 10.2 and
    4.97 m with a pixel area of 2500 the result, [(2500 * mean) * mean], is
    32.209599502568963 and not [2500 * mean^2], which is
    32.20959950256897.  On the triangle with sides of 1e-200 pixels every
    segment joins two different points, yet the squares underflow, every
    distance is computed as 0, no ratio is collected and the result is 0. *)
Lemma square_of_the_mean_fails :
  (3 <= List.length not_rectangle
   /\ no_shortcut not_rectangle
   /\ Forall (fun line => has_pixel_length line = true) not_rectangle
   /\ scaleAreaToRealWorld 2500 not_rectangle 100
      <> Some (2500 * (mean_ratio not_rectangle * mean_ratio not_rectangle)))
  /\ (3 <= List.length tiny_triangle
      /\ no_shortcut tiny_triangle
      /\ Forall (fun line =>
                   same_coordinates (startPoint line) (endPoint line) = false)
                tiny_triangle
      /\ collectRatios tiny_triangle [] = Some []
      /\ scaleAreaToRealWorld 1 tiny_triangle 100 = Some 0).
Proof.
  split.
  - split; [cbn; lia|]. split; [right; left; reflexivity|].
    split; [repeat constructor|]. now apply different_values.
  - split; [cbn; lia|]. split; [left; cbn; lia|].
    split; [repeat constructor|]. split; reflexivity.
Qed.

Example not_rectangle_values :
  scaleAreaToRealWorld 2500 not_rectangle 100 = Some 32.209599502568963
  /\ (2500 * (mean_ratio not_rectangle * mean_ratio not_rectangle))
     = 32.20959950256897.
Proof. split; reflexivity. Qed.

(** The scenarios of the specification, evaluated in binary64. *)

Example rectangle_plot_vertices :
  extractVerticesFromLines rectangle_plot
  = [pt 0 0; pt 200 0; pt 200 100; pt 0 100; pt 0 0].
Proof. reflexivity. Qed.

Example rectangle_plot_pixel_area :
  calculatePolygonArea (extractVerticesFromLines rectangle_plot) = Some 20000.
Proof. reflexivity. Qed.

Example rectangle_plot_total_area : totalArea rectangle_plot 100 = Some 200.
Proof. reflexivity. Qed.

Example not_rectangle_takes_general_path :
  scaleAreaToRealWorld 2500 not_rectangle 100
  = scaleByAverageRatio 2500 not_rectangle.
Proof. reflexivity. Qed.

Example one_measured_line_ratio :
  collectRatios one_measured_line [] = Some [tenth]
  /\ scaleAreaToRealWorld 2500 one_measured_line 100
     = Some (mul (mul 2500 tenth) tenth).
Proof. split; reflexivity. Qed.

End Binary64Checks.

(** ** Binary64 arithmetic from its specification *)

Module Binary64Rounding.

Import Binary64Integers.
Local Open Scope Z_scope.

(** *** Rounding never yields NaN, and keeps the sign *)

Lemma iter_pos_invariant {A : Type} (P : A -> Prop) (f : A -> A) :
  (forall a, P a -> P (f a)) -> forall p a, P a -> P (iter_pos f p a).
Proof.
  intros Hf. induction p as [p IH|p IH|]; intros a Ha; cbn [iter_pos]; auto.
Qed.

Lemma shr_1_nonneg (mrs : shr_record) : 0 <= shr_m mrs -> 0 <= shr_m (shr_1 mrs).
Proof.
  destruct mrs as [m r s]. destruct m as [|[p|p|]|[p|p|]]; cbn; lia.
Qed.

Lemma shr_fexp_nonneg (m e : Z) (l : location) :
  0 <= m -> 0 <= shr_m (fst (shr_fexp prec emax m e l)).
Proof.
  intros Hm. unfold shr_fexp, shr.
  assert (H0 : 0 <= shr_m (shr_record_of_loc m l))
    by (destruct l as [|[| |]]; exact Hm).
  destruct (fexp prec emax (Zdigits2 m + e) - e) as [|p|p]; cbn [fst];
    try exact H0.
  now apply (iter_pos_invariant (fun mrs => 0 <= shr_m mrs) shr_1 shr_1_nonneg).
Qed.

Lemma round_nearest_even_nonneg (m : Z) (l : location) :
  0 <= m -> 0 <= round_nearest_even m l.
Proof.
  intros Hm. destruct l as [|[| |]]; cbn [round_nearest_even]; try lia.
  destruct (Z.even m); lia.
Qed.

Lemma binary_round_aux_cases (s : bool) (m e : Z) (l : location) :
  0 <= m ->
  binary_round_aux prec emax s m e l = S754_zero s
  \/ binary_round_aux prec emax s m e l = S754_infinity s
  \/ exists m' e', binary_round_aux prec emax s m e l = S754_finite s m' e'.
Proof.
  intros Hm. unfold binary_round_aux.
  pose proof (shr_fexp_nonneg m e l Hm) as H1.
  destruct (shr_fexp prec emax m e l) as [mrs' e']. cbn [fst] in H1.
  pose proof (shr_fexp_nonneg _ e' loc_Exact
                (round_nearest_even_nonneg _ (loc_of_shr_record mrs') H1)) as H2.
  destruct (shr_fexp prec emax _ e' loc_Exact) as [mrs'' e'']. cbn [fst] in H2.
  destruct (shr_m mrs'') as [|p|p]; [now left | | lia].
  destruct (e'' <=? emax - prec); [right; right; now eexists _, _ | right; now left].
Qed.

(** *** Integers below 2^53 are computed without rounding *)

Lemma fexp_value (e : Z) : fexp prec emax e = Z.max (e - 53) (-1074).
Proof. reflexivity. Qed.

Lemma digits2_pos_size (v : positive) : digits2_pos v = Pos.size v.
Proof. induction v as [v IH|v IH|]; cbn; now rewrite ?IH. Qed.

Lemma digits_bounds (v : positive) : 2 ^ (digits v - 1) <= Zpos v < 2 ^ digits v.
Proof.
  unfold digits. rewrite digits2_pos_size.
  pose proof (Pos.size_gt v) as Hgt. pose proof (Pos.size_le v) as Hle.
  split.
  - assert (H : 2 ^ Zpos (Pos.size v) <= 2 * Zpos v).
    { change (2 * Zpos v) with (Zpos (v~0)).
      rewrite <- Pos2Z.inj_pow. now apply Pos2Z.pos_le_pos. }
    replace (Zpos (Pos.size v)) with (Z.succ (Zpos (Pos.size v) - 1)) in H by lia.
    rewrite Z.pow_succ_r in H by lia. lia.
  - change 2 with (Zpos 2). rewrite <- Pos2Z.inj_pow. now apply Pos2Z.pos_lt_pos.
Qed.

Lemma digits_unique (v : positive) (n : Z) :
  2 ^ (n - 1) <= Zpos v < 2 ^ n -> digits v = n.
Proof.
  intros [Hlo Hhi]. pose proof (digits_bounds v) as [Dlo Dhi].
  assert (Hd : 0 < digits v) by (unfold digits; lia).
  assert (Hn : 0 < n).
  { destruct (Z.ltb_spec 0 n) as [H|H]; [exact H|].
    rewrite Z.pow_neg_r in Hlo by lia.
    destruct (Z.eq_dec n 0) as [->|Hne].
    - cbn in Hhi. lia.
    - rewrite Z.pow_neg_r in Hhi by lia. lia. }
  destruct (Z.lt_trichotomy (digits v) n) as [H | [H | H]]; [|exact H|].
  - assert (2 ^ digits v <= 2 ^ (n - 1)) by (apply Z.pow_le_mono_r; lia). lia.
  - assert (2 ^ n <= 2 ^ (digits v - 1)) by (apply Z.pow_le_mono_r; lia). lia.
Qed.

Lemma iter_xO_value (v p : positive) : Zpos (Pos.iter xO v p) = Zpos v * 2 ^ Zpos p.
Proof.
  induction p as [|p IH] using Pos.peano_ind.
  - cbn. lia.
  - rewrite Pos.iter_succ, Pos2Z.inj_succ, Z.pow_succ_r by lia.
    rewrite Pos2Z.inj_xO, IH. lia.
Qed.

Lemma lift_value (v : positive) (k : Z) : 0 <= k -> Zpos (lift v k) = Zpos v * 2 ^ k.
Proof.
  intros Hk. destruct k as [|p|p]; [cbn; lia | apply iter_xO_value | lia].
Qed.

Lemma lift_unique (M v : positive) (k : Z) :
  0 <= k -> Zpos M = Zpos v * 2 ^ k -> M = lift v k.
Proof. intros Hk E. rewrite <- (lift_value v k Hk) in E. now inversion E. Qed.

Lemma digits_lift (v : positive) (k : Z) : 0 <= k -> digits (lift v k) = digits v + k.
Proof.
  intros Hk. apply digits_unique. rewrite lift_value by exact Hk.
  pose proof (digits_bounds v) as [Dlo Dhi].
  assert (Hd : 0 < digits v) by (unfold digits; lia).
  replace (digits v + k - 1) with ((digits v - 1) + k) by lia.
  rewrite !Z.pow_add_r by lia.
  assert (0 < 2 ^ k) by (apply Z.pow_pos_nonneg; lia).
  split; nia.
Qed.

Lemma shr_exact (p w : positive) :
  iter_pos shr_1 p (Build_shr_record (Zpos (Pos.iter xO w p)) false false)
  = Build_shr_record (Zpos w) false false.
Proof.
  revert w. induction p as [p IH|p IH|]; intros w; cbn [iter_pos Pos.iter].
  - cbn [shr_1 orb]. now rewrite !IH.
  - now rewrite !IH.
  - reflexivity.
Qed.

Lemma binary_round_aux_exact (s : bool) (M v : positive) (E k : Z) :
  digits v <= 53 -> 0 <= k -> Zpos M = Zpos v * 2 ^ k ->
  53 - digits v <= k ->
  -1074 <= E + k + digits v - 53 <= 971 ->
  binary_round_aux prec emax s (Zpos M) E loc_Exact
  = S754_finite s (lift v (53 - digits v)) (E + k + digits v - 53).
Proof.
  intros Hd Hk HM Hn Ht.
  set (d := digits v) in *. set (t := E + k + d - 53) in *.
  assert (Hd0 : 0 < d) by (unfold d, digits; lia).
  assert (EM : M = lift v k) by now apply lift_unique.
  assert (DM : Zpos (digits2_pos M) = d + k).
  { change (digits M = d + k). rewrite EM. now apply digits_lift. }
  set (w := lift v (53 - d)).
  assert (Dw : Zpos (digits2_pos w) = 53).
  { change (digits w = 53). unfold w. rewrite digits_lift by lia. fold d. lia. }
  assert (E1 : shr_fexp prec emax (Zpos M) E loc_Exact
               = (Build_shr_record (Zpos w) false false, t)).
  { unfold shr_fexp. cbn [Zdigits2 shr_record_of_loc]. rewrite DM, fexp_value.
    replace (Z.max (d + k + E - 53) (-1074) - E) with (k + d - 53) by (unfold t in Ht; lia).
    destruct (k + d - 53) as [|p|p] eqn:En; [| |lia]; cbn [shr].
    - f_equal; [|unfold t; lia]. f_equal. f_equal.
      rewrite EM. unfold w. f_equal. lia.
    - f_equal; [|unfold t; lia].
      assert (EMp : M = Pos.iter xO w p).
      { change (Pos.iter xO w p) with (lift w (Zpos p)).
        apply lift_unique; [lia|]. unfold w. rewrite lift_value by lia.
        rewrite HM, <- Z.mul_assoc, <- Z.pow_add_r by lia. fold d. do 2 f_equal. lia. }
      rewrite EMp. apply shr_exact. }
  unfold binary_round_aux. rewrite E1.
  cbn [shr_m loc_of_shr_record round_nearest_even].
  assert (E2 : shr_fexp prec emax (Zpos w) t loc_Exact
               = (Build_shr_record (Zpos w) false false, t)).
  { unfold shr_fexp. cbn [Zdigits2 shr_record_of_loc]. rewrite Dw, fexp_value.
    replace (Z.max (53 + t - 53) (-1074) - t) with 0 by lia. reflexivity. }
  rewrite E2. cbn [shr_m].
  assert (L : (t <=? emax - prec) = true) by (apply Z.leb_le; change (emax - prec) with 971; lia).
  now rewrite L.
Qed.

Lemma digits_le_53 (v : positive) : Zpos v < 2 ^ 53 -> digits v <= 53.
Proof.
  intros Hv. pose proof (digits_bounds v) as [Dlo _].
  destruct (Z.leb_spec (digits v) 53) as [H|H]; [exact H|].
  assert (2 ^ 53 <= 2 ^ (digits v - 1)) by (apply Z.pow_le_mono_r; lia). lia.
Qed.

(** Rounding a mantissa [v * 2^k] at the exponent [-k]. *)
Lemma binary_round_exact (s : bool) (M v : positive) (k : Z) :
  Zpos v < 2 ^ 53 -> 0 <= k <= 1074 -> Zpos M = Zpos v * 2 ^ k ->
  binary_round prec emax s M (- k) = canon s v.
Proof.
  intros Hv Hk HM. pose proof (digits_le_53 v Hv) as Hd.
  assert (Hd0 : 0 < digits v) by (unfold digits; lia).
  assert (EM : M = lift v k) by (apply lift_unique; lia).
  assert (DM : Zpos (digits2_pos M) = digits v + k).
  { change (digits M = digits v + k). rewrite EM. apply digits_lift; lia. }
  unfold binary_round. rewrite DM, fexp_value.
  replace (Z.max (digits v + k + - k - 53) (-1074)) with (digits v - 53) by lia.
  unfold shl_align, canon.
  destruct (digits v - 53 - - k) as [|p|p] eqn:En.
  - rewrite (binary_round_aux_exact s M v (- k) k) by lia.
    f_equal. lia.
  - rewrite (binary_round_aux_exact s M v (- k) k) by lia.
    f_equal. lia.
  - assert (Hp : Zpos (Pos.iter xO M p) = Zpos v * 2 ^ (53 - digits v)).
    { rewrite iter_xO_value, HM, <- Z.mul_assoc, <- Z.pow_add_r by lia.
      do 2 f_equal. lia. }
    rewrite (binary_round_aux_exact s _ v (digits v - 53) (53 - digits v)) by lia.
    f_equal. lia.
Qed.

Lemma binary_normalize_exact (c : Z) (k : Z) :
  Z.abs c < 2 ^ 53 -> 0 <= k <= 1074 ->
  binary_normalize prec emax (c * 2 ^ k) (- k) false = SFint c.
Proof.
  intros Hc Hk. assert (H2 : 0 < 2 ^ k) by (apply Z.pow_pos_nonneg; lia).
  destruct c as [|v|v]; [reflexivity | |].
  - destruct (Zpos v * 2 ^ k) as [|M|M] eqn:EM; try lia.
    cbn [binary_normalize SFint]. apply binary_round_exact; lia.
  - destruct (Zneg v * 2 ^ k) as [|M|M] eqn:EM; try lia.
    cbn [binary_normalize SFint]. apply binary_round_exact; lia.
Qed.

Lemma binary_normalize_at (c e : Z) :
  Z.abs c < 2 ^ 53 -> -1074 <= e <= 0 ->
  binary_normalize prec emax (c * 2 ^ (- e)) e false = SFint c.
Proof.
  intros Hc He. rewrite <- (Z.opp_involutive e) at 2.
  apply binary_normalize_exact; lia.
Qed.


Lemma shl_align_value (m : positive) (e e' : Z) :
  e' <= e -> Zpos (fst (shl_align m e e')) = Zpos m * 2 ^ (e - e').
Proof.
  intros H. unfold shl_align.
  destruct (e' - e) as [|p|p] eqn:E; cbn [fst].
  - replace (e - e') with 0 by lia. lia.
  - lia.
  - rewrite iter_xO_value. do 2 f_equal. lia.
Qed.

Lemma SFint_finite (c : Z) :
  c <> 0 -> Z.abs c < 2 ^ 53 ->
  exists m e,
    SFint c = S754_finite (sign_of c) m e
    /\ -52 <= e <= 0
    /\ Zpos m * 2 ^ (e + 52) = Z.abs c * 2 ^ 52.
Proof.
  intros Hc Hlt.
  assert (H : forall s v, Zpos v < 2 ^ 53 ->
            exists m e, canon s v = S754_finite s m e /\ -52 <= e <= 0
                        /\ Zpos m * 2 ^ (e + 52) = Zpos v * 2 ^ 52).
  { intros s v Hv. pose proof (digits_le_53 v Hv) as Hd.
    assert (Hd0 : 0 < digits v) by (unfold digits; lia).
    eexists _, _. split; [reflexivity|]. split; [lia|].
    rewrite lift_value by lia.
    rewrite <- Z.mul_assoc, <- Z.pow_add_r by lia. do 2 f_equal. lia. }
  destruct c as [|v|v]; [contradiction | |]; cbn [SFint sign_of Z.abs];
    apply H; exact Hlt.
Qed.

Lemma cond_Zopp_sign (c : Z) : cond_Zopp (sign_of c) (Z.abs c) = c.
Proof. destruct c; reflexivity. Qed.

Lemma aligned (c : Z) (m : positive) (e ez : Z) :
  -52 <= e <= 0 -> -52 <= ez <= e ->
  Zpos m * 2 ^ (e + 52) = Z.abs c * 2 ^ 52 ->
  cond_Zopp (sign_of c) (Zpos (fst (shl_align m e ez))) = c * 2 ^ (- ez).
Proof.
  intros He Hez Hm. rewrite shl_align_value by lia.
  assert (E : Zpos m * 2 ^ (e - ez) = Z.abs c * 2 ^ (- ez)).
  { assert (H52 : 0 < 2 ^ (ez + 52)) by (apply Z.pow_pos_nonneg; lia).
    apply (Z.mul_reg_r _ _ (2 ^ (ez + 52))); [lia|].
    rewrite <- !Z.mul_assoc, <- !Z.pow_add_r by lia.
    replace (e - ez + (ez + 52)) with (e + 52) by lia.
    replace (- ez + (ez + 52)) with 52 by lia. exact Hm. }
  rewrite E. destruct c; cbn [sign_of cond_Zopp Z.abs]; lia.
Qed.

Lemma SFadd_exact (a b : Z) :
  Z.abs a < 2 ^ 53 -> Z.abs b < 2 ^ 53 -> Z.abs (a + b) < 2 ^ 53 ->
  SFadd prec emax (SFint a) (SFint b) = SFint (a + b).
Proof.
  intros Ha Hb Hab.
  destruct (Z.eq_dec a 0) as [->|Na].
  { destruct b; reflexivity. }
  destruct (Z.eq_dec b 0) as [->|Nb].
  { rewrite Z.add_0_r. destruct a; reflexivity. }
  destruct (SFint_finite a Na Ha) as [ma [ea [Ea [Ra Va]]]].
  destruct (SFint_finite b Nb Hb) as [mb [eb [Eb [Rb Vb]]]].
  rewrite Ea, Eb. cbn [SFadd].
  rewrite (aligned a), (aligned b); try assumption; try lia.
  rewrite <- Z.mul_add_distr_r.
  apply binary_normalize_at; lia.
Qed.

Lemma SFsub_exact (a b : Z) :
  Z.abs a < 2 ^ 53 -> Z.abs b < 2 ^ 53 -> Z.abs (a - b) < 2 ^ 53 ->
  SFsub prec emax (SFint a) (SFint b) = SFint (a - b).
Proof.
  intros Ha Hb Hab.
  destruct (Z.eq_dec b 0) as [->|Nb].
  { rewrite Z.sub_0_r. destruct a; reflexivity. }
  destruct (Z.eq_dec a 0) as [->|Na].
  { destruct b; reflexivity. }
  destruct (SFint_finite a Na Ha) as [ma [ea [Ea [Ra Va]]]].
  destruct (SFint_finite b Nb Hb) as [mb [eb [Eb [Rb Vb]]]].
  rewrite Ea, Eb. cbn [SFsub].
  rewrite (aligned a), (aligned b); try assumption; try lia.
  rewrite <- Z.mul_sub_distr_r.
  apply binary_normalize_at; lia.
Qed.

Lemma digits_mul (u v : positive) : digits u + digits v - 1 <= digits (u * v).
Proof.
  pose proof (digits_bounds u) as [Ulo _]. pose proof (digits_bounds v) as [Vlo _].
  pose proof (digits_bounds (u * v)) as [_ Phi].
  assert (Hu : 0 < digits u) by (unfold digits; lia).
  assert (Hv : 0 < digits v) by (unfold digits; lia).
  assert (Hp : 0 < digits (u * v)) by (unfold digits; lia).
  destruct (Z.leb_spec (digits u + digits v - 1) (digits (u * v))) as [H|H]; [exact H|].
  assert (H1 : 2 ^ digits (u * v) <= 2 ^ (digits u - 1 + (digits v - 1)))
    by (apply Z.pow_le_mono_r; lia).
  rewrite Z.pow_add_r in H1 by lia.
  rewrite Pos2Z.inj_mul in Phi.
  assert (0 < 2 ^ (digits u - 1)) by (apply Z.pow_pos_nonneg; lia).
  assert (0 < 2 ^ (digits v - 1)) by (apply Z.pow_pos_nonneg; lia).
  nia.
Qed.

Lemma canon_mul (s1 s2 : bool) (u v : positive) :
  Zpos u < 2 ^ 53 -> Zpos v < 2 ^ 53 -> Zpos (u * v) < 2 ^ 53 ->
  SFmul prec emax (canon s1 u) (canon s2 v) = canon (xorb s1 s2) (u * v).
Proof.
  intros Hu Hv Huv. unfold canon at 1 2. cbn [SFmul].
  pose proof (digits_le_53 u Hu) as Du. pose proof (digits_le_53 v Hv) as Dv.
  pose proof (digits_le_53 _ Huv) as Duv. pose proof (digits_mul u v) as Dm.
  assert (Hu0 : 0 < digits u) by (unfold digits; lia).
  assert (Hv0 : 0 < digits v) by (unfold digits; lia).
  rewrite (binary_round_aux_exact _ _ (u * v) _ (53 - digits u + (53 - digits v))).
  - unfold canon. f_equal. lia.
  - exact Duv.
  - lia.
  - rewrite Pos2Z.inj_mul, !lift_value by lia.
    rewrite Z.pow_add_r by lia. rewrite Pos2Z.inj_mul. ring.
  - lia.
  - lia.
Qed.

Lemma SFmul_exact (a b : Z) :
  Z.abs a < 2 ^ 53 -> Z.abs b < 2 ^ 53 -> Z.abs (a * b) < 2 ^ 53 ->
  SFint_or_negative_zero (a * b) (SFmul prec emax (SFint a) (SFint b)).
Proof.
  intros Ha Hb Hab.
  destruct a as [|u|u], b as [|v|v]; cbn [SFint Z.mul];
    try (left; reflexivity); try (right; split; reflexivity);
    left; rewrite canon_mul; try reflexivity; cbn [Z.abs Z.mul] in *; lia.
Qed.

Lemma SFadd_product (c p : Z) (f : spec_float) :
  SFint_or_negative_zero p f ->
  Z.abs c < 2 ^ 53 -> Z.abs p < 2 ^ 53 -> Z.abs (c + p) < 2 ^ 53 ->
  SFadd prec emax (SFint c) f = SFint (c + p).
Proof.
  intros [-> | [-> ->]] Hc Hp Hcp; [now apply SFadd_exact|].
  rewrite Z.add_0_r. destruct c; reflexivity.
Qed.

Lemma SFsub_product (c p : Z) (f : spec_float) :
  SFint_or_negative_zero p f ->
  Z.abs c < 2 ^ 53 -> Z.abs p < 2 ^ 53 -> Z.abs (c - p) < 2 ^ 53 ->
  SFsub prec emax (SFint c) f = SFint (c - p).
Proof.
  intros [-> | [-> ->]] Hc Hp Hcp; [now apply SFsub_exact|].
  rewrite Z.sub_0_r. destruct c; reflexivity.
Qed.

Lemma SFabs_exact (c : Z) : SFabs (SFint c) = SFint (Z.abs c).
Proof. destruct c; reflexivity. Qed.

Lemma SFopp_exact (c : Z) : c <> 0 -> SFopp (SFint c) = SFint (- c).
Proof. destruct c; [contradiction | reflexivity | reflexivity]. Qed.

End Binary64Rounding.

(** ** The shoelace sum over the integers: rotation and reversal *)

Module IntegerProps.

Import Integer.
Local Open Scope Z_scope.

Implicit Types (points : list (Z * Z)) (p q : Z * Z).

Lemma cross_swap p q : cross q p = - cross p q.
Proof. unfold cross. ring. Qed.

Lemma pair_sum_next p q points :
  pair_sum (p :: q :: points) = cross p q + pair_sum (q :: points).
Proof. reflexivity. Qed.

(** The sum over the closing pairs is the sum along the closed list. *)
Lemma closing_pairs_sum rest p first :
  fold_right Z.add 0
    (map (fun pair => cross (fst pair) (snd pair))
         (combine (p :: rest) (rest ++ [first])))
  = pair_sum ((p :: rest) ++ [first]).
Proof.
  revert p. induction rest as [|q rest IH]; intros p.
  - cbn. ring.
  - change (combine (p :: q :: rest) ((q :: rest) ++ [first]))
      with ((p, q) :: combine (q :: rest) (rest ++ [first])).
    cbn [map fold_right fst snd]. rewrite IH. reflexivity.
Qed.

Lemma shoelace_sum_cyclic points : shoelace_sum points = cyclic_sum points.
Proof.
  destruct points as [|p rest]; [reflexivity|].
  exact (closing_pairs_sum rest p p).
Qed.

(** Appending one vertex adds the summand of the pair it closes. *)
Lemma pair_sum_last points p q :
  pair_sum ((points ++ [p]) ++ [q]) = pair_sum (points ++ [p]) + cross p q.
Proof.
  induction points as [|a [|b rest] IH].
  - cbn. ring.
  - cbn. ring.
  - change (pair_sum (((a :: b :: rest) ++ [p]) ++ [q]))
      with (cross a b + pair_sum (((b :: rest) ++ [p]) ++ [q])).
    change (pair_sum ((a :: b :: rest) ++ [p]))
      with (cross a b + pair_sum ((b :: rest) ++ [p])).
    rewrite IH. ring.
Qed.

Lemma pair_sum_join points1 p q points2 :
  pair_sum ((points1 ++ [p]) ++ q :: points2)
  = pair_sum (points1 ++ [p]) + cross p q + pair_sum (q :: points2).
Proof.
  revert points1 p q.
  induction points2 as [|r rest IH]; intros points1 p q.
  - rewrite pair_sum_last. cbn. ring.
  - replace ((points1 ++ [p]) ++ q :: r :: rest)
      with (((points1 ++ [p]) ++ [q]) ++ r :: rest)
      by (rewrite <- !app_assoc; reflexivity).
    rewrite IH, pair_sum_last, pair_sum_next. ring.
Qed.

Lemma pair_sum_two_parts points1 points2 (d : Z * Z) :
  points1 <> [] -> points2 <> [] ->
  pair_sum (points1 ++ points2)
  = pair_sum points1 + cross (last points1 d) (hd d points2) + pair_sum points2.
Proof.
  intros H1 H2.
  destruct (exists_last H1) as [front [p ->]].
  destruct points2 as [|q rest]; [contradiction|].
  rewrite pair_sum_join, last_last. reflexivity.
Qed.

Lemma last_of_two_parts {A : Type} (l1 l2 : list A) (d : A) :
  l2 <> [] -> last (l1 ++ l2) d = last l2 d.
Proof.
  intros H2. destruct (exists_last H2) as [front [a ->]].
  now rewrite app_assoc, !last_last.
Qed.

(** The cyclic sum: the pairs along the list and the closing pair. *)
Lemma cyclic_sum_closing points (d : Z * Z) :
  points <> [] ->
  cyclic_sum points = pair_sum points + cross (last points d) (hd d points).
Proof.
  intros Hne. destruct points as [|p rest]; [contradiction|].
  unfold cyclic_sum.
  rewrite (pair_sum_two_parts (p :: rest) [p] d) by discriminate.
  cbn. ring.
Qed.

Lemma cyclic_sum_rotated points1 points2 :
  cyclic_sum (points1 ++ points2) = cyclic_sum (points2 ++ points1).
Proof.
  destruct points1 as [|p rest1]; [now rewrite app_nil_r|].
  destruct points2 as [|q rest2]; [now rewrite app_nil_r|].
  set (d := p).
  rewrite !(cyclic_sum_closing _ d) by discriminate.
  rewrite !(pair_sum_two_parts _ _ d) by discriminate.
  rewrite !last_of_two_parts by discriminate.
  cbn [hd app]. ring.
Qed.

Lemma pair_sum_reversed points : pair_sum (rev points) = - pair_sum points.
Proof.
  induction points as [|p [|q rest] IH].
  - cbn. ring.
  - cbn. ring.
  - change (rev (p :: q :: rest)) with (rev (q :: rest) ++ [p]).
    rewrite (pair_sum_two_parts _ _ p).
    + rewrite IH, pair_sum_next.
      change (rev (q :: rest)) with (rev rest ++ [q]).
      rewrite last_last. cbn [hd pair_sum].
      rewrite (cross_swap p q). ring.
    + cbn. intros E. now apply app_eq_nil in E as [_ E].
    + discriminate.
Qed.

Lemma cyclic_sum_reversed points : cyclic_sum (rev points) = - cyclic_sum points.
Proof.
  destruct points as [|p rest]; [cbn; ring|].
  assert (Hrev : rev (p :: rest) <> []).
  { cbn. intros E. now apply app_eq_nil in E as [_ E]. }
  rewrite (cyclic_sum_closing _ p Hrev), (cyclic_sum_closing (p :: rest) p)
    by discriminate.
  rewrite pair_sum_reversed.
  assert (Hlast : last (rev (p :: rest)) p = p).
  { cbn [rev]. apply last_last. }
  assert (Hhd : hd p (rev (p :: rest)) = last (p :: rest) p).
  { destruct (exists_last (l := p :: rest)) as [front [e E]]; [discriminate|].
    rewrite E, rev_app_distr, last_last. reflexivity. }
  rewrite Hlast, Hhd. cbn [hd].
  rewrite (cross_swap (last (p :: rest) p) p). ring.
Qed.

(** Closing the polygon with a copy of its first vertex keeps the sum. *)
Lemma shoelace_sum_closed p rest :
  shoelace_sum ((p :: rest) ++ [p]) = shoelace_sum (p :: rest).
Proof.
  rewrite !shoelace_sum_cyclic. unfold cyclic_sum. cbn [app].
  change (p :: (rest ++ [p]) ++ [p]) with (((p :: rest) ++ [p]) ++ [p]).
  change (p :: rest ++ [p]) with ((p :: rest) ++ [p]).
  rewrite pair_sum_last. unfold cross. ring.
Qed.

Lemma pair_sum_moved (dx dy : Z) points (d : Z * Z) :
  pair_sum (map (moved dx dy) points)
  = pair_sum points
    + dx * (snd (last points d) - snd (hd d points))
    - dy * (fst (last points d) - fst (hd d points)).
Proof.
  induction points as [|p [|q rest] IH].
  - cbn. ring.
  - cbn. ring.
  - change (map (moved dx dy) (p :: q :: rest))
      with (moved dx dy p :: moved dx dy q :: map (moved dx dy) rest).
    rewrite pair_sum_next.
    change (moved dx dy q :: map (moved dx dy) rest)
      with (map (moved dx dy) (q :: rest)).
    rewrite IH, pair_sum_next.
    change (last (p :: q :: rest) d) with (last (q :: rest) d).
    cbn [hd]. unfold cross, moved. cbn [fst snd]. ring.
Qed.

(** Moving the polygon keeps the sum. *)
Lemma shoelace_sum_moved (dx dy : Z) points :
  shoelace_sum (map (moved dx dy) points) = shoelace_sum points.
Proof.
  rewrite !shoelace_sum_cyclic.
  destruct points as [|p rest]; [reflexivity|].
  unfold cyclic_sum. cbn [map].
  change (moved dx dy p :: map (moved dx dy) rest)
    with (map (moved dx dy) (p :: rest)).
  change [moved dx dy p] with (map (moved dx dy) [p]).
  rewrite <- map_app, (pair_sum_moved dx dy _ p), last_last.
  cbn [app hd]. ring.
Qed.

Lemma shoelace_sum_rectangle (a b w h : Z) :
  shoelace_sum (rectangle_corners a b w h) = 2 * (w * h).
Proof.
  unfold shoelace_sum, rectangle_corners, cross.
  cbn [closing_pairs combine app map fold_right fst snd]. ring.
Qed.

(** Reversal negates the shoelace sum and rotation keeps it. *)
Lemma shoelace_sum_reversed points : shoelace_sum (rev points) = - shoelace_sum points.
Proof. rewrite !shoelace_sum_cyclic. apply cyclic_sum_reversed. Qed.

Lemma shoelace_sum_rotated (k : nat) points :
  shoelace_sum (skipn k points ++ firstn k points) = shoelace_sum points.
Proof.
  rewrite !shoelace_sum_cyclic, cyclic_sum_rotated. now rewrite firstn_skipn.
Qed.

Lemma no_rounding_reversed (bound : Z) points :
  no_rounding bound points -> no_rounding bound (rev points).
Proof.
  intros [Hin Hlen]. split; [|now rewrite length_rev].
  intros p Hp. apply Hin. now apply in_rev.
Qed.

Lemma no_rounding_rotated (bound : Z) (k : nat) points :
  no_rounding bound points ->
  no_rounding bound (skipn k points ++ firstn k points).
Proof.
  intros [Hin Hlen]. split.
  - intros p Hp. apply Hin. rewrite <- (firstn_skipn k points).
    apply in_app_or in Hp. apply in_or_app. tauto.
  - rewrite length_app, Nat.add_comm, <- length_app. now rewrite firstn_skipn.
Qed.

End IntegerProps.

(** ** The formulas in binary64 *)

Module Binary64Props.

Import Binary64 Binary64Integers Binary64Rounding.
#[local] Set Warnings "-inexact-float".

Implicit Types (vertices : list (Point float)) (lines : list (Line float)).

(** *** Numbers that are not negative *)

Lemma not_negative_spec (a : float) : SFnot_negative (Prim2SF a) -> not_negative a.
Proof.
  unfold not_negative, is_nan. rewrite eqb_spec, leb_spec.
  change (Prim2SF 0) with (S754_zero false).
  destruct (Prim2SF a) as [s|s| |s m e]; cbn [SFnot_negative].
  - intros _. right. reflexivity.
  - intros ->. right. reflexivity.
  - intros _. left. reflexivity.
  - intros ->. right. reflexivity.
Qed.

Lemma SFdiv_not_negative (f : spec_float) (mg : positive) (eg : Z) :
  SFnot_negative f ->
  SFnot_negative (SFdiv prec emax f (S754_finite false mg eg)).
Proof.
  destruct f as [sf|sf| |sf mf ef];
    cbn [SFnot_negative SFdiv]; intros Hf; subst; try exact I; try reflexivity.
  unfold SFdiv_core_binary.
  set (m' := match (_ - _ - _)%Z with Z0 => _ | Zpos _ => _ | Zneg _ => _ end).
  assert (Hm : (0 <= m')%Z).
  { unfold m'. destruct (_ - _ - _)%Z; [easy | | easy].
    rewrite Z.shiftl_mul_pow2 by easy.
    apply Z.mul_nonneg_nonneg; [easy|]. now apply Z.pow_nonneg. }
  pose proof (Z.div_pos m' (Zpos mg) Hm eq_refl) as Hq.
  unfold Z.div in Hq. destruct (Z.div_eucl m' (Zpos mg)) as [q r].
  destruct (binary_round_aux_cases (xorb false false) q
              (Z.min (fexp prec emax (Zdigits2 (Zpos mf) + ef - (Zdigits2 (Zpos mg) + eg)))
                     (ef - eg))%Z
              (new_location (Zpos mg) r) Hq)
    as [E | [E | [m1 [e1 E]]]]; rewrite E; cbn; auto.
Qed.

(** Half an absolute value is never below zero. *)
Lemma half_abs_not_negative (a : float) : not_negative (PrimFloat.abs a / 2).
Proof.
  apply not_negative_spec. rewrite div_spec, abs_spec.
  change (Prim2SF 2) with (S754_finite false 4503599627370496 (-51)).
  apply SFdiv_not_negative. now destruct (Prim2SF a).
Qed.

(** *** The euclidean distance of two finite points *)

Lemma binary_round_aux_positive (m e : Z) (l : location) :
  (0 <= m)%Z -> SFpositive_or_zero (binary_round_aux prec emax false m e l).
Proof.
  intros Hm.
  destruct (binary_round_aux_cases false m e l Hm) as [E | [E | [m1 [e1 E]]]];
    now rewrite E.
Qed.

Lemma binary_normalize_no_nan (m e : Z) :
  binary_normalize prec emax m e false <> S754_nan.
Proof.
  destruct m as [|p|p]; cbn [binary_normalize]; [discriminate | |];
    unfold binary_round;
    destruct (shl_align _ _ _) as [mz ez];
    match goal with
    | |- binary_round_aux _ _ ?s (Zpos mz) ez _ <> _ =>
        destruct (binary_round_aux_cases s (Zpos mz) ez loc_Exact)
          as [E | [E | [m1 [e1 E]]]]; [easy | | |]; now rewrite E
    end.
Qed.

(** The square of a difference of finite numbers. *)
Lemma square_of_difference (a b : float) :
  finite a -> finite b -> SFpositive_or_zero (Prim2SF (square (a - b)%float)).
Proof.
  unfold finite, square. cbn [mul number]. rewrite mul_spec, sub_spec.
  intros Ha Hb.
  assert (Hd : SF64sub (Prim2SF a) (Prim2SF b) <> S754_nan).
  { destruct (Prim2SF a) as [sa|sa| |sa ma ea], (Prim2SF b) as [sb|sb| |sb mb eb];
      try contradiction; cbn [SF64sub SFsub]; try discriminate.
    - destruct sa, sb; discriminate.
    - apply binary_normalize_no_nan. }
  destruct (SF64sub (Prim2SF a) (Prim2SF b)) as [s|s| |s m e];
    [| |contradiction|]; cbn [SF64mul SFmul SFpositive_or_zero];
    try now destruct s.
  replace (xorb s s) with false by now destruct s.
  now apply binary_round_aux_positive.
Qed.

Lemma SFadd_positive (f g : spec_float) :
  SFpositive_or_zero f -> SFpositive_or_zero g ->
  SFpositive_or_zero (SFadd prec emax f g).
Proof.
  destruct f as [sf|sf| |sf mf ef], g as [sg|sg| |sg mg eg];
    cbn [SFpositive_or_zero]; intros Hf Hg; subst; try contradiction;
    try reflexivity.
  cbn [SFadd cond_Zopp].
  set (u := fst (shl_align mf ef (Z.min ef eg))).
  set (v := fst (shl_align mg eg (Z.min ef eg))).
  change (Zpos u + Zpos v)%Z with (Zpos (u + v)).
  generalize (u + v)%positive. clear u v. intros w. cbn [binary_normalize].
  unfold binary_round. destruct (shl_align w _ _) as [mz ez].
  now apply binary_round_aux_positive.
Qed.

Lemma SFsqrt_positive (f : spec_float) :
  SFpositive_or_zero f -> SFpositive_or_zero (SFsqrt prec emax f).
Proof.
  destruct f as [s|s| |s m e]; cbn [SFpositive_or_zero]; intros Hf; subst;
    try contradiction; try reflexivity.
  cbn [SFsqrt]. unfold SFsqrt_core_binary.
  set (m' := match (_ - _)%Z with Z0 => _ | Zpos _ => _ | Zneg _ => _ end).
  assert (Hm : (0 <= m')%Z).
  { unfold m'. destruct (_ - _)%Z; [easy | | easy].
    rewrite Z.shiftl_mul_pow2 by easy.
    apply Z.mul_nonneg_nonneg; [easy|]. now apply Z.pow_nonneg. }
  pose proof (Z.sqrtrem_spec m' Hm) as Hq.
  destruct (Z.sqrtrem m') as [q r].
  apply binary_round_aux_positive. nia.
Qed.

(** The distance of two finite points is a zero, positive or infinite: it
    is above 0 exactly when it is not 0. *)
Lemma distance_above_zero (line : Line float) :
  finite_ends line ->
  (0 <? euclidean_distance (startPoint line) (endPoint line))%float
  = negb (euclidean_distance (startPoint line) (endPoint line) =? 0)%float.
Proof.
  intros [[Hsx Hsy] [Hex Hey]].
  assert (Hd : SFpositive_or_zero
                 (Prim2SF (euclidean_distance (startPoint line) (endPoint line)))).
  { unfold euclidean_distance. cbn [sqrt add sub number].
    rewrite sqrt_spec, add_spec.
    apply SFsqrt_positive, SFadd_positive; now apply square_of_difference. }
  rewrite ltb_spec, eqb_spec. change (Prim2SF 0) with (S754_zero false).
  destruct (Prim2SF _) as [s|s| |s m e]; cbn [SFpositive_or_zero] in Hd;
    try contradiction; subst; reflexivity.
Qed.

(** *** Integers in binary64 *)

Lemma binary_normalize_integer (c : Z) :
  (Z.abs c < 2 ^ 53)%Z -> binary_normalize prec emax c 0 false = SFint c.
Proof.
  intros Hc. pose proof (binary_normalize_at c 0 Hc) as H.
  cbn [Z.opp Z.pow] in H. rewrite Z.mul_1_r in H. apply H. lia.
Qed.

Lemma integer_spec (z : Z) :
  (Z.abs z < 2 ^ 53)%Z -> Prim2SF (integer z) = SFint z.
Proof.
  intros Hz. unfold integer.
  assert (Hof : forall n : Z, (0 <= n < 2 ^ 53)%Z ->
                Prim2SF (of_uint63 (Uint63.of_Z n)) = SFint n).
  { intros n Hn. rewrite of_uint63_spec.
    change (Uint63Axioms.to_Z (Uint63.of_Z n))
      with (Uint63.to_Z (Uint63.of_Z n)).
    rewrite Uint63.of_Z_spec, Z.mod_small.
    - apply binary_normalize_integer. lia.
    - change Uint63.wB with (2 ^ 63)%Z. lia. }
  destruct (Z.ltb_spec z 0) as [Hneg | Hpos].
  - rewrite opp_spec, Hof by lia. rewrite SFopp_exact by lia.
    now rewrite Z.opp_involutive.
  - apply Hof. lia.
Qed.

Lemma add_integer (a p : Z) (u v : float) :
  Prim2SF u = SFint a -> SFint_or_negative_zero p (Prim2SF v) ->
  (Z.abs a < 2 ^ 53)%Z -> (Z.abs p < 2 ^ 53)%Z -> (Z.abs (a + p) < 2 ^ 53)%Z ->
  Prim2SF (u + v) = SFint (a + p).
Proof.
  intros Hu Hv Ha Hp Hap. rewrite add_spec, Hu. now apply SFadd_product.
Qed.

Lemma sub_integer (a p : Z) (u v : float) :
  Prim2SF u = SFint a -> SFint_or_negative_zero p (Prim2SF v) ->
  (Z.abs a < 2 ^ 53)%Z -> (Z.abs p < 2 ^ 53)%Z -> (Z.abs (a - p) < 2 ^ 53)%Z ->
  Prim2SF (u - v) = SFint (a - p).
Proof.
  intros Hu Hv Ha Hp Hap. rewrite sub_spec, Hu. now apply SFsub_product.
Qed.

Lemma mul_integer (a b : Z) (u v : float) :
  Prim2SF u = SFint a -> Prim2SF v = SFint b ->
  (Z.abs a < 2 ^ 53)%Z -> (Z.abs b < 2 ^ 53)%Z -> (Z.abs (a * b) < 2 ^ 53)%Z ->
  SFint_or_negative_zero (a * b) (Prim2SF (u * v)).
Proof.
  intros Hu Hv Ha Hb Hab. rewrite mul_spec, Hu, Hv. now apply SFmul_exact.
Qed.

(** *** The loop of [calculatePolygonArea] at integer coordinates *)

Lemma accumulate_integer (bound c : Z) (acc : float) (p q : Z * Z) :
  Prim2SF acc = SFint c ->
  (Z.abs (fst p) <= bound /\ Z.abs (snd p) <= bound)%Z ->
  (Z.abs (fst q) <= bound /\ Z.abs (snd q) <= bound)%Z ->
  (Z.abs c + 2 * bound * bound < 2 ^ 53)%Z ->
  Prim2SF (accumulate acc (pixel p, pixel q)) = SFint (c + Integer.cross p q)
  /\ (Z.abs (c + Integer.cross p q) <= Z.abs c + 2 * bound * bound)%Z.
Proof.
  intros Hacc [Hpx Hpy] [Hqx Hqy] Hc.
  destruct p as [px py], q as [qx qy]. cbn [fst snd] in *.
  unfold Integer.cross, accumulate, pixel. cbn [fst snd x y add sub mul number].
  assert (Hb : (0 <= bound)%Z) by lia.
  assert (Hbb : (bound < 2 ^ 53)%Z) by nia.
  assert (H1 : (Z.abs (px * qy) <= bound * bound)%Z)
    by (rewrite Z.abs_mul; apply Z.mul_le_mono_nonneg; lia).
  assert (H2 : (Z.abs (qx * py) <= bound * bound)%Z)
    by (rewrite Z.abs_mul; apply Z.mul_le_mono_nonneg; lia).
  split; [|lia].
  replace (c + (px * qy - qx * py))%Z with (c + px * qy - qx * py)%Z by lia.
  apply sub_integer; try lia.
  - apply add_integer; try lia; [exact Hacc|].
    apply mul_integer; try lia; apply integer_spec; lia.
  - apply mul_integer; try lia; apply integer_spec; lia.
Qed.

Lemma accumulate_integers (bound : Z) (pairs : list ((Z * Z) * (Z * Z))) :
  forall (c : Z) (acc : float),
  (forall pair, In pair pairs ->
     (Z.abs (fst (fst pair)) <= bound /\ Z.abs (snd (fst pair)) <= bound)
     /\ (Z.abs (fst (snd pair)) <= bound /\ Z.abs (snd (snd pair)) <= bound))%Z ->
  Prim2SF acc = SFint c ->
  (Z.abs c + 2 * bound * bound * Z.of_nat (List.length pairs) < 2 ^ 53)%Z ->
  let sum := fold_right Z.add 0%Z
               (map (fun pair => Integer.cross (fst pair) (snd pair)) pairs) in
  Prim2SF (fold_left accumulate (map both_pixels pairs) acc) = SFint (c + sum)
  /\ (Z.abs (c + sum)
      <= Z.abs c + 2 * bound * bound * Z.of_nat (List.length pairs))%Z.
Proof.
  induction pairs as [|[p q] rest IH]; intros c acc Hin Hacc Hc sum.
  - unfold sum. cbn. rewrite Z.add_0_r. split; [exact Hacc | lia].
  - cbn [List.length] in Hc. rewrite Nat2Z.inj_succ in Hc.
    assert (Hbb : (0 <= 2 * bound * bound)%Z) by nia.
    assert (Hrest : (0 <= 2 * bound * bound * Z.of_nat (List.length rest))%Z)
      by (apply Z.mul_nonneg_nonneg; lia).
    destruct (Hin (p, q) (or_introl eq_refl)) as [Hp Hq]. cbn [fst snd] in Hp, Hq.
    destruct (accumulate_integer bound c acc p q Hacc Hp Hq) as [Hstep Hbound];
      [nia|].
    cbn [map fold_left]. unfold both_pixels at 1. cbn [fst snd].
    destruct (IH (c + Integer.cross p q)%Z (accumulate acc (pixel p, pixel q)))
      as [Hfold Hsum]; [intros pair Hpair; apply Hin; now right | exact Hstep | nia |].
    unfold sum. cbn [map fold_right fst snd List.length].
    rewrite Nat2Z.inj_succ, Z.add_assoc. split; [exact Hfold | nia].
Qed.

Lemma combine_mapped {A B : Type} (f : A -> B) (l1 l2 : list A) :
  combine (map f l1) (map f l2)
  = map (fun pair => (f (fst pair), f (snd pair))) (combine l1 l2).
Proof.
  revert l2. induction l1 as [|a l1 IH]; intros [|b l2]; try reflexivity.
  cbn [map combine fst snd]. now rewrite IH.
Qed.

Lemma closing_pairs_mapped {A B : Type} (f : A -> B) (l : list A) :
  closing_pairs (map f l)
  = map (fun pair => (f (fst pair), f (snd pair))) (closing_pairs l).
Proof.
  destruct l as [|a rest]; [reflexivity|].
  unfold closing_pairs. cbn [map].
  change [f a] with (map f [a]). rewrite <- map_app.
  exact (combine_mapped f (a :: rest) (rest ++ [a])).
Qed.

Lemma closing_pairs_length {A : Type} (l : list A) :
  List.length (closing_pairs l) = List.length l.
Proof.
  destruct l as [|a rest]; [reflexivity|].
  unfold closing_pairs. rewrite length_combine, length_app. cbn [List.length]. lia.
Qed.

Lemma closing_pairs_in {A : Type} (l : list A) (pair : A * A) :
  In pair (closing_pairs l) -> In (fst pair) l /\ In (snd pair) l.
Proof.
  destruct l as [|a rest]; [intros []|].
  destruct pair as [p q]. unfold closing_pairs. intros Hin. cbn [fst snd]. split.
  - exact (in_combine_l _ _ _ _ Hin).
  - apply in_combine_r in Hin. apply in_app_or in Hin as [H | [<- | []]];
      [now right | now left].
Qed.

(** Within the bound the loop computes the shoelace sum of the integers,
    no operation rounding. *)
Lemma running_sum_integer (bound : Z) (points : list (Z * Z)) :
  Integer.no_rounding bound points ->
  Prim2SF (running_sum (map pixel points)) = SFint (Integer.shoelace_sum points)
  /\ (Z.abs (Integer.shoelace_sum points) < 2 ^ 53)%Z.
Proof.
  intros [Hin Hlen]. unfold running_sum, Integer.shoelace_sum.
  rewrite closing_pairs_mapped.
  destruct (accumulate_integers bound (closing_pairs points) 0%Z 0%float)
    as [Hsum Hbound].
  - intros pair Hpair. apply closing_pairs_in in Hpair as [Hp Hq].
    split; now apply Hin.
  - reflexivity.
  - rewrite closing_pairs_length. cbn [Z.abs]. lia.
  - rewrite closing_pairs_length in Hbound. cbn [Z.abs] in Hbound.
    rewrite Z.add_0_l in Hsum, Hbound. split; [exact Hsum | lia].
Qed.

Lemma polygon_area_integer (bound : Z) (points : list (Z * Z)) :
  Integer.no_rounding bound points ->
  calculatePolygonArea (map pixel points)
  = if List.length points <? 3 then Some 0%float
    else Some (integer (Z.abs (Integer.shoelace_sum points)) / 2)%float.
Proof.
  intros Hno. rewrite polygon_area_running_sum, length_map.
  destruct (List.length points <? 3); [reflexivity|].
  destruct (running_sum_integer bound points Hno) as [Hsum Hbound].
  cbn [div abs two number]. do 2 f_equal.
  apply Prim2SF_inj. rewrite abs_spec, Hsum, SFabs_exact.
  symmetry. apply integer_spec. lia.
Qed.

(** *** The general path of [scaleAreaToRealWorld] *)

Lemma SFcompare_swap (f g : spec_float) :
  SFcompare g f = option_map CompOpp (SFcompare f g).
Proof.
  destruct f as [sf|sf| |sf mf ef], g as [sg|sg| |sg mg eg];
    try reflexivity;
    try (destruct sf; reflexivity); try (destruct sg; reflexivity);
    try (destruct sf, sg; reflexivity).
  cbn [SFcompare option_map].
  destruct sf, sg; try reflexivity;
    rewrite (Z.compare_antisym ef eg);
    destruct (ef ?= eg)%Z; cbn [CompOpp]; try reflexivity;
    rewrite (Pos.compare_cont_antisym mf mg Eq); cbn [CompOpp];
    now rewrite ?CompOpp_involutive.
Qed.

(** [a <= b] excludes [b < a]. *)
Lemma leb_not_ltb (a b : float) : (a <=? b)%float = true -> (b <? a)%float = false.
Proof.
  rewrite leb_spec, ltb_spec. unfold SFleb, SFltb.
  rewrite (SFcompare_swap (Prim2SF a) (Prim2SF b)).
  now destruct (SFcompare (Prim2SF a) (Prim2SF b)) as [[| |]|].
Qed.

(** The loop collects the ratios of the measured segments, in their
    order, after the ratios already collected. *)
Lemma collectRatios_ratios lines (acc : list float) :
  collectRatios lines acc = Some (acc ++ map ratio (measured lines)).
Proof.
  revert acc. induction lines as [|line rest IH]; intros acc.
  - cbn. now rewrite app_nil_r.
  - cbn [collectRatios]. cbv zeta.
    rewrite calculateDistance_euclidean.
    change (gtb (euclidean_distance (startPoint line) (endPoint line)) zero)
      with (has_pixel_length line).
    unfold measured. cbn [filter]. fold (measured rest).
    destruct (has_pixel_length line).
    + cbn [div number bind]. rewrite IH, <- app_assoc. reflexivity.
    + apply IH.
Qed.

Lemma scaleByAverageRatio_mean (pixelArea : float) lines :
  scaleByAverageRatio pixelArea lines
  = Some (match measured lines with
          | [] => 0
          | _ => pixelArea * mean_ratio lines * mean_ratio lines
          end)%float.
Proof.
  unfold scaleByAverageRatio.
  rewrite collectRatios_ratios. cbn [bind app].
  rewrite length_map. unfold mean_ratio.
  destruct (measured lines) as [|line rest]; reflexivity.
Qed.

Lemma no_shortcut_general_path (pixelArea scale : float) lines :
  3 <= List.length lines -> no_shortcut lines ->
  scaleAreaToRealWorld pixelArea lines scale
  = scaleByAverageRatio pixelArea lines.
Proof.
  intros Hlen Hno. unfold scaleAreaToRealWorld.
  apply Nat.ltb_ge in Hlen. rewrite Hlen.
  destruct lines as [|l0 [|l1 [|l2 [|l3 [|l4 rest]]]]]; try reflexivity.
  assert (E : isRectangle l0 l1 l2 l3 = false); [|now rewrite E].
  unfold isRectangle. cbv zeta. apply andb_false_iff.
  destruct Hno as [H | [H | H]]; [now contradiction H | left | right];
    unfold declared in H; cbn [nth] in H; exact (leb_not_ltb _ _ H).
Qed.

(** C2, as the program computes it: with at least three segments, no
    rectangle shortcut, and a segment whose euclidean distance
    [sqrt((q.x - p.x)^2 + (q.y - p.y)^2)], computed in binary64, is above
    0, [scaleAreaToRealWorld] returns [(pixelArea * mean) * mean], where
    [mean] is the sum of [length / distance] over the segments of distance
    above 0, in their order, divided by their number.  These segments are
    the ones the loop takes its ratios from; between finite points a
    distance is above 0 exactly when it is not 0. *)
Theorem general_path_scales_by_mean_ratio (pixelArea scale : float) lines :
  3 <= List.length lines ->
  no_shortcut lines ->
  (exists line,
     In line lines
     /\ (0 <? euclidean_distance (startPoint line) (endPoint line))%float = true) ->
  scaleAreaToRealWorld pixelArea lines scale
  = Some (pixelArea * mean_ratio lines * mean_ratio lines)%float
  /\ collectRatios lines [] = Some (map ratio (measured lines))
  /\ (forall line,
        In line (measured lines) <->
        In line lines
        /\ (0 <? euclidean_distance (startPoint line) (endPoint line))%float
           = true)
  /\ (forall line,
        finite_ends line ->
        (0 <? euclidean_distance (startPoint line) (endPoint line))%float
        = negb (euclidean_distance (startPoint line) (endPoint line) =? 0)%float).
Proof.
  intros Hlen Hno [line [Hin Hd]].
  assert (Hm : forall l, In l (measured lines) <->
                 In l lines
                 /\ (0 <? euclidean_distance (startPoint l) (endPoint l))%float = true).
  { intros l. unfold measured. now rewrite filter_In. }
  split; [|split; [apply collectRatios_ratios
                  | split; [exact Hm | exact distance_above_zero]]].
  rewrite no_shortcut_general_path, scaleByAverageRatio_mean by assumption.
  assert (Hl : In line (measured lines)) by (apply Hm; now split).
  destruct (measured lines) as [|l rest]; [contradiction | reflexivity].
Qed.

(** C2 at the kite declared 10, 5, 10.2 and 4.97 m, with a pixel area of
    2500. *)
Lemma general_path_witness :
  3 <= List.length not_rectangle
  /\ no_shortcut not_rectangle
  /\ scaleAreaToRealWorld 2500%float not_rectangle 100%float
     = Some (2500 * mean_ratio not_rectangle * mean_ratio not_rectangle)%float.
Proof.
  assert (H1 : 3 <= List.length not_rectangle) by (cbn; lia).
  assert (H2 : no_shortcut not_rectangle) by (right; left; reflexivity).
  assert (H3 : exists line,
             In line not_rectangle
             /\ (0 <? euclidean_distance (startPoint line) (endPoint line))%float
                = true).
  { exists (ln (pt 0 0) (pt 40 30) 10)%float. split; [now left | reflexivity]. }
  split; [exact H1 | split; [exact H2|]].
  exact (proj1 (general_path_scales_by_mean_ratio 2500%float 100%float
                  not_rectangle H1 H2 H3)).
Defined.

Lemma polygon_area_not_negative vertices :
  exists area, calculatePolygonArea vertices = Some area /\ not_negative area.
Proof.
  rewrite polygon_area_running_sum.
  destruct (List.length vertices <? 3).
  - exists 0%float. split; [reflexivity | now right].
  - eexists. split; [reflexivity | apply half_abs_not_negative].
Qed.

(** C3, as the program computes it: [calculatePolygonArea] returns 0 on
    fewer than three vertices, and otherwise half the absolute value of
    the sum that the loop accumulates along the pairs of consecutive
    vertices, the last paired with the first, every operation rounded to
    binary64.  At integer coordinates within the bound no operation
    rounds, and the result is half the absolute value of the shoelace sum
    [Σ_i (x_i * y_(i+1) - x_(i+1) * y_i)] of the integers.  The result is
    never below zero: it is [>= 0] or NaN. *)
Theorem polygon_area_shoelace vertices :
  (List.length vertices < 3 -> calculatePolygonArea vertices = Some 0%float)
  /\ (3 <= List.length vertices ->
      calculatePolygonArea vertices
      = Some (PrimFloat.abs (running_sum vertices) / 2)%float)
  /\ (forall (bound : Z) (points : list (Z * Z)),
        vertices = map pixel points ->
        Integer.no_rounding bound points ->
        3 <= List.length points ->
        calculatePolygonArea vertices
        = Some (integer (Z.abs (Integer.shoelace_sum points)) / 2)%float)
  /\ exists area, calculatePolygonArea vertices = Some area /\ not_negative area.
Proof.
  split; [|split; [|split]].
  - intros Hlen. rewrite polygon_area_running_sum.
    apply Nat.ltb_lt in Hlen. now rewrite Hlen.
  - intros Hlen. rewrite polygon_area_running_sum.
    apply Nat.ltb_ge in Hlen. now rewrite Hlen.
  - intros bound points -> Hno Hlen.
    rewrite (polygon_area_integer bound points Hno).
    apply Nat.ltb_ge in Hlen. now rewrite Hlen.
  - apply polygon_area_not_negative.
Qed.

(** C3 at the 200 x 100 rectangle at integer coordinates: the shoelace sum
    is 40000 and the area 20000. *)
Lemma polygon_area_shoelace_witness :
  Integer.no_rounding 200 pixel_rectangle
  /\ 3 <= List.length pixel_rectangle
  /\ Integer.shoelace_sum pixel_rectangle = 40000%Z
  /\ calculatePolygonArea (map pixel pixel_rectangle) = Some 20000%float.
Proof.
  assert (Hno : Integer.no_rounding 200 pixel_rectangle).
  { split; [|vm_compute; reflexivity].
    intros p [<- | [<- | [<- | [<- | []]]]]; cbn; lia. }
  assert (Hlen : 3 <= List.length pixel_rectangle) by (cbn; lia).
  split; [exact Hno | split; [exact Hlen | split; [reflexivity|]]].
  destruct (polygon_area_shoelace (map pixel pixel_rectangle))
    as [_ [_ [Hexact _]]].
  exact (Hexact 200%Z pixel_rectangle eq_refl Hno Hlen).
Defined.

(** C8, as the program computes it: at integer coordinates within the
    bound (no operation of the loop rounds) [calculatePolygonArea] returns
    the same value on the reversed sequence of vertices, and on every
    cyclic rotation of the sequence, as on the sequence itself. *)
Theorem polygon_area_reverse_rotate (bound : Z) (points : list (Z * Z)) :
  Integer.no_rounding bound points ->
  let vertices := map pixel points in
  calculatePolygonArea (rev vertices) = calculatePolygonArea vertices
  /\ forall k, calculatePolygonArea (rotate k vertices)
               = calculatePolygonArea vertices.
Proof.
  intros Hno vertices. unfold vertices. split.
  - rewrite <- map_rev.
    rewrite (polygon_area_integer bound (rev points)),
            (polygon_area_integer bound points);
      [|exact Hno | now apply IntegerProps.no_rounding_reversed].
    rewrite length_rev, IntegerProps.shoelace_sum_reversed.
    now rewrite Z.abs_opp.
  - intros k. unfold rotate. rewrite skipn_map, firstn_map, <- map_app.
    rewrite (polygon_area_integer bound (skipn k points ++ firstn k points)),
            (polygon_area_integer bound points);
      [|exact Hno | now apply IntegerProps.no_rounding_rotated].
    rewrite IntegerProps.shoelace_sum_rotated.
    replace (List.length (skipn k points ++ firstn k points))
      with (List.length points); [reflexivity|].
    rewrite length_app, Nat.add_comm, <- length_app. now rewrite firstn_skipn.
Qed.

(** C8 at the 200 x 100 rectangle at integer coordinates. *)
Lemma polygon_area_reverse_rotate_witness :
  Integer.no_rounding 200 pixel_rectangle
  /\ calculatePolygonArea (rev (map pixel pixel_rectangle))
     = calculatePolygonArea (map pixel pixel_rectangle)
  /\ calculatePolygonArea (rotate 3 (map pixel pixel_rectangle))
     = calculatePolygonArea (map pixel pixel_rectangle).
Proof.
  assert (Hno : Integer.no_rounding 200 pixel_rectangle).
  { split; [|vm_compute; reflexivity].
    intros p [<- | [<- | [<- | [<- | []]]]]; cbn; lia. }
  split; [exact Hno|].
  destruct (polygon_area_reverse_rotate 200%Z pixel_rectangle Hno) as [Hrev Hrot].
  split; [exact Hrev | exact (Hrot 3)].
Defined.

End Binary64Props.

(** ** The guard against a zero divisor, in exact arithmetic *)

Module ExactProps.

Import Exact.
Local Open Scope R_scope.

Implicit Types (vertices : list (Point R)) (lines : list (Line R)).

Lemma Rdiv_checked_nonzero (a b : R) : b <> 0 -> div a b = Some (a / b).
Proof.
  intros Hb. cbn. unfold Rdiv_checked.
  destruct (Req_dec_T b 0) as [E|_]; [contradiction | reflexivity].
Qed.

Lemma Rltb_true (a b : R) : Rltb a b = true <-> a < b.
Proof. unfold Rltb. destruct (Rlt_dec a b); split; intros; try easy. Qed.


Lemma Reqb_true (a b : R) : Reqb a b = true <-> a = b.
Proof. unfold Reqb. destruct (Req_dec_T a b); split; intros; easy. Qed.

(** *** The general path of [scaleAreaToRealWorld] *)












End ExactProps.

(** ** The total area and the distance, in binary64 *)

Module Binary64Geometry.

Import Binary64 Binary64Integers Binary64Rounding Binary64Props.
#[local] Set Warnings "-inexact-float".

Implicit Types (lines : list (Line float)).

(** *** Numbers that are not negative, under the operations *)

Lemma SFcompare_same (f : spec_float) : f <> S754_nan -> SFcompare f f = Some Eq.
Proof.
  destruct f as [s|s| |s m e]; intros Hf; [reflexivity | now destruct s | easy |].
  cbn [SFcompare]. rewrite Z.compare_refl, Pos.compare_cont_refl.
  now destruct s.
Qed.

Lemma not_negative_spec_inv (a : float) :
  not_negative a -> SFnot_negative (Prim2SF a).
Proof.
  unfold not_negative, is_nan. rewrite eqb_spec, leb_spec.
  change (Prim2SF 0) with (S754_zero false). unfold SFeqb, SFleb.
  intros [H | H].
  - destruct (Prim2SF a) as [s|s| |s m e] eqn:E; try exact I;
      rewrite SFcompare_same in H by discriminate; discriminate.
  - destruct (Prim2SF a) as [s|s| |s m e]; cbn in *; try exact I;
      now destruct s.
Qed.

Lemma SFmul_not_negative (f g : spec_float) :
  SFnot_negative f -> SFnot_negative g -> SFnot_negative (SFmul prec emax f g).
Proof.
  destruct f as [sf|sf| |sf mf ef], g as [sg|sg| |sg mg eg];
    cbn [SFnot_negative SFmul]; intros Hf Hg; subst; try exact I;
    try reflexivity.
  destruct (binary_round_aux_cases (xorb false false) (Zpos (mf * mg))
              (ef + eg) loc_Exact) as [E | [E | [m1 [e1 E]]]];
    [easy | | |]; rewrite E; cbn; auto.
Qed.

Lemma SFadd_not_negative (f g : spec_float) :
  SFnot_negative f -> SFnot_negative g -> SFnot_negative (SFadd prec emax f g).
Proof.
  destruct f as [sf|sf| |sf mf ef], g as [sg|sg| |sg mg eg];
    cbn [SFnot_negative]; intros Hf Hg; subst; try exact I;
    try reflexivity; try (cbn [SFadd]; now destruct sf, sg);
    try (cbn [SFadd]; now destruct sf); try (cbn [SFadd]; now destruct sg).
  pose proof (SFadd_positive (S754_finite false mf ef) (S754_finite false mg eg)
                eq_refl eq_refl) as H.
  destruct (SFadd prec emax _ _); cbn in *; auto.
Qed.

Lemma SFdiv_by_positive (f g : spec_float) :
  SFnot_negative f -> SFpositive_or_zero g ->
  SFnot_negative (SFdiv prec emax f g).
Proof.
  intros Hf Hg.
  destruct g as [sg|sg| |sg mg eg]; cbn [SFpositive_or_zero] in Hg;
    try contradiction; subst.
  - destruct f as [sf|sf| |sf mf ef]; cbn in *; subst; auto.
  - destruct f as [sf|sf| |sf mf ef]; cbn in *; subst; auto.
  - now apply SFdiv_not_negative.
Qed.

Lemma of_nat_positive (n : nat) : SFpositive_or_zero (Prim2SF (of_nat n)).
Proof.
  cbn [of_nat number]. rewrite of_uint63_spec.
  pose proof (Uint63.to_Z_bounded (Uint63.of_Z (Z.of_nat n))) as [Hn _].
  change (Uint63Axioms.to_Z (Uint63.of_Z (Z.of_nat n)))
    with (Uint63.to_Z (Uint63.of_Z (Z.of_nat n))).
  destruct (Uint63.to_Z (Uint63.of_Z (Z.of_nat n))) as [|p|p]; [reflexivity | | lia].
  cbn [binary_normalize]. unfold binary_round.
  destruct (shl_align _ _ _) as [mz ez].
  now apply binary_round_aux_positive.
Qed.

Lemma above_zero_positive (a : float) :
  (0 <? a)%float = true -> SFpositive_or_zero (Prim2SF a).
Proof.
  rewrite ltb_spec. change (Prim2SF 0) with (S754_zero false).
  destruct (Prim2SF a) as [s|s| |s m e]; cbn; try discriminate;
    now destruct s.
Qed.

Lemma mul_not_negative (a b : float) :
  not_negative a -> not_negative b -> not_negative (a * b).
Proof.
  intros Ha Hb. apply not_negative_spec. rewrite mul_spec.
  apply SFmul_not_negative; now apply not_negative_spec_inv.
Qed.

Lemma sum_not_negative (values : list float) (sum : float) :
  not_negative sum -> Forall not_negative values ->
  not_negative (fold_left PrimFloat.add values sum).
Proof.
  revert sum. induction values as [|v rest IH]; intros sum Hsum Hall;
    cbn [fold_left]; [exact Hsum|].
  inversion Hall as [|v' rest' Hv Hrest]; subst.
  apply IH; [|exact Hrest].
  apply not_negative_spec. rewrite add_spec.
  apply SFadd_not_negative; now apply not_negative_spec_inv.
Qed.

Lemma ratio_not_negative (line : Line float) :
  not_negative (length line) -> has_pixel_length line = true ->
  not_negative (ratio line).
Proof.
  intros Hl Hd. apply not_negative_spec. unfold ratio. rewrite div_spec.
  apply SFdiv_by_positive; [now apply not_negative_spec_inv|].
  now apply above_zero_positive.
Qed.

Lemma mean_ratio_not_negative lines :
  (forall line, In line lines -> not_negative (length line)) ->
  not_negative (mean_ratio lines).
Proof.
  intros Hl. apply not_negative_spec. unfold mean_ratio. rewrite div_spec.
  apply SFdiv_by_positive; [|apply of_nat_positive].
  apply not_negative_spec_inv, sum_not_negative; [now right|].
  apply Forall_forall. intros r Hr. apply in_map_iff in Hr as [line [<- Hin]].
  unfold measured in Hin. apply filter_In in Hin as [Hin Hd].
  apply ratio_not_negative; [now apply Hl | exact Hd].
Qed.

Lemma scaleAreaToRealWorld_not_negative (pixelArea scale : float) lines :
  not_negative pixelArea ->
  (forall line, In line lines -> not_negative (length line)) ->
  exists area,
    scaleAreaToRealWorld pixelArea lines scale = Some area /\ not_negative area.
Proof.
  intros Hp Hl.
  assert (Hgeneral : exists area,
            scaleByAverageRatio pixelArea lines = Some area /\ not_negative area).
  { rewrite scaleByAverageRatio_mean. eexists. split; [reflexivity|].
    destruct (measured lines); [now right|].
    pose proof (mean_ratio_not_negative lines Hl) as Hm.
    now repeat apply mul_not_negative. }
  unfold scaleAreaToRealWorld.
  destruct (List.length lines <? 3); [exists 0%float; split; [reflexivity | now right]|].
  destruct lines as [|l0 [|l1 [|l2 [|l3 [|l4 rest]]]]]; try exact Hgeneral.
  destruct (isRectangle l0 l1 l2 l3); [|exact Hgeneral].
  eexists. split; [reflexivity|].
  apply mul_not_negative; apply Hl; cbn; auto.
Qed.

Lemma totalArea_not_negative lines (scale : float) :
  exists area,
    totalArea lines scale = Some area
    /\ ((forall line, In line lines -> not_negative (length line)) ->
        not_negative area).
Proof.
  unfold totalArea.
  destruct (List.length lines <? 3); [exists 0%float; split; [reflexivity | now right]|].
  cbv zeta.
  destruct (polygon_area_not_negative (extractVerticesFromLines lines))
    as [pixelArea [-> Hp]].
  cbn [bind].
  assert (Hvalue : exists area,
            scaleAreaToRealWorld pixelArea lines scale = Some area).
  { unfold scaleAreaToRealWorld, scaleByAverageRatio.
    rewrite collectRatios_ratios. cbn [bind app div number].
    destruct (List.length lines <? 3); [now eexists|].
    destruct lines as [|l0 [|l1 [|l2 [|l3 [|l4 rest]]]]];
      try (destruct (_ =? 0)%nat; now eexists).
    destruct (isRectangle l0 l1 l2 l3); [now eexists|].
    destruct (_ =? 0)%nat; now eexists. }
  destruct Hvalue as [area Harea]. exists area. split; [exact Harea|].
  intros Hl.
  destruct (scaleAreaToRealWorld_not_negative pixelArea scale lines Hp Hl)
    as [area' [E Ha]].
  rewrite Harea in E. now injection E as ->.
Qed.

(** X4: [totalArea] always returns a value, and the value is never below zero
    when no declared length is: it is [>= 0], or NaN (as when a product
    overflows against a zero). *)
Theorem total_area_not_negative lines (scale : float) :
  exists area,
    totalArea lines scale = Some area
    /\ ((forall line, In line lines -> not_negative (length line)) ->
        not_negative area).
Proof. exact (totalArea_not_negative lines scale). Qed.

(** X4 on the 200 x 100 rectangle declared 20 m x 10 m. *)
Lemma total_area_witness :
  (forall line, In line rectangle_plot -> not_negative (length line))
  /\ exists area,
       totalArea rectangle_plot 100%float = Some area /\ not_negative area.
Proof.
  assert (Hl : forall line, In line rectangle_plot -> not_negative (length line)).
  { intros line [<- | [<- | [<- | [<- | []]]]]; now right. }
  split; [exact Hl|].
  destruct (total_area_not_negative rectangle_plot 100%float) as [area [E Ha]].
  exists area. split; [exact E | exact (Ha Hl)].
Defined.

(** *** Polygons at integer coordinates *)

(** Half of an even integer is computed exactly. *)
Lemma SFdiv_two (s : bool) (v : positive) :
  (Zpos v~0 < 2 ^ 53)%Z ->
  SFdiv prec emax (canon s v~0) (S754_finite false 4503599627370496 (-51))
  = canon s v.
Proof.
  intros Hv.
  assert (Hv1 : (Zpos v < 2 ^ 53)%Z) by lia.
  pose proof (digits_le_53 _ Hv) as Hd2. pose proof (digits_le_53 _ Hv1) as Hd.
  assert (Hdv : digits v~0 = (digits v + 1)%Z).
  { unfold digits. cbn [digits2_pos]. lia. }
  assert (Hd0 : (0 < digits v)%Z) by (unfold digits; lia).
  unfold canon at 1. cbn [SFdiv].
  set (m1 := lift v~0 (53 - digits v~0)). set (e1 := (digits v~0 - 53)%Z).
  assert (Hm1 : Zpos m1 = (Zpos v * 2 ^ (53 - digits v))%Z).
  { unfold m1. rewrite lift_value by lia. rewrite Hdv.
    replace (53 - digits v)%Z with (Z.succ (53 - (digits v + 1))) by lia.
    rewrite Z.pow_succ_r by lia. rewrite Pos2Z.inj_xO. ring. }
  assert (Hdm : Zdigits2 (Zpos m1) = 53%Z).
  { change (digits m1 = 53%Z). unfold m1. rewrite digits_lift by lia. lia. }
  assert (Hcore : SFdiv_core_binary prec emax (Zpos m1) e1 4503599627370496 (-51)
                  = (Zpos m1~0, (e1 - 2)%Z, loc_Exact)).
  { unfold SFdiv_core_binary. rewrite Hdm.
    change (Zdigits2 4503599627370496) with 53%Z. rewrite fexp_value.
    replace (Z.min (Z.max (53 + e1 - (53 + -51) - 53) (-1074)) (e1 - -51))
      with (e1 - 2)%Z by (unfold e1; lia).
    replace (e1 - -51 - (e1 - 2))%Z with 53%Z by lia.
    rewrite Z.shiftl_mul_pow2 by lia.
    pose proof (Z_div_mod (Zpos m1 * 2 ^ 53) 4503599627370496 eq_refl) as H.
    destruct (Z.div_eucl (Zpos m1 * 2 ^ 53) 4503599627370496) as [q r].
    assert (Hq : q = Zpos m1~0 /\ r = 0%Z).
    { change (2 ^ 53)%Z with (2 * 4503599627370496)%Z in H.
      rewrite Pos2Z.inj_xO. lia. }
    destruct Hq as [-> ->]. reflexivity. }
  rewrite Hcore. replace (xorb s false) with s by now destruct s.
  rewrite (binary_round_aux_exact s m1~0 v (e1 - 2) (54 - digits v)).
  - unfold canon. f_equal. unfold e1. lia.
  - exact Hd.
  - lia.
  - rewrite Pos2Z.inj_xO, Hm1.
    replace (54 - digits v)%Z with (Z.succ (53 - digits v)) by lia.
    rewrite Z.pow_succ_r by lia. ring.
  - lia.
  - unfold e1. lia.
Qed.

Lemma half_of_even (k : Z) :
  (Z.abs (2 * k) < 2 ^ 53)%Z -> (integer (2 * k) / 2)%float = integer k.
Proof.
  intros Hk. apply Prim2SF_inj.
  rewrite div_spec, !integer_spec by lia.
  change (Prim2SF 2) with (S754_finite false 4503599627370496 (-51)).
  destruct k as [|v|v]; [reflexivity | |];
    cbn [Z.mul SFint]; apply SFdiv_two; exact Hk.
Qed.

Lemma no_rounding_shorter (bound : Z) (points extra : list (Z * Z)) :
  Integer.no_rounding bound (points ++ extra) -> Integer.no_rounding bound points.
Proof.
  intros [Hin Hlen]. split.
  - intros p Hp. apply Hin, in_or_app. now left.
  - rewrite length_app, Nat2Z.inj_add in Hlen.
    destruct points as [|p0 rest]; [cbn; lia|].
    destruct (Hin p0 (or_introl eq_refl)) as [H _]. nia.
Qed.

(** X2: At integer coordinates within the bound, the closure rule of
    [extractVerticesFromLines] never changes the pixel area: the area of
    the vertices it returns is the area of the first start point followed
    by all end points, which is half the absolute integer shoelace sum of
    these points. *)
Theorem closure_keeps_pixel_area (line0 : Line float) rest
    (bound : Z) (points : list (Z * Z)) :
  open_vertices line0 rest = map pixel points ->
  Integer.no_rounding bound (points ++ firstn 1 points) ->
  calculatePolygonArea (extractVerticesFromLines (line0 :: rest))
  = calculatePolygonArea (open_vertices line0 rest)
  /\ calculatePolygonArea (open_vertices line0 rest)
     = Some (integer (Z.abs (Integer.shoelace_sum points)) / 2)%float.
Proof.
  intros Hopen Hno.
  assert (Hn : List.length points = S (List.length (line0 :: rest))).
  { rewrite <- (length_map pixel), <- Hopen. unfold open_vertices.
    cbn [List.length]. now rewrite length_map. }
  split; cycle 1.
  { rewrite Hopen, (polygon_area_integer bound _ (no_rounding_shorter _ _ _ Hno)).
    destruct rest as [|line1 rest]; [|now rewrite Hn].
    destruct points as [|p [|q [|r others]]]; try discriminate Hn.
    replace (Integer.shoelace_sum [p; q]) with 0%Z; [reflexivity|].
    unfold Integer.shoelace_sum, Integer.cross.
    cbn [closing_pairs combine app map fold_right fst snd]. ring. }
  clear Hn.
  destruct (extract_vertices_closure line0 rest) as [-> | [Hlen ->]];
    [reflexivity|].
  destruct points as [|p0 others]; [discriminate Hopen|].
  assert (Hstart : startPoint line0 = pixel p0).
  { unfold open_vertices in Hopen. now injection Hopen. }
  rewrite Hopen, Hstart. change [pixel p0] with (map pixel [p0]).
  rewrite <- map_app.
  cbn [firstn] in Hno.
  rewrite (polygon_area_integer bound _ Hno),
          (polygon_area_integer bound _ (no_rounding_shorter _ _ _ Hno)).
  rewrite IntegerProps.shoelace_sum_closed.
  assert (Hn : List.length (p0 :: others) = S (List.length (line0 :: rest))).
  { rewrite <- (length_map pixel), <- Hopen. unfold open_vertices.
    cbn [List.length]. now rewrite length_map. }
  rewrite length_app, Hn. cbn [List.length] in *.
  replace (S (S (List.length rest)) + 1 <? 3) with false
    by (symmetry; apply Nat.ltb_ge; lia).
  replace (S (S (List.length rest)) <? 3) with false
    by (symmetry; apply Nat.ltb_ge; lia).
  reflexivity.
Qed.

(** X2 on the 200 x 100 rectangle, whose last segment does not return to the
    start exactly. *)
Lemma closure_keeps_pixel_area_witness :
  let line0 := ln (pixel (0, 0)%Z) (pixel (200, 0)%Z) 20%float in
  let rest := [ln (pixel (200, 0)%Z) (pixel (200, 100)%Z) 10;
               ln (pixel (200, 100)%Z) (pixel (0, 100)%Z) 20]%float in
  calculatePolygonArea (extractVerticesFromLines (line0 :: rest))
  = calculatePolygonArea (open_vertices line0 rest)
  /\ calculatePolygonArea (open_vertices line0 rest) = Some 20000%float.
Proof.
  apply (closure_keeps_pixel_area _ _ 200%Z pixel_rectangle); [reflexivity|].
  split; [|vm_compute; reflexivity].
  intros p [<- | [<- | [<- | [<- | [<- | []]]]]]; cbn; lia.
Defined.

Lemma translate_pixel (dx dy : Z) (p : Z * Z) :
  (Z.abs dx < 2 ^ 53)%Z -> (Z.abs dy < 2 ^ 53)%Z ->
  (Z.abs (fst p) < 2 ^ 53)%Z -> (Z.abs (snd p) < 2 ^ 53)%Z ->
  (Z.abs (fst p + dx) < 2 ^ 53)%Z -> (Z.abs (snd p + dy) < 2 ^ 53)%Z ->
  translate (integer dx) (integer dy) (pixel p) = pixel (Integer.moved dx dy p).
Proof.
  intros Hdx Hdy Hx Hy Hx' Hy'. unfold translate, pixel, Integer.moved.
  cbn [x y fst snd add number].
  f_equal; apply Prim2SF_inj; rewrite (integer_spec (_ + _)) by assumption;
    apply add_integer; try assumption; try (left; now apply integer_spec);
    now apply integer_spec.
Qed.

Lemma no_rounding_below (bound : Z) (points : list (Z * Z)) (p : Z * Z) :
  Integer.no_rounding bound points -> In p points ->
  (Z.abs (fst p) < 2 ^ 53 /\ Z.abs (snd p) < 2 ^ 53)%Z.
Proof.
  intros [Hin Hlen] Hp. destruct (Hin p Hp) as [Hx Hy].
  assert (Hn : (1 <= Z.of_nat (List.length points))%Z).
  { destruct points; [contradiction | cbn [List.length]; lia]. }
  split; nia.
Qed.

(** X3: At integer coordinates, moving every vertex by the same integer
    vector does not change the area, as long as the polygon stays within
    the bound before and after; with three vertices or more the area is
    half the absolute integer shoelace sum. *)
Theorem polygon_area_moved (dx dy bound : Z) (points : list (Z * Z)) :
  Integer.no_rounding bound points ->
  Integer.no_rounding bound (map (Integer.moved dx dy) points) ->
  (Z.abs dx < 2 ^ 53)%Z -> (Z.abs dy < 2 ^ 53)%Z ->
  calculatePolygonArea
    (map (translate (integer dx) (integer dy)) (map pixel points))
  = calculatePolygonArea (map pixel points)
  /\ (3 <= List.length points ->
      calculatePolygonArea (map pixel points)
      = Some (integer (Z.abs (Integer.shoelace_sum points)) / 2)%float).
Proof.
  intros Hno Hno' Hdx Hdy.
  split; cycle 1.
  { intros Hlen. rewrite (polygon_area_integer bound _ Hno).
    replace (List.length points <? 3) with false
      by (symmetry; apply Nat.ltb_ge; lia).
    reflexivity. }
  assert (Hmap : map (translate (integer dx) (integer dy)) (map pixel points)
                 = map pixel (map (Integer.moved dx dy) points)).
  { rewrite !map_map. apply map_ext_in. intros p Hp.
    destruct (no_rounding_below bound points p Hno Hp) as [Hx Hy].
    destruct (no_rounding_below bound _ (Integer.moved dx dy p) Hno'
                (in_map _ _ _ Hp)) as [Hx' Hy'].
    now apply translate_pixel. }
  rewrite Hmap, (polygon_area_integer bound _ Hno'),
          (polygon_area_integer bound _ Hno).
  now rewrite length_map, IntegerProps.shoelace_sum_moved.
Qed.

(** X3 on the 200 x 100 rectangle moved by (30, -20). *)
Lemma polygon_area_moved_witness :
  calculatePolygonArea
    (map (translate (integer 30) (integer (-20))) (map pixel pixel_rectangle))
  = calculatePolygonArea (map pixel pixel_rectangle)
  /\ calculatePolygonArea (map pixel pixel_rectangle) = Some 20000%float.
Proof.
  destruct (polygon_area_moved 30 (-20) 230 pixel_rectangle) as [Hsame Harea].
  - split; [|vm_compute; reflexivity].
    intros p [<- | [<- | [<- | [<- | []]]]]; cbn; lia.
  - split; [|vm_compute; reflexivity].
    intros p [<- | [<- | [<- | [<- | []]]]]; cbn; lia.
  - reflexivity.
  - reflexivity.
  - split; [exact Hsame | reflexivity].
Defined.

(** X9: The pixel area of an axis-aligned rectangle at integer coordinates
    within the bound is exactly its width times its height. *)
Theorem rectangle_pixel_area (a b w h bound : Z) :
  Integer.no_rounding bound (Integer.rectangle_corners a b w h) ->
  calculatePolygonArea (map pixel (Integer.rectangle_corners a b w h))
  = Some (integer (Z.abs (w * h))).
Proof.
  intros Hno.
  destruct (running_sum_integer bound _ Hno) as [_ Hsum].
  rewrite (polygon_area_integer bound _ Hno).
  rewrite IntegerProps.shoelace_sum_rectangle in *.
  cbn [List.length Integer.rectangle_corners Nat.ltb Nat.leb].
  f_equal. rewrite Z.abs_mul. cbn [Z.abs].
  apply half_of_even. rewrite Z.abs_mul in Hsum. cbn [Z.abs] in Hsum.
  rewrite Z.abs_mul. cbn [Z.abs]. now rewrite Z.abs_idemp.
Qed.

(** X9 on the 200 x 100 rectangle: 20000. *)
Lemma rectangle_pixel_area_witness :
  calculatePolygonArea (map pixel (Integer.rectangle_corners 0 0 200 100))
  = Some 20000%float.
Proof.
  apply (rectangle_pixel_area 0 0 200 100 200).
  split; [|vm_compute; reflexivity].
  intros p [<- | [<- | [<- | [<- | []]]]]; cbn; lia.
Defined.

(** *** The distance of two points *)

Lemma binary_round_aux_opp (m e : Z) (l : location) :
  binary_round_aux prec emax true m e l
  = SFopp (binary_round_aux prec emax false m e l).
Proof.
  unfold binary_round_aux.
  destruct (shr_fexp prec emax m e l) as [mrs' e'].
  destruct (shr_fexp prec emax _ e' loc_Exact) as [mrs'' e''].
  destruct (shr_m mrs'') as [|p|p]; [reflexivity | | reflexivity].
  now destruct (e'' <=? emax - prec)%Z.
Qed.

Lemma binary_normalize_opp (z e : Z) :
  z <> 0%Z ->
  binary_normalize prec emax (- z) e false
  = SFopp (binary_normalize prec emax z e false).
Proof.
  intros Hz. destruct z as [|m|m]; [contradiction | |];
    cbn [Z.opp binary_normalize]; unfold binary_round;
    destruct (shl_align _ _ _) as [mz ez];
    rewrite binary_round_aux_opp; [reflexivity|].
  destruct (binary_round_aux prec emax false (Zpos mz) ez loc_Exact) as [s|s| |s m1 e1];
    cbn [SFopp]; now rewrite ?negb_involutive.
Qed.

(** The two differences of two numbers have the same square. *)
Lemma SFsub_square (f g : spec_float) :
  SFmul prec emax (SFsub prec emax g f) (SFsub prec emax g f)
  = SFmul prec emax (SFsub prec emax f g) (SFsub prec emax f g).
Proof.
  assert (Hopp : forall u, SFmul prec emax (SFopp u) (SFopp u) = SFmul prec emax u u).
  { intros [s|s| |s m e]; cbn [SFopp SFmul]; try reflexivity; now destruct s. }
  destruct f as [sf|sf| |sf mf ef], g as [sg|sg| |sg mg eg]; try reflexivity;
    try (cbn [SFsub]; now destruct sf, sg);
    try (cbn [SFsub SFmul]; now destruct sf);
    try (cbn [SFsub SFmul]; now destruct sg).
  cbn [SFsub]. rewrite (Z.min_comm eg ef).
  set (F := cond_Zopp sf (Zpos (fst (shl_align mf ef (Z.min ef eg))))).
  set (G := cond_Zopp sg (Zpos (fst (shl_align mg eg (Z.min ef eg))))).
  destruct (Z.eq_dec (F - G) 0) as [E | E].
  - replace (G - F)%Z with 0%Z by lia. now rewrite E.
  - replace (G - F)%Z with (- (F - G))%Z by lia.
    rewrite binary_normalize_opp by exact E. apply Hopp.
Qed.

Lemma square_of_swapped_difference (a b : float) :
  square (b - a)%float = square (a - b)%float.
Proof.
  apply Prim2SF_inj. unfold square. cbn [mul number].
  rewrite !mul_spec, !sub_spec. apply SFsub_square.
Qed.

Lemma SFsub_same (f : spec_float) :
  match f with S754_nan | S754_infinity _ => False | _ => True end ->
  SFsub prec emax f f = S754_zero false.
Proof.
  destruct f as [s|s| |s m e]; intros Hf; try contradiction.
  - now destruct s.
  - cbn [SFsub]. now rewrite Z.sub_diag.
Qed.

Lemma distance_positive_or_zero (p q : Point float) :
  finite_point p -> finite_point q ->
  SFpositive_or_zero (Prim2SF (euclidean_distance p q)).
Proof.
  intros [Hpx Hpy] [Hqx Hqy].
  unfold euclidean_distance. cbn [sqrt add sub number].
  rewrite sqrt_spec, add_spec.
  apply SFsqrt_positive, SFadd_positive; now apply square_of_difference.
Qed.

(** X1: [calculateDistance] computes the euclidean distance of the
    specification in binary64.  It is symmetric, whatever the numbers;
    between two finite points it is a number that is not below zero
    (never NaN), and from a finite point to itself it is 0. *)
Theorem distance_is_symmetric (p q : Point float) :
  calculateDistance p q = euclidean_distance p q
  /\ calculateDistance p q = calculateDistance q p
  /\ (finite_point p -> finite_point q ->
      (0 <=? calculateDistance p q)%float = true)
  /\ (finite_point p -> calculateDistance p p = 0%float).
Proof.
  split; [reflexivity|]. split; [|split].
  - rewrite !calculateDistance_euclidean. unfold euclidean_distance.
    cbn [sub number].
    now rewrite (square_of_swapped_difference (x p) (x q)),
                (square_of_swapped_difference (y p) (y q)).
  - intros Hp Hq. rewrite calculateDistance_euclidean, leb_spec.
    pose proof (distance_positive_or_zero p q Hp Hq) as Hd.
    change (Prim2SF 0) with (S754_zero false).
    destruct (Prim2SF _) as [s|s| |s m e]; cbn in Hd; try contradiction;
      now subst.
  - intros [Hx Hy]. apply Prim2SF_inj.
    unfold calculateDistance. cbv zeta. cbn [sub add mul sqrt number].
    rewrite sqrt_spec, add_spec, !mul_spec, !sub_spec.
    unfold finite in Hx, Hy. unfold SF64sub.
    now rewrite !SFsub_same.
Qed.

(** The triangle inequality can fail in the last digit. *)
Example triangle_inequality_fails :
  let d := calculateDistance in
  (d (pt 0 0) (pt 1 5) + d (pt 1 5) (pt 3 15) <? d (pt 0 0) (pt 3 15))%float
  = true.
Proof. reflexivity. Qed.

End Binary64Geometry.

(** ** The vertices of a closed drawing *)

Module ExactGeometry.

Import Exact ExactProps.
Local Open Scope R_scope.

Implicit Types (vertices : list (Point R)) (lines : list (Line R)).

Lemma distance_value (p q : Point R) :
  calculateDistance p q
  = R_sqrt.sqrt ((x q - x p) * (x q - x p) + (y q - y p) * (y q - y p)).
Proof. reflexivity. Qed.

Lemma point_eq (p q : Point R) : x p = x q -> y p = y q -> p = q.
Proof. destruct p, q; cbn; intros -> ->; reflexivity. Qed.

Lemma distance_self (p : Point R) : calculateDistance p p = 0.
Proof.
  rewrite distance_value.
  replace ((x p - x p) * (x p - x p) + (y p - y p) * (y p - y p)) with 0 by ring.
  apply sqrt_0.
Qed.

Lemma same_coordinates_true (p q : Point R) :
  same_coordinates p q = true <-> p = q.
Proof.
  unfold same_coordinates. rewrite andb_true_iff. cbn [eqb number].
  rewrite !Reqb_true. split.
  - intros [Hx Hy]. now apply point_eq.
  - intros ->. now split.
Qed.

Lemma extract_vertices_closed_value (line0 : Line R) rest :
  (3 <= List.length (line0 :: rest))%nat ->
  extractVerticesFromLines (line0 :: rest)
  = if same_coordinates (startPoint line0) (endPoint (last (line0 :: rest) line0))
    then open_vertices line0 rest
    else open_vertices line0 rest ++ [startPoint line0].
Proof.
  intros Hlen. apply Nat.leb_le in Hlen.
  unfold extractVerticesFromLines, open_vertices. rewrite Hlen.
  cbv zeta. unfold at_index. rewrite at_index_last.
  cbn [map]. rewrite !last_cons, (last_map endPoint), <- (last_cons line0 rest line0).
  cbn [nth]. unfold same_coordinates, neqb. rewrite <- negb_andb.
  now destruct (eqb _ _ && eqb _ _).
Qed.

(** X7: With at least three segments, the vertices [extractVerticesFromLines]
    returns start and end at the same point, and [isClosedPolygon] holds of
    them. *)
Theorem extracted_vertices_are_closed lines (d : Point R) :
  (3 <= List.length lines)%nat ->
  let vertices := extractVerticesFromLines lines in
  hd d vertices = last vertices d /\ isClosedPolygon vertices = true.
Proof.
  intros Hlen vertices.
  destruct lines as [|line0 rest]; [cbn in Hlen; lia|].
  assert (Hends : hd d vertices = last vertices d).
  { unfold vertices. rewrite extract_vertices_closed_value by exact Hlen.
    destruct (same_coordinates _ _) eqn:E.
    - apply same_coordinates_true in E.
      unfold open_vertices. cbn [hd map]. rewrite !last_cons.
      rewrite (last_map endPoint), <- (last_cons line0 rest line0). exact E.
    - unfold open_vertices. cbn [hd app]. now rewrite last_cons, last_last. }
  split; [exact Hends|].
  assert (Hn : (3 <= List.length vertices)%nat).
  { unfold vertices.
    destruct (extract_vertices_cases line0 rest) as [-> | ->];
      unfold open_vertices; rewrite ?length_app; cbn [List.length] in *;
      rewrite length_map; cbn [List.length]; lia. }
  unfold isClosedPolygon. apply Nat.ltb_ge in Hn. rewrite Hn. cbv zeta.
  unfold at_index. rewrite at_index_last.
  destruct vertices as [|p ps] eqn:E; [cbn in Hn; discriminate|].
  cbn [nth]. rewrite last_cons in *. cbn [hd] in Hends. rewrite <- Hends.
  rewrite distance_self. cbn. apply Rltb_true. lra.
Qed.

(** The vertices of the triangle are closed. *)
Lemma extracted_vertices_witness :
  let vertices := extractVerticesFromLines triangle_plot in
  hd (mkPoint 0 0) vertices = last vertices (mkPoint 0 0)
  /\ isClosedPolygon vertices = true.
Proof.
  apply (extracted_vertices_are_closed triangle_plot (mkPoint 0 0)). cbn. lia.
Defined.

End ExactGeometry.

(** ** The handlers, for every arithmetic *)

Module UiProps.

Import Ui.

Section EveryArithmetic.

Context {T : Type} {N : Number T} {O : NumberOps T}.

Implicit Types (app : App T) (ls : list (Line T)).

(** What [extractVerticesFromLines] reads of the segments are their ends. *)
Lemma extract_vertices_ends ls ls' :
  map startPoint ls = map startPoint ls' ->
  map endPoint ls = map endPoint ls' ->
  extractVerticesFromLines ls = extractVerticesFromLines ls'.
Proof.
  intros Hs He.
  assert (Hlen : List.length ls = List.length ls')
    by (rewrite <- (length_map startPoint ls), Hs; apply length_map).
  destruct ls as [|l0 rest], ls' as [|l0' rest']; try discriminate; [reflexivity|].
  unfold extractVerticesFromLines. rewrite He, Hlen.
  cbn [map] in Hs. injection Hs as Hs _. now rewrite Hs.
Qed.

Lemma lines_handleLineLengthChange app (lineId newLength : T) :
  lines (handleLineLengthChange app lineId newLength)
  = if isNaN newLength || leb newLength zero then lines app
    else map (fun line => if eqb (id line) lineId
                          then with_length newLength line else line)
             (lines app).
Proof.
  unfold handleLineLengthChange.
  now destruct (isNaN newLength || leb newLength zero).
Qed.

(** X11: Editing a declared length in the panel never changes the drawing: the
    identifiers and the ends of all segments stay, and with them the
    vertices and the pixel area.  A value that is NaN or not above 0 changes
    nothing at all. *)
Theorem length_change_keeps_drawing app (lineId newLength : T) :
  let app' := handleLineLengthChange app lineId newLength in
  map id (lines app') = map id (lines app)
  /\ map startPoint (lines app') = map startPoint (lines app)
  /\ map endPoint (lines app') = map endPoint (lines app)
  /\ calculatePolygonArea (extractVerticesFromLines (lines app'))
     = calculatePolygonArea (extractVerticesFromLines (lines app))
  /\ (isNaN newLength || leb newLength zero = true -> app' = app).
Proof.
  intros app'.
  assert (H : map id (lines app') = map id (lines app)
              /\ map startPoint (lines app') = map startPoint (lines app)
              /\ map endPoint (lines app') = map endPoint (lines app)).
  { unfold app'. rewrite lines_handleLineLengthChange.
    destruct (isNaN newLength || leb newLength zero); [auto|].
    induction (lines app) as [|line rest [IH1 [IH2 IH3]]]; [auto|].
    cbn [map]. rewrite IH1, IH2, IH3.
    destruct (eqb (id line) lineId); auto. }
  destruct H as [H1 [H2 H3]].
  repeat split; try assumption.
  - now rewrite (extract_vertices_ends _ _ H2 H3).
  - unfold app', handleLineLengthChange. now intros ->.
Qed.

Lemma ascending_shifted (indices : list nat) :
  ascending indices -> ascending (map S indices).
Proof.
  induction indices as [|i rest IH]; cbn [map ascending]; [auto|].
  intros [Hlt Hasc]. split; [|now apply IH].
  apply Forall_forall. intros j Hj. apply in_map_iff in Hj as [k [<- Hk]].
  rewrite Forall_forall in Hlt. specialize (Hlt k Hk). lia.
Qed.

(** What [filter] keeps, by index: the elements at the indices of the kept
    elements, in ascending order. *)
Lemma filter_by_index {A : Type} (keep : A -> bool) (l : list A) (d : A) :
  exists indices,
    ascending indices
    /\ (forall i, In i indices <-> i < List.length l /\ keep (nth i l d) = true)
    /\ filter keep l = map (fun i => nth i l d) indices.
Proof.
  induction l as [|a rest [indices [Hasc [Hin Hmap]]]].
  - exists []. split; [exact I|]. split; [|reflexivity].
    intros i. cbn. split; [intros [] | intros [H _]; lia].
  - assert (Hshift : forall i, In i (map S indices) <->
                       i < List.length (a :: rest)
                       /\ i <> 0 /\ keep (nth i (a :: rest) d) = true).
    { intros i. rewrite in_map_iff. split.
      - intros [j [<- Hj]]. apply Hin in Hj as [Hlt Hk]. cbn [List.length nth].
        repeat split; [lia | lia | exact Hk].
      - intros [Hlt [Hne Hk]]. destruct i as [|j]; [contradiction|].
        exists j. split; [reflexivity|]. apply Hin. cbn [List.length nth] in *.
        split; [lia | exact Hk]. }
    assert (Hrest : map (fun i => nth i (a :: rest) d) (map S indices)
                    = filter keep rest).
    { rewrite map_map. cbn [nth]. now rewrite Hmap. }
    cbn [filter]. destruct (keep a) eqn:Ha.
    + exists (0 :: map S indices). split; [|split].
      * cbn [ascending]. split; [|now apply ascending_shifted].
        apply Forall_forall. intros j Hj. apply in_map_iff in Hj as [k [<- _]]. lia.
      * intros i. cbn [In]. rewrite Hshift. split.
        -- intros [<- | [Hlt [_ Hk]]]; [cbn; split; [lia | exact Ha] | now split].
        -- intros [Hlt Hk]. destruct i as [|j]; [now left | right].
           repeat split; [exact Hlt | lia | exact Hk].
      * cbn [map]. now rewrite Hrest.
    + exists (map S indices). split; [now apply ascending_shifted|]. split.
      * intros i. rewrite Hshift. split.
        -- intros [Hlt [_ Hk]]. now split.
        -- intros [Hlt Hk]. destruct i as [|j]; [cbn in Hk; congruence|].
           repeat split; [exact Hlt | lia | exact Hk].
      * now rewrite Hrest.
Qed.

(** X12: Deleting by identifier removes every segment that carries it and keeps
    the others in their order: the segments left are those at the indices,
    ascending, of the segments that do not carry it.  No segment that is
    left carries it; deleting an identifier no segment carries, or deleting
    twice, changes nothing more; and nothing but the segments changes. *)
Theorem delete_removes_the_identifier app (lineId : T) (d : Line T) :
  let app' := handleDeleteLine app lineId in
  (exists indices,
     ascending indices
     /\ (forall i, In i indices <->
                    i < List.length (lines app)
                    /\ eqb (id (nth i (lines app) d)) lineId = false)
     /\ lines app' = map (fun i => nth i (lines app) d) indices)
  /\ (forall line, In line (lines app') <->
                   In line (lines app) /\ eqb (id line) lineId = false)
  /\ ((forall line, In line (lines app) -> eqb (id line) lineId = false) ->
      lines app' = lines app)
  /\ lines (handleDeleteLine app' lineId) = lines app'
  /\ List.length (lines app') <= List.length (lines app)
  /\ app' = set_lines app (lines app').
Proof.
  intros app'. unfold app', handleDeleteLine. cbn [lines set_lines].
  split; [|split; [|split; [|split; [|split]]]].
  - destruct (filter_by_index (fun line => neqb (id line) lineId) (lines app) d)
      as [indices [Hasc [Hin Hmap]]].
    exists indices. split; [exact Hasc|]. split; [|exact Hmap].
    intros i. rewrite Hin. unfold neqb. now rewrite negb_true_iff.
  - intros line. rewrite filter_In. unfold neqb. rewrite negb_true_iff.
    reflexivity.
  - intros Hnone. induction (lines app) as [|line rest IH]; [reflexivity|].
    cbn [filter]. unfold neqb at 1. rewrite (Hnone line) by now left.
    cbn [negb]. f_equal. apply IH. intros l Hl. apply Hnone. now right.
  - induction (lines app) as [|line rest IH]; [reflexivity|].
    cbn [filter]. destruct (neqb (id line) lineId) eqn:E; [|exact IH].
    cbn [filter]. rewrite E. now f_equal.
  - apply filter_length_le.
  - reflexivity.
Qed.

Lemma update_at_keeps (f : Line T -> Line T) (i : nat) ls :
  (forall line, id (f line) = id line /\ length (f line) = length line) ->
  List.length (update_at i f ls) = List.length ls
  /\ map id (update_at i f ls) = map id ls
  /\ map length (update_at i f ls) = map length ls.
Proof.
  intros Hf. revert i. induction ls as [|line rest IH]; intros i;
    [destruct i; repeat split; reflexivity|].
  destruct i as [|j]; cbn [update_at map List.length].
  - destruct (Hf line) as [-> ->]. auto.
  - destruct (IH j) as [-> [-> ->]]. auto.
Qed.

Lemma findIndex_none (lineId : T) ls :
  findIndex lineId ls = None <->
  forall line, In line ls -> eqb (id line) lineId = false.
Proof.
  induction ls as [|line rest IH]; cbn [findIndex].
  - split; [intros _ l [] | reflexivity].
  - destruct (eqb (id line) lineId) eqn:E.
    + split; [discriminate|]. intros H. rewrite (H line) in E by now left.
      discriminate.
    + destruct (findIndex lineId rest) eqn:F.
      * split; [discriminate|]. intros H.
        assert (Hn : Some n = None)
          by (apply IH; intros l Hl; apply H; now right).
        discriminate.
      * split; [|reflexivity]. intros _ l [<- | Hl]; [exact E|].
        now apply (proj1 IH).
Qed.

(** X13: Moving the mouse never changes how many segments there are, nor the
    identifier or the declared length of any segment; and when a handle is
    dragged whose identifier no segment carries, the segments stay as they
    are. *)
Theorem mouse_move_keeps_measurements app app' (rect : Rect T) (e : MouseEvent T) :
  handleCanvasMouseMove app rect e = Some app' ->
  List.length (lines app') = List.length (lines app)
  /\ map id (lines app') = map id (lines app)
  /\ map length (lines app') = map length (lines app)
  /\ ((forall drag, dragPoint app = Some drag ->
       forall line, In line (lines app) -> eqb (id line) (lineId drag) = false) ->
      lines app' = lines app).
Proof.
  unfold handleCanvasMouseMove.
  destruct (pointer app rect e) as [p|]; [|discriminate]. cbn [bind].
  assert (Hdrag :
    match isDragging app, dragPoint app with
    | true, Some drag =>
        match findIndex (lineId drag) (lines app) with
        | None => Some app
        | Some lineIndex =>
            Some (set_lines app
                    (update_at lineIndex
                       (if isStart drag then with_startPoint p else with_endPoint p)
                       (lines app)))
        end
    | _, _ => Some app
    end = Some app' ->
    List.length (lines app') = List.length (lines app)
    /\ map id (lines app') = map id (lines app)
    /\ map length (lines app') = map length (lines app)
    /\ ((forall drag, dragPoint app = Some drag ->
         forall line, In line (lines app) -> eqb (id line) (lineId drag) = false) ->
        lines app' = lines app)).
  { destruct (isDragging app); [|intros [= <-]; auto].
    destruct (dragPoint app) as [drag|]; [|intros [= <-]; auto].
    destruct (findIndex (lineId drag) (lines app)) as [i|] eqn:F;
      [|intros [= <-]; auto].
    intros [= <-]. cbn [lines set_lines].
    destruct (update_at_keeps
                (if isStart drag then with_startPoint p else with_endPoint p)
                i (lines app)) as [H1 [H2 H3]].
    { intros line. now destruct (isStart drag). }
    repeat split; try assumption.
    intros Hnone. specialize (Hnone drag eq_refl).
    apply findIndex_none in Hnone. congruence. }
  destruct (isDrawing app); [|exact Hdrag].
  destruct (currentLine app); [|exact Hdrag].
  intros [= <-]. auto.
Qed.

Lemma findIndex_some (lineId : T) ls (i : nat) (d : Line T) :
  findIndex lineId ls = Some i ->
  i < List.length ls
  /\ eqb (id (nth i ls d)) lineId = true
  /\ forall j, j < i -> eqb (id (nth j ls d)) lineId = false.
Proof.
  revert i. induction ls as [|line rest IH]; intros i; cbn [findIndex];
    [discriminate|].
  destruct (eqb (id line) lineId) eqn:E.
  - intros [= <-]. cbn [nth List.length]. repeat split; [lia | exact E | lia].
  - destruct (findIndex lineId rest) as [k|]; [|discriminate].
    intros [= <-]. destruct (IH k eq_refl) as [H1 [H2 H3]].
    cbn [List.length]. split; [lia|]. split; [exact H2|].
    intros [|j] Hj; cbn [nth]; [exact E | apply H3; lia].
Qed.

Lemma nth_update_at (f : Line T -> Line T) (i j : nat) ls (d : Line T) :
  i < List.length ls ->
  nth j (update_at i f ls) d = if j =? i then f (nth i ls d) else nth j ls d.
Proof.
  revert i j. induction ls as [|line rest IH]; intros i j Hi;
    [cbn in Hi; lia|].
  destruct i as [|i], j as [|j]; cbn [update_at nth Nat.eqb]; try reflexivity.
  apply IH. cbn [List.length] in Hi. lia.
Qed.

(** X14: While a handle is dragged, moving the mouse moves one end of one
    segment to the pointer: the end the handle belongs to, of the first
    segment that carries the identifier of the handle.  Every other segment
    stays as it is. *)
Theorem dragging_moves_one_end app app' (rect : Rect T) (e : MouseEvent T)
    (drag : DragPoint T) (i : nat) (d : Line T) :
  isDrawing app = false ->
  isDragging app = true ->
  dragPoint app = Some drag ->
  findIndex (lineId drag) (lines app) = Some i ->
  handleCanvasMouseMove app rect e = Some app' ->
  exists p,
    pointer app rect e = Some p
    /\ nth i (lines app') d
       = (if isStart drag then with_startPoint p else with_endPoint p)
           (nth i (lines app) d)
    /\ (forall j, j <> i -> nth j (lines app') d = nth j (lines app) d)
    /\ (forall j, j < i -> eqb (id (nth j (lines app) d)) (lineId drag) = false).
Proof.
  intros Hdraw Hdrag Hpoint Hfind. unfold handleCanvasMouseMove.
  destruct (pointer app rect e) as [p|]; [|discriminate]. cbn [bind].
  rewrite Hdraw, Hdrag, Hpoint, Hfind. intros [= <-].
  destruct (findIndex_some _ _ _ d Hfind) as [Hi [_ Hbefore]].
  exists p. split; [reflexivity|]. cbn [lines set_lines].
  split; [|split; [|exact Hbefore]].
  - rewrite nth_update_at by exact Hi. now rewrite Nat.eqb_refl.
  - intros j Hj. rewrite nth_update_at by exact Hi.
    destruct (j =? i) eqn:E; [apply Nat.eqb_eq in E; contradiction | reflexivity].
Qed.

(** X15: Releasing the mouse on a line that has an end appends that line, and
    [handleUndo] removes it again: the segments are those before the line
    was drawn. *)
Theorem undo_reverts_a_drawn_line app (now : T)
    (current : PartialLine T) (p : Point T) :
  isDrawing app = true ->
  currentLine app = Some current ->
  current_endPoint current = Some p ->
  let drawn := handleCanvasMouseUp app now in
  lines drawn
  = lines app ++ [mkLine (or_else (current_id current) now)
                         (current_startPoint current) p
                         (or_else (current_length current) (defaultLength app))]
  /\ lines (handleUndo drawn) = lines app.
Proof.
  intros Hd Hc He drawn.
  assert (E : lines drawn
              = lines app ++ [mkLine (or_else (current_id current) now)
                                (current_startPoint current) p
                                (or_else (current_length current)
                                         (defaultLength app))]).
  { unfold drawn, handleCanvasMouseUp. now rewrite Hd, Hc, He. }
  split; [exact E|].
  unfold handleUndo. rewrite E, length_app. cbn [List.length].
  replace (0 <? List.length (lines app) + 1) with true
    by (symmetry; apply Nat.ltb_lt; lia).
  cbn [lines set_lines]. apply removelast_last.
Qed.

End EveryArithmetic.

End UiProps.

(** ** Drawing and numbering lines *)

Module UiExactProps.

Import Ui Exact ExactOps ExactProps ExactGeometry UiExact.
Local Open Scope R_scope.

Implicit Types (app : App R) (ls : list (Line R)).

Lemma Reqb_refl (a : R) : Reqb a a = true.
Proof. now apply Reqb_true. Qed.

Lemma isNaN_exact (v : R) : isNaN v = false.
Proof. unfold isNaN, neqb. cbn. now rewrite Reqb_refl. Qed.

Lemma truthy_exact (v : R) : v <> 0 -> truthy v = true.
Proof.
  intros Hv. unfold truthy. rewrite isNaN_exact. cbn.
  destruct (Reqb v 0) eqn:E; [|reflexivity].
  apply Reqb_true in E. contradiction.
Qed.

Lemma or_else_same (a : R) : or_else a a = a.
Proof. unfold or_else. now destruct (truthy a). Qed.

Lemma or_else_nonzero (a b : R) : a <> 0 -> or_else a b = a.
Proof. intros Ha. unfold or_else. now rewrite truthy_exact. Qed.

Lemma pointer_value app (rect : Rect R) (e : MouseEvent R) :
  zoom app <> 0 -> pointer app rect e = Some (drawing_point app rect e).
Proof.
  intros Hz. unfold pointer.
  now rewrite !Rdiv_checked_nonzero by exact Hz.
Qed.

Lemma draw_value app (rect : Rect R) (e1 e2 : MouseEvent R) (now : R) :
  zoom app <> 0 ->
  isDragging app = false ->
  onBackground e1 = true ->
  draw app rect e1 e2 now
  = Some (mkApp (lines app
                 ++ [mkLine (INR (List.length (lines app) + 1))
                            (drawing_point app rect e1)
                            (drawing_point app rect e2)
                            (defaultLength app)])
                (backgroundImage app) (defaultLength app) (scale app)
                false None false None (zoom app)).
Proof.
  intros Hz Hd Hb. unfold draw. cbn [run handle].
  unfold handleCanvasMouseDown. rewrite Hd, Hb, pointer_value by exact Hz.
  cbn [bind].
  unfold handleCanvasMouseMove. rewrite pointer_value by exact Hz.
  cbn [bind isDrawing currentLine].
  unfold handleCanvasMouseUp.
  cbn [isDrawing currentLine current_endPoint current_id current_startPoint
       current_length lines backgroundImage defaultLength scale zoom].
  rewrite or_else_same, or_else_nonzero; [reflexivity|].
  cbn [of_nat number]. apply not_0_INR. lia.
Qed.

Lemma numbered_length (n : nat) ls : numbered n ls -> List.length ls = n.
Proof.
  intros H. rewrite <- (length_map id ls), H, length_map. apply length_seq.
Qed.

Lemma NoDup_INR (ks : list nat) : NoDup ks -> NoDup (map INR ks).
Proof.
  induction 1 as [|k ks Hk Hks IH]; cbn [map]; constructor; [|exact IH].
  intros Hin. apply in_map_iff in Hin as [k' [E Hin]].
  apply INR_eq in E. now subst k'.
Qed.

Lemma numbered_distinct (n : nat) ls : numbered n ls -> NoDup (map id ls).
Proof. intros ->. apply NoDup_INR, seq_NoDup. Qed.

(** X18: In a session where the lines are numbered 1 to [n], pressing on the
    background, moving and releasing appends one line, from the point
    pressed to the point released in the coordinates of the drawing, with
    the default length and the number [n + 1]: the identifiers stay
    distinct. *)
Theorem drawing_numbers_the_line app (rect : Rect R) (e1 e2 : MouseEvent R)
    (now : R) (n : nat) :
  zoom app <> 0 ->
  isDragging app = false ->
  onBackground e1 = true ->
  numbered n (lines app) ->
  exists app',
    draw app rect e1 e2 now = Some app'
    /\ lines app' = lines app ++ [mkLine (INR (n + 1))
                                          (drawing_point app rect e1)
                                          (drawing_point app rect e2)
                                          (defaultLength app)]
    /\ numbered (S n) (lines app')
    /\ NoDup (map id (lines app')).
Proof.
  intros Hz Hd Hb Hn.
  rewrite (draw_value app rect e1 e2 now Hz Hd Hb).
  rewrite (numbered_length n _ Hn).
  eexists. split; [reflexivity|]. cbn [lines].
  assert (Hnum : numbered (S n)
            (lines app ++ [mkLine (INR (n + 1)) (drawing_point app rect e1)
                             (drawing_point app rect e2) (defaultLength app)])).
  { unfold numbered in *. rewrite map_app, Hn, seq_S, map_app. cbn [map id].
    now rewrite Nat.add_comm. }
  split; [reflexivity|]. split; [exact Hnum|].
  now apply (numbered_distinct (S n)).
Qed.

Lemma triangle_app_numbered : numbered 3 (lines triangle_app).
Proof. unfold numbered. cbn. repeat f_equal; lra. Qed.

(** A fourth line drawn on the triangle, from (1, 1) to (2, 5). *)
Lemma drawing_numbers_witness :
  exists app',
    draw triangle_app (mkRect 0 0) (mkMouseEvent 1 1 true)
         (mkMouseEvent 2 5 true) 0 = Some app'
    /\ lines app'
       = lines triangle_app
         ++ [mkLine (INR (3 + 1))
               (drawing_point triangle_app (mkRect 0 0) (mkMouseEvent 1 1 true))
               (drawing_point triangle_app (mkRect 0 0) (mkMouseEvent 2 5 true))
               (defaultLength triangle_app)]
    /\ numbered 4 (lines app')
    /\ NoDup (map id (lines app')).
Proof.
  apply (drawing_numbers_the_line triangle_app (mkRect 0 0)
           (mkMouseEvent 1 1 true) (mkMouseEvent 2 5 true) 0 3).
  - cbn. lra.
  - reflexivity.
  - reflexivity.
  - exact triangle_app_numbered.
Defined.

Lemma filter_other_length (j a n : nat) :
  List.length (filter (fun k => negb (k =? j)%nat) (seq a n))
  = if ((a <=? j) && (j <? a + n))%nat then (n - 1)%nat else n.
Proof.
  revert a. induction n as [|n IH]; intros a.
  - cbn [seq filter List.length]. now destruct ((a <=? j)%nat && (j <? a + 0)%nat).
  - cbn [seq filter]. destruct (a =? j)%nat eqn:E; cbn [negb].
    + apply Nat.eqb_eq in E. subst a. rewrite IH.
      replace (S j <=? j)%nat with false by (symmetry; apply Nat.leb_gt; lia).
      replace (j <=? j)%nat with true by (symmetry; apply Nat.leb_le; lia).
      replace (j <? j + S n)%nat with true by (symmetry; apply Nat.ltb_lt; lia).
      cbn. lia.
    + apply Nat.eqb_neq in E. cbn [List.length]. rewrite IH.
      destruct (Nat.leb_spec (S a) j), (Nat.ltb_spec j (S a + n)),
               (Nat.leb_spec a j), (Nat.ltb_spec j (a + S n));
        cbn [andb]; lia.
Qed.

Lemma Reqb_INR (a b : nat) : Reqb (INR a) (INR b) = (a =? b)%nat.
Proof.
  destruct (a =? b)%nat eqn:E.
  - apply Nat.eqb_eq in E. subst. apply Reqb_refl.
  - apply Nat.eqb_neq in E. unfold Reqb.
    destruct (Req_dec_T (INR a) (INR b)) as [H|_]; [|reflexivity].
    apply INR_eq in H. contradiction.
Qed.

Lemma delete_numbered (j : nat) ls (ks : list nat) :
  map id ls = map INR ks ->
  map id (filter (fun line => neqb (id line) (INR j)) ls)
  = map INR (filter (fun k => negb (k =? j)%nat) ks).
Proof.
  revert ks. induction ls as [|line rest IH]; intros [|k ks] H;
    try discriminate; [reflexivity|].
  cbn [map] in H. injection H as Hid Hrest.
  cbn [filter]. unfold neqb at 1. cbn [eqb number].
  rewrite Hid, Reqb_INR.
  destruct (k =? j)%nat; cbn [negb map]; rewrite (IH ks Hrest); [reflexivity|].
  now rewrite Hid.
Qed.

(** X19: Identifiers can repeat: in a session where the lines are numbered 1 to
    [n], deleting any line but the last and then drawing a line gives the
    new line the number [n], which the last of the old lines still
    carries. *)
Theorem delete_then_draw_repeats_a_number app (rect : Rect R)
    (e1 e2 : MouseEvent R) (now : R) (n j : nat) :
  zoom app <> 0 ->
  isDragging app = false ->
  onBackground e1 = true ->
  numbered n (lines app) ->
  (1 <= j < n)%nat ->
  exists app' old,
    draw (handleDeleteLine app (INR j)) rect e1 e2 now = Some app'
    /\ In old (lines app) /\ id old = INR n
    /\ lines app' = filter (fun line => neqb (id line) (INR j)) (lines app)
                    ++ [mkLine (INR n)
                          (drawing_point app rect e1)
                          (drawing_point app rect e2)
                          (defaultLength app)]
    /\ In old (lines app')
    /\ ~ NoDup (map id (lines app')).
Proof.
  intros Hz Hd Hb Hn Hj.
  set (deleted := handleDeleteLine app (INR j)).
  assert (Hids : map id (lines deleted)
                 = map INR (filter (fun k => negb (k =? j)%nat) (seq 1 n)))
    by (apply delete_numbered; exact Hn).
  assert (Hlen : List.length (lines deleted) = (n - 1)%nat).
  { rewrite <- (length_map id), Hids, length_map, filter_other_length.
    replace (1 <=? j)%nat with true by (symmetry; apply Nat.leb_le; lia).
    replace (j <? 1 + n)%nat with true by (symmetry; apply Nat.ltb_lt; lia).
    reflexivity. }
  assert (Hold : exists old, In old (lines app) /\ id old = INR n).
  { assert (Hin : In (INR n) (map id (lines app))).
    { rewrite Hn. apply in_map. apply in_seq. lia. }
    apply in_map_iff in Hin as [old [Hid Hin]]. now exists old. }
  destruct Hold as [old [Hin Hid]].
  rewrite (draw_value deleted rect e1 e2 now Hz Hd Hb).
  eexists. exists old. split; [reflexivity|].
  rewrite Hlen. replace (n - 1 + 1)%nat with n by lia.
  cbn [lines]. split; [exact Hin|]. split; [exact Hid|].
  split; [reflexivity|].
  assert (Hkept : In old (lines deleted)).
  { unfold deleted, handleDeleteLine. cbn [lines set_lines].
    apply filter_In. split; [exact Hin|].
    unfold neqb. cbn [eqb number]. rewrite Hid, Reqb_INR.
    replace (n =? j)%nat with false by (symmetry; apply Nat.eqb_neq; lia).
    reflexivity. }
  split; [apply in_or_app; now left|].
  rewrite map_app. cbn [map id]. intros Hnodup.
  apply NoDup_remove_2 in Hnodup. apply Hnodup. rewrite app_nil_r.
  rewrite <- Hid. now apply in_map.
Qed.

(** On the triangle: line 1 deleted, then a line drawn. *)
Lemma delete_then_draw_witness :
  exists app' old,
    draw (handleDeleteLine triangle_app (INR 1)) (mkRect 0 0)
         (mkMouseEvent 1 1 true) (mkMouseEvent 2 5 true) 0 = Some app'
    /\ In old (lines triangle_app) /\ id old = INR 3
    /\ lines app'
       = filter (fun line => neqb (id line) (INR 1)) (lines triangle_app)
         ++ [mkLine (INR 3)
               (drawing_point triangle_app (mkRect 0 0) (mkMouseEvent 1 1 true))
               (drawing_point triangle_app (mkRect 0 0) (mkMouseEvent 2 5 true))
               (defaultLength triangle_app)]
    /\ In old (lines app')
    /\ ~ NoDup (map id (lines app')).
Proof.
  apply (delete_then_draw_repeats_a_number triangle_app (mkRect 0 0)
           (mkMouseEvent 1 1 true) (mkMouseEvent 2 5 true) 0 3 1).
  - cbn. lra.
  - reflexivity.
  - reflexivity.
  - exact triangle_app_numbered.
  - lia.
Defined.

End UiExactProps.

(** ** The handlers at work in binary64 *)

Module Binary64UiChecks.

Import Ui Binary64 Binary64Ops UiProps.
Local Open Scope float_scope.

(** The line being drawn is appended with its number 5 and its length 10,
    and Undo takes it away again. *)
Lemma undo_reverts_witness :
  lines (handleCanvasMouseUp drawing_app 0)
  = numbered_plot ++ [mkLine 5 (pt 0 0) (pt 30 40) 10]
  /\ lines (handleUndo (handleCanvasMouseUp drawing_app 0)) = numbered_plot.
Proof.
  exact (undo_reverts_a_drawn_line drawing_app 0
           (mkPartialLine 5 (pt 0 0) (Some (pt 30 40)) 10) (pt 30 40)
           eq_refl eq_refl eq_refl).
Defined.

(** Dragging the start of line 2 to the pointer (50, 60) at zoom 2. *)
Lemma mouse_move_witness :
  exists app',
    handleCanvasMouseMove dragging_app (mkRect 10 20) (mkMouseEvent 110 140 false)
    = Some app'
    /\ lines app'
       = [mkLine 1 (pt 0 0) (pt 200 0) 20;
          mkLine 2 (pt 50 60) (pt 200 100) 10;
          mkLine 3 (pt 200 100) (pt 0 100) 20;
          mkLine 4 (pt 0 100) (pt 0 0) 10]
    /\ List.length (lines app') = List.length (lines dragging_app)
    /\ map id (lines app') = map id (lines dragging_app)
    /\ map length (lines app') = map length (lines dragging_app).
Proof.
  pose (app' := set_lines dragging_app
                  [mkLine 1 (pt 0 0) (pt 200 0) 20;
                   mkLine 2 (pt 50 60) (pt 200 100) 10;
                   mkLine 3 (pt 200 100) (pt 0 100) 20;
                   mkLine 4 (pt 0 100) (pt 0 0) 10]).
  assert (E : handleCanvasMouseMove dragging_app (mkRect 10 20)
                (mkMouseEvent 110 140 false) = Some app') by reflexivity.
  exists app'. split; [exact E|]. split; [reflexivity|].
  destruct (mouse_move_keeps_measurements dragging_app app' (mkRect 10 20)
              (mkMouseEvent 110 140 false) E) as [H1 [H2 [H3 _]]].
  exact (conj H1 (conj H2 H3)).
Defined.

(** The same drag: line 2 is at index 1, and its start goes to (50, 60). *)
Lemma dragging_witness :
  exists app' p,
    handleCanvasMouseMove dragging_app (mkRect 10 20) (mkMouseEvent 110 140 false)
    = Some app'
    /\ pointer dragging_app (mkRect 10 20) (mkMouseEvent 110 140 false) = Some p
    /\ nth 1 (lines app') (ln (pt 0 0) (pt 0 0) 0)
       = with_startPoint p (nth 1 (lines dragging_app) (ln (pt 0 0) (pt 0 0) 0)).
Proof.
  pose (app' := set_lines dragging_app
                  [mkLine 1 (pt 0 0) (pt 200 0) 20;
                   mkLine 2 (pt 50 60) (pt 200 100) 10;
                   mkLine 3 (pt 200 100) (pt 0 100) 20;
                   mkLine 4 (pt 0 100) (pt 0 0) 10]).
  assert (E : handleCanvasMouseMove dragging_app (mkRect 10 20)
                (mkMouseEvent 110 140 false) = Some app') by reflexivity.
  assert (H1 : isDrawing dragging_app = false) by reflexivity.
  assert (H2 : isDragging dragging_app = true) by reflexivity.
  assert (H3 : dragPoint dragging_app = Some (mkDragPoint 2 true)) by reflexivity.
  assert (H4 : findIndex (lineId (mkDragPoint 2 true)) (lines dragging_app)
               = Some 1%nat) by reflexivity.
  destruct (dragging_moves_one_end dragging_app app' (mkRect 10 20)
              (mkMouseEvent 110 140 false) (mkDragPoint 2 true) 1
              (ln (pt 0 0) (pt 0 0) 0) H1 H2 H3 H4 E)
    as [p [Hp [Hi _]]].
  exists app', p. split; [exact E|]. split; [exact Hp | exact Hi].
Defined.

(** A session in binary64: zoom in twice, draw a line, edit its length. *)
Example binary64_session :
  option_map lines
    (run resting_app
       [ZoomIn; ZoomIn;
        CanvasMouseDown (mkRect 0 0) (mkMouseEvent 12 24 true);
        CanvasMouseMove (mkRect 0 0) (mkMouseEvent 60 120 true);
        CanvasMouseUp 0;
        LineLengthChange 5 7.5;
        LineLengthChange 5 (-1);
        DeleteLine 2])
  = let z := 1 + tenth + tenth in
    Some [mkLine 1 (pt 0 0) (pt 200 0) 20;
          mkLine 3 (pt 200 100) (pt 0 100) 20;
          mkLine 4 (pt 0 100) (pt 0 0) 10;
          mkLine 5 (pt (12 / z) (24 / z)) (pt (60 / z) (120 / z)) 7.5].
Proof. reflexivity. Qed.

End Binary64UiChecks.

(** ** What a session keeps, in binary64 *)

Module Binary64UiProps.

Import Ui Binary64 Binary64Ops Binary64Props Binary64Geometry.
#[local] Set Warnings "-inexact-float".

Implicit Types (app : App float) (ls : list (Line float)).

(** *** The zoom levels *)

Lemma listed (z : float) (levels : list float) :
  existsb (PrimFloat.Leibniz.eqb z) levels = true -> In z levels.
Proof.
  intros H. apply existsb_exists in H as [w [Hw E]].
  apply FloatAxioms.Leibniz.eqb_spec in E. now subst w.
Qed.

Lemma zoom_levels_closed (z : float) :
  In z zoom_levels -> Forall (fun w => In w zoom_levels) (zoom_steps z).
Proof.
  assert (H : forallb (fun z => forallb (fun w => existsb (PrimFloat.Leibniz.eqb w)
                                                   zoom_levels)
                                        (zoom_steps z))
                      zoom_levels = true) by (vm_compute; reflexivity).
  rewrite forallb_forall in H. intros Hz. specialize (H z Hz).
  rewrite forallb_forall in H. apply Forall_forall. intros w Hw.
  apply listed. now apply H.
Qed.

Lemma zoom_levels_bounds (z : float) :
  In z zoom_levels -> (half <=? z)%float = true /\ (z <=? three)%float = true.
Proof.
  assert (H : forallb (fun z => (half <=? z)%float && (z <=? three)%float)
                      zoom_levels = true) by (vm_compute; reflexivity).
  rewrite forallb_forall in H. intros Hz. now apply andb_true_iff, H.
Qed.

Lemma zoom_levels_start : In one zoom_levels.
Proof. apply listed. vm_compute. reflexivity. Qed.

(** *** The guards of the panel *)

(** A number that is not NaN and not [<= 0] is above 0. *)
Lemma guard_above_zero (value : float) :
  isNaN value || leb value zero = false -> above_zero value.
Proof.
  unfold isNaN, neqb, above_zero. cbn [eqb leb zero number ops].
  rewrite eqb_spec, leb_spec, ltb_spec. unfold SFleb, SFltb.
  rewrite (SFcompare_swap (Prim2SF value) (Prim2SF 0)).
  change (Prim2SF 0) with (S754_zero false).
  intros H. apply orb_false_iff in H as [Hnan Hle].
  destruct (Prim2SF value) as [s|s| |s m e]; [| |discriminate|];
    destruct s; cbn in *; congruence.
Qed.

Lemma above_zero_not_negative (a : float) : above_zero a -> not_negative a.
Proof.
  unfold above_zero, not_negative. rewrite ltb_spec, leb_spec.
  unfold SFltb, SFleb. right.
  now destruct (SFcompare (Prim2SF 0) (Prim2SF a)) as [[| |]|].
Qed.

Lemma or_else_above_zero (a b : float) :
  above_zero a -> above_zero b -> above_zero (or_else a b).
Proof. intros Ha Hb. unfold or_else. now destruct (truthy a). Qed.

(** *** What a session keeps *)

Lemma update_at_above_zero (f : Line float -> Line float) (i : nat) ls :
  (forall line, length (f line) = length line) ->
  Forall (fun line => above_zero (length line)) ls ->
  Forall (fun line => above_zero (length line)) (update_at i f ls).
Proof.
  intros Hf Hall. revert i. induction Hall as [|line rest Hl Hrest IH]; intros i.
  - destruct i; constructor.
  - destruct i as [|j]; cbn [update_at]; constructor; auto.
    now rewrite Hf.
Qed.

Lemma removelast_above_zero ls :
  Forall (fun line => above_zero (length line)) ls ->
  Forall (fun line => above_zero (length line)) (removelast ls).
Proof.
  intros Hall. apply Forall_forall. intros line Hin.
  rewrite Forall_forall in Hall. apply Hall.
  clear Hall. induction ls as [|l [|l' rest] IH]; cbn in Hin; try contradiction.
  destruct Hin as [<- | Hin]; [now left | right; now apply IH].
Qed.

Ltac kept :=
  eexists; split; [reflexivity|];
  repeat split;
  cbn [zoom defaultLength scale lines currentLine set_lines set_zoom];
  auto; try discriminate.

Lemma handle_keeps_invariant app (event : Event float) :
  invariant app ->
  exists app', handle app event = Some app' /\ invariant app'.
Proof.
  intros [Hz [Hd [Hs [Hl Hc]]]].
  assert (Hinv : invariant app) by (repeat split; assumption).
  destruct event as [rect e | rect e | now | lineId start | | | | | value
                    | value | lineId newLength | lineId | confirmed | data];
    cbn [handle].
  - unfold handleCanvasMouseDown, pointer. cbn [div number bind].
    destruct (isDragging app); [now exists app|].
    destruct (onBackground e); [|now exists app].
    kept. intros current [= <-]. exact Hd.
  - unfold handleCanvasMouseMove, pointer. cbn [div number bind].
    set (p := mkPoint _ _).
    assert (Hdrag : exists app',
      match isDragging app, dragPoint app with
      | true, Some drag =>
          match findIndex (lineId drag) (lines app) with
          | None => Some app
          | Some lineIndex =>
              Some (set_lines app
                      (update_at lineIndex
                         (if isStart drag then with_startPoint p else with_endPoint p)
                         (lines app)))
          end
      | _, _ => Some app
      end = Some app' /\ invariant app').
    { destruct (isDragging app); [|now exists app].
      destruct (dragPoint app) as [drag|]; [|now exists app].
      destruct (findIndex (lineId drag) (lines app)) as [i|]; [|now exists app].
      kept. apply update_at_above_zero; [|exact Hl].
      intros line. now destruct (isStart drag). }
    destruct (isDrawing app); [|exact Hdrag].
    destruct (currentLine app) as [current|] eqn:Ec; [|exact Hdrag].
    kept. intros moved [= <-]. cbn [current_length]. now apply Hc.
  - unfold handleCanvasMouseUp.
    destruct (isDrawing app); [|kept].
    destruct (currentLine app) as [current|] eqn:Ec; [|kept].
    destruct (current_endPoint current) as [p|];
      [|kept; intros c [= <-]; now apply Hc].
    kept. apply Forall_app. split; [exact Hl|]. constructor; [|constructor].
    cbn [length]. apply or_else_above_zero; [now apply Hc | exact Hd].
  - unfold handlePointMouseDown. kept.
  - unfold handleZoomIn. kept.
    pose proof (zoom_levels_closed (zoom app) Hz) as H.
    now inversion H.
  - unfold handleZoomOut. kept.
    pose proof (zoom_levels_closed (zoom app) Hz) as H.
    inversion H as [|w1 r1 _ H2]; subst. now inversion H2.
  - unfold handleUndo.
    destruct (0 <? List.length (lines app))%nat; [|now exists app].
    kept. now apply removelast_above_zero.
  - unfold handleClearAll. kept.
  - unfold handleDefaultLengthChange.
    destruct (negb (isNaN value) && gtb value zero) eqn:E; [|now exists app].
    apply andb_true_iff in E as [_ E]. kept.
  - unfold handleScaleChange.
    destruct (negb (isNaN value) && gtb value zero) eqn:E; [|now exists app].
    apply andb_true_iff in E as [_ E]. kept.
  - unfold handleLineLengthChange.
    destruct (isNaN newLength || leb newLength zero) eqn:E; [now exists app|].
    apply guard_above_zero in E. kept.
    apply Forall_forall. intros line Hin.
    apply in_map_iff in Hin as [old [<- Hin]].
    rewrite Forall_forall in Hl.
    destruct (eqb (id old) lineId); [exact E | now apply Hl].
  - unfold handleDeleteLine. kept.
    apply Forall_forall. intros line Hin. apply filter_In in Hin as [Hin _].
    rewrite Forall_forall in Hl. now apply Hl.
  - unfold handleNewPlot.
    destruct ((0 <? List.length (lines app))%nat || _);
      [destruct confirmed; [kept | now exists app] | kept].
  - unfold imageLoaded. kept.
Qed.

Lemma run_keeps_invariant (events : list (Event float)) app :
  invariant app -> exists app', run app events = Some app' /\ invariant app'.
Proof.
  revert app. induction events as [|event rest IH]; intros app Hinv.
  - exists app. now split.
  - destruct (handle_keeps_invariant app event Hinv) as [app1 [E1 H1]].
    cbn [run]. rewrite E1. cbn [bind]. now apply IH.
Qed.

Lemma initial_invariant : invariant initial.
Proof.
  unfold invariant, initial. cbn [zoom defaultLength scale lines currentLine].
  split; [exact zoom_levels_start|].
  repeat split; try reflexivity; [constructor | discriminate].
Qed.

(** X17: Whatever the user does, in whatever order, the session keeps: the
    zoom between 0.5 and 3, a default length and a scale above 0, every
    declared length above 0, and a total area that is a value and never
    below zero ([>= 0], or NaN). *)
Theorem session_keeps_measurements_valid (events : list (Event float)) :
  exists app,
    run initial events = Some app
    /\ ((half <=? zoom app)%float = true /\ (zoom app <=? three)%float = true)
    /\ (0 <? defaultLength app)%float = true
    /\ (0 <? scale app)%float = true
    /\ (forall line, In line (lines app) -> (0 <? length line)%float = true)
    /\ exists area,
         totalArea (lines app) (scale app) = Some area /\ not_negative area.
Proof.
  destruct (run_keeps_invariant events initial initial_invariant)
    as [app [Hrun [Hz [Hd [Hs [Hl _]]]]]].
  exists app. rewrite Forall_forall in Hl.
  split; [exact Hrun|]. split; [now apply zoom_levels_bounds|].
  split; [exact Hd|]. split; [exact Hs|]. split; [exact Hl|].
  destruct (totalArea_not_negative (lines app) (scale app)) as [area [E Ha]].
  exists area. split; [exact E|]. apply Ha.
  intros line Hin. now apply above_zero_not_negative, Hl.
Qed.

End Binary64UiProps.

(** ** The storage and the routes *)

Module ServerProps.

Import Server.
Import String.StringSyntax.
Local Open Scope string_scope.
Local Open Scope Z_scope.

Section MapFacts.

Context {V : Type}.

Implicit Types (m : JsMap V) (k key : Z) (v value : V).

Lemma map_get_set_same key value m :
  map_get key (map_set key value m) = Some value.
Proof.
  induction m as [|[k v] rest IH]; cbn [map_set map_get].
  - now rewrite Z.eqb_refl.
  - destruct (k =? key) eqn:E; cbn [map_get]; now rewrite E.
Qed.

Lemma map_get_set_other key key' value m :
  key' <> key -> map_get key' (map_set key value m) = map_get key' m.
Proof.
  intros Hne. induction m as [|[k v] rest IH]; cbn [map_set map_get].
  - destruct (key =? key') eqn:E; [apply Z.eqb_eq in E; congruence | reflexivity].
  - destruct (k =? key) eqn:E; cbn [map_get].
    + apply Z.eqb_eq in E. subst k.
      destruct (key =? key') eqn:E'; [apply Z.eqb_eq in E'; congruence | reflexivity].
    + destruct (k =? key'); [reflexivity | exact IH].
Qed.

Lemma map_get_in key value m : map_get key m = Some value -> In (key, value) m.
Proof.
  induction m as [|[k v] rest IH]; cbn [map_get]; [discriminate|].
  destruct (k =? key) eqn:E.
  - apply Z.eqb_eq in E. intros [= ->]. subst. now left.
  - intros H. right. now apply IH.
Qed.

Lemma map_get_none key m : map_get key m = None <-> ~ In key (map_keys m).
Proof.
  induction m as [|[k v] rest IH]; cbn [map_get map_keys map fst].
  - split; [intros _ [] | reflexivity].
  - destruct (k =? key) eqn:E.
    + apply Z.eqb_eq in E. split; [discriminate|]. intros H. contradiction H. now left.
    + apply Z.eqb_neq in E. rewrite IH. unfold map_keys. split.
      * intros H [H' | H']; [contradiction | now apply H].
      * intros H H'. apply H. now right.
Qed.

Lemma increasing_not_in (k : Z) (keys : list Z) :
  Forall (Z.lt k) keys -> ~ In k keys.
Proof.
  intros Hall Hin. rewrite Forall_forall in Hall. specialize (Hall k Hin). lia.
Qed.

Lemma in_map_get key value m :
  increasing (map_keys m) -> In (key, value) m -> map_get key m = Some value.
Proof.
  induction m as [|[k v] rest IH]; cbn [map_get map_keys map fst increasing];
    [intros _ []|].
  intros [Hlt Hinc] [[= -> ->] | Hin].
  - now rewrite Z.eqb_refl.
  - destruct (k =? key) eqn:E; [|now apply IH].
    apply Z.eqb_eq in E. subst k. exfalso.
    apply (increasing_not_in key _ Hlt). change key with (fst (key, value)).
    now apply in_map.
Qed.

Lemma map_keys_set key value m :
  map_keys (map_set key value m)
  = match map_get key m with
    | Some _ => map_keys m
    | None => map_keys m ++ [key]
    end.
Proof.
  induction m as [|[k v] rest IH]; cbn [map_set map_get map_keys map fst app];
    [reflexivity|].
  destruct (k =? key) eqn:E; cbn [map fst]; [reflexivity|].
  unfold map_keys in IH. rewrite IH. now destruct (map_get key rest).
Qed.

Lemma in_map_set k v key value m :
  increasing (map_keys m) ->
  In (k, v) (map_set key value m) ->
  (k = key /\ v = value) \/ (k <> key /\ In (k, v) m).
Proof.
  induction m as [|[k0 v0] rest IH];
    cbn [map_set map_keys map fst increasing].
  - intros _ [[= <- <-] | []]. now left.
  - intros [Hlt Hinc]. destruct (k0 =? key) eqn:E.
    + apply Z.eqb_eq in E. subst k0. intros [[= <- <-] | Hin]; [now left|].
      right. split; [|now right].
      intros ->. apply (increasing_not_in key _ Hlt).
      change key with (fst (key, v)). now apply in_map.
    + apply Z.eqb_neq in E. intros [[= <- <-] | Hin].
      * right. split; [exact E | now left].
      * destruct (IH Hinc Hin) as [H | [Hne H]];
          [now left | right; split; [exact Hne | now right]].
Qed.

Lemma increasing_snoc (keys : list Z) (k : Z) :
  increasing keys -> (forall a, In a keys -> a < k) -> increasing (keys ++ [k]).
Proof.
  induction keys as [|a rest IH]; cbn [app increasing]; intros Hinc Hall.
  - split; [constructor | exact I].
  - destruct Hinc as [Hlt Hinc]. split.
    + apply Forall_app. split; [exact Hlt|]. constructor; [|constructor].
      apply Hall. now left.
    + apply IH; [exact Hinc|]. intros b Hb. apply Hall. now right.
Qed.

Lemma map_delete_facts key m :
  increasing (map_keys m) ->
  let (deleted, m') := map_delete key m in
  (deleted = true <-> In key (map_keys m))
  /\ increasing (map_keys m')
  /\ (forall k v, In (k, v) m' <-> In (k, v) m /\ k <> key)
  /\ map_get key m' = None
  /\ (forall k, k <> key -> map_get k m' = map_get k m).
Proof.
  induction m as [|[k0 v0] rest IH];
    cbn [map_delete map_keys map fst increasing map_get].
  - intros _. split; [split; [discriminate | intros []]|].
    split; [exact I|]. split; [intros k v; split; [intros [] | intros [[] _]]|].
    split; [reflexivity | reflexivity].
  - intros [Hlt Hinc]. destruct (k0 =? key) eqn:E.
    + apply Z.eqb_eq in E. subst k0.
      assert (Hnot : ~ In key (map_keys rest)) by now apply increasing_not_in.
      split; [split; [intros _; now left | reflexivity]|].
      split; [exact Hinc|]. split; [|split].
      * intros k v. split.
        -- intros Hin. split; [now right|]. intros ->. apply Hnot.
           change key with (fst (key, v)). now apply in_map.
        -- intros [[[= <- <-] | Hin] Hne]; [congruence | exact Hin].
      * now apply map_get_none.
      * intros k Hne. destruct (key =? k) eqn:E'; [|reflexivity].
        apply Z.eqb_eq in E'. congruence.
    + apply Z.eqb_neq in E. specialize (IH Hinc).
      destruct (map_delete key rest) as [deleted rest'].
      destruct IH as [Hd [Hi [Hin [Hg Ho]]]].
      cbn [map_keys map fst increasing map_get].
      split; [|split; [|split; [|split]]].
      * split; [intros H; right; now apply Hd|].
        intros [H | H]; [congruence | now apply Hd].
      * split; [|exact Hi].
        apply Forall_forall. intros a Ha. rewrite Forall_forall in Hlt.
        apply Hlt. apply in_map_iff in Ha as [[a' v'] [<- Ha]].
        apply Hin in Ha as [Ha _]. change a' with (fst (a', v')). now apply in_map.
      * intros k v. split.
        -- intros [[= <- <-] | H]; [split; [now left | exact E]|].
           apply Hin in H as [H Hne]. split; [now right | exact Hne].
        -- intros [[[= <- <-] | H] Hne]; [now left | right; apply Hin; now split].
      * destruct (k0 =? key) eqn:E'; [apply Z.eqb_eq in E'; congruence | exact Hg].
      * intros k Hne. destruct (k0 =? k); [reflexivity | now apply Ho].
Qed.

Lemma ordered_below_set_new (counter : Z) value m :
  ordered_below counter m ->
  ordered_below (increment counter) (map_set counter value m).
Proof.
  intros [Hinc [Hkeys Hc]]. unfold ordered_below, increment.
  rewrite map_keys_set.
  destruct (counter <? 2 ^ 53) eqn:E.
  - apply Z.ltb_lt in E.
    assert (Hnone : map_get counter m = None).
    { apply map_get_none. intros Hin. destruct (Hkeys _ Hin) as [_ [H | [_ H]]]; lia. }
    rewrite Hnone. split; [|split; [|lia]].
    + apply increasing_snoc; [exact Hinc|].
      intros a Ha. destruct (Hkeys _ Ha) as [_ [H | [_ H]]]; lia.
    + intros k Hin. apply in_app_or in Hin as [Hin | [<- | []]]; [|lia].
      destruct (Hkeys _ Hin) as [H1 [H | [_ H]]]; lia.
  - apply Z.ltb_ge in E. assert (Hsat : counter = 2 ^ 53) by lia.
    destruct (map_get counter m) eqn:G.
    + split; [exact Hinc | split; [exact Hkeys | exact Hc]].
    + apply map_get_none in G. split; [|split; [|exact Hc]].
      * apply increasing_snoc; [exact Hinc|].
        intros a Ha. destruct (Hkeys _ Ha) as [_ [H | [H _]]]; [exact H|].
        subst a. contradiction.
      * intros k Hin. apply in_app_or in Hin as [Hin | [<- | []]];
          [now apply Hkeys | lia].
Qed.

Lemma ordered_below_set_old (counter key : Z) value old m :
  map_get key m = Some old ->
  ordered_below counter m -> ordered_below counter (map_set key value m).
Proof.
  intros Hget H. unfold ordered_below. rewrite map_keys_set, Hget. exact H.
Qed.

Lemma ordered_below_delete (counter key : Z) m :
  ordered_below counter m -> ordered_below counter (snd (map_delete key m)).
Proof.
  intros [Hinc [Hkeys Hc]]. pose proof (map_delete_facts key m Hinc) as H.
  destruct (map_delete key m) as [deleted m']. cbn [snd].
  destruct H as [_ [Hi [Hin _]]].
  split; [exact Hi | split; [|exact Hc]].
  intros k Hk. apply Hkeys. apply in_map_iff in Hk as [[k' v'] [<- Hk]].
  apply Hin in Hk as [Hk _]. change k' with (fst (k', v')). now apply in_map.
Qed.

End MapFacts.

Section StorageFacts.

Context {J : Type}.

Implicit Types (s : MemStorage J) (landPlot : LandPlot J).

Lemma createLandPlot_well_formed s (insertLandPlot : InsertLandPlot J) :
  well_formed s -> well_formed (fst (createLandPlot s insertLandPlot)).
Proof.
  intros [Hu [Hp Hui]]. unfold createLandPlot, well_formed.
  cbn [fst users landPlots userCurrentId landPlotCurrentId].
  split; [exact Hu|]. split; [now apply ordered_below_set_new | exact Hui].
Qed.

Lemma createUser_well_formed s (insertUser : InsertUser.t) :
  well_formed s -> well_formed (fst (createUser s insertUser)).
Proof.
  intros [Hu [Hp Hui]]. unfold createUser, well_formed.
  cbn [fst users landPlots userCurrentId landPlotCurrentId].
  split; [now apply ordered_below_set_new|]. split; [exact Hp|].
  intros k user Hin. destruct Hu as [Hinc _].
  apply (in_map_set _ _ _ _ _ Hinc) in Hin as [[-> ->] | [_ Hin]];
    [reflexivity | now apply Hui].
Qed.

Lemma updateLandPlot_well_formed s (id : Z) (landPlotUpdate : LandPlotUpdate J) :
  well_formed s -> well_formed (fst (updateLandPlot s id landPlotUpdate)).
Proof.
  intros Hwf. unfold updateLandPlot.
  destruct (map_get id (landPlots s)) as [existing|] eqn:G; [|exact Hwf].
  destruct Hwf as [Hu [Hp Hui]]. unfold well_formed.
  cbn [fst users landPlots userCurrentId landPlotCurrentId].
  split; [exact Hu|].
  split; [now apply (ordered_below_set_old _ _ _ existing) | exact Hui].
Qed.

Lemma deleteLandPlot_well_formed s (id : Z) :
  well_formed s -> well_formed (fst (deleteLandPlot s id)).
Proof.
  intros [Hu [Hp Hui]]. unfold deleteLandPlot.
  pose proof (ordered_below_delete (landPlotCurrentId s) id (landPlots s) Hp) as Ho.
  destruct (map_delete id (landPlots s)) as [deleted m']. cbn [snd] in Ho.
  unfold well_formed. cbn [fst users landPlots userCurrentId landPlotCurrentId].
  split; [exact Hu|]. split; [exact Ho | exact Hui].
Qed.

Lemma call_well_formed s (c : Call J) : well_formed s -> well_formed (call s c).
Proof.
  destruct c; cbn [call];
    [apply createUser_well_formed | apply createLandPlot_well_formed
    | apply updateLandPlot_well_formed | apply deleteLandPlot_well_formed].
Qed.

Lemma increment_grows (n : Z) : n <= increment n.
Proof. unfold increment. destruct (n <? 2 ^ 53); lia. Qed.

Lemma call_counters s (c : Call J) :
  userCurrentId s <= userCurrentId (call s c)
  /\ landPlotCurrentId s <= landPlotCurrentId (call s c).
Proof.
  destruct c; cbn [call].
  - cbn. split; [apply increment_grows | lia].
  - cbn. split; [lia | apply increment_grows].
  - unfold updateLandPlot. destruct (map_get _ _); cbn; lia.
  - unfold deleteLandPlot. destruct (map_delete _ _); cbn; lia.
Qed.

Lemma calls_facts (cs : list (Call J)) s :
  well_formed s ->
  well_formed (calls s cs)
  /\ userCurrentId s <= userCurrentId (calls s cs)
  /\ landPlotCurrentId s <= landPlotCurrentId (calls s cs).
Proof.
  revert s. induction cs as [|c rest IH]; intros s Hwf; cbn [calls fold_left].
  - split; [exact Hwf | split; lia].
  - destruct (IH (call s c) (call_well_formed s c Hwf)) as [H1 [H2 H3]].
    destruct (call_counters s c) as [H4 H5].
    unfold calls in *. split; [exact H1 | split; lia].
Qed.

Lemma newMemStorage_well_formed : well_formed (@newMemStorage J).
Proof.
  unfold well_formed, newMemStorage, ordered_below. cbn.
  repeat split; try easy; lia.
Qed.

(** A call without an [id] key keeps every plot under its own [id]. *)
Lemma call_own_ids s (c : Call J) :
  well_formed s -> no_id_key c -> own_ids s -> own_ids (call s c).
Proof.
  intros [_ [[Hinc _] _]] Hc Hown. unfold own_ids in *.
  destruct c as [insertUser | insertLandPlot | id landPlotUpdate | id];
    cbn [call no_id_key] in *.
  - exact Hown.
  - unfold createLandPlot. cbn [fst landPlots]. intros k landPlot Hin.
    apply (in_map_set _ _ _ _ _ Hinc) in Hin as [[-> ->] | [_ Hin]];
      [reflexivity | now apply Hown].
  - unfold updateLandPlot.
    destruct (map_get id (landPlots s)) as [existing|] eqn:G; [|exact Hown].
    cbn [fst landPlots]. intros k landPlot Hin.
    apply (in_map_set _ _ _ _ _ Hinc) in Hin as [[-> ->] | [_ Hin]];
      [|now apply Hown].
    cbn [plot_id]. rewrite Hc. cbn [spread]. apply Hown. now apply map_get_in.
  - unfold deleteLandPlot.
    pose proof (map_delete_facts id (landPlots s) Hinc) as Hf.
    destruct (map_delete id (landPlots s)) as [deleted m'].
    cbn [fst landPlots]. intros k landPlot Hin.
    destruct Hf as [_ [_ [Hin' _]]]. apply Hin' in Hin as [Hin _].
    now apply Hown.
Qed.

Lemma calls_own_ids (cs : list (Call J)) s :
  well_formed s -> Forall no_id_key cs -> own_ids s -> own_ids (calls s cs).
Proof.
  revert s. induction cs as [|c rest IH]; intros s Hwf Hcs Hown;
    cbn [calls fold_left]; [exact Hown|].
  inversion Hcs as [|c' rest' Hc Hrest]; subst.
  apply IH; [now apply call_well_formed | exact Hrest | now apply call_own_ids].
Qed.

(** X20: Every storage reached from the constructor keeps its plots and
    users in the order of their keys, the keys from 1 up to the counter,
    and each user under its own identifier; no call ever lowers a counter.
    As long as no update carries an [id] key, each plot is stored under
    its own identifier too. *)
Theorem storage_stays_well_formed (cs cs' : list (Call J)) :
  let s := calls newMemStorage cs in
  well_formed s
  /\ (forall id user, getUser s id = Some user -> User.id user = id)
  /\ landPlotCurrentId s <= landPlotCurrentId (calls s cs')
  /\ userCurrentId s <= userCurrentId (calls s cs')
  /\ (Forall no_id_key cs ->
      forall id landPlot, getLandPlot s id = Some landPlot -> plot_id landPlot = id).
Proof.
  intros s.
  destruct (calls_facts cs newMemStorage newMemStorage_well_formed) as [Hwf _].
  fold s in Hwf.
  destruct (calls_facts cs' s Hwf) as [_ [Hu Hp]].
  split; [exact Hwf|]. split; [|split; [exact Hp | split; [exact Hu|]]].
  - destruct Hwf as [_ [_ Hui]].
    intros id user Hget. apply Hui. now apply map_get_in.
  - intros Hcs id landPlot Hget.
    assert (Hown : own_ids s).
    { apply calls_own_ids; [apply newMemStorage_well_formed | exact Hcs|].
      intros k p []. }
    apply Hown. now apply map_get_in.
Qed.

(** *** Creating, reading, updating, deleting *)

Lemma fresh_key s :
  well_formed s -> landPlotCurrentId s < 2 ^ 53 ->
  getLandPlot s (landPlotCurrentId s) = None.
Proof.
  intros [_ [[_ [Hkeys _]] _]] Hlt. unfold getLandPlot.
  apply map_get_none. intros Hin. destruct (Hkeys _ Hin) as [_ [H | [_ H]]]; lia.
Qed.

(** X21: A created plot gets the value of the counter as its identifier and
    is stored under it as key, a key under which nothing was stored; it
    can be read back under it; every other key reads as before; a
    [userId] left out is stored as [null], and the other fields are those
    of the request. *)
Theorem created_plot_is_stored s (insertLandPlot : InsertLandPlot J) :
  well_formed s ->
  landPlotCurrentId s < 2 ^ 53 ->
  let (s', landPlot) := createLandPlot s insertLandPlot in
  plot_id landPlot = landPlotCurrentId s
  /\ landPlotCurrentId s' = landPlotCurrentId s + 1
  /\ getLandPlot s (landPlotCurrentId s) = None
  /\ getLandPlot s' (landPlotCurrentId s) = Some landPlot
  /\ (forall id, id <> landPlotCurrentId s -> getLandPlot s' id = getLandPlot s id)
  /\ plot_userId landPlot
     = match insert_userId insertLandPlot with
       | Some userId => userId
       | None => None
       end
  /\ plot_name landPlot = insert_name insertLandPlot
  /\ plot_measurements landPlot = insert_measurements insertLandPlot
  /\ plot_area landPlot = insert_area insertLandPlot
  /\ plot_createdAt landPlot = insert_createdAt insertLandPlot.
Proof.
  intros Hwf Hlt. unfold createLandPlot. cbv zeta.
  cbn [plot_id plot_userId plot_name plot_measurements plot_area plot_createdAt].
  unfold getLandPlot at 2 3. cbn [landPlots landPlotCurrentId].
  split; [reflexivity|]. split.
  { unfold increment. apply Z.ltb_lt in Hlt. now rewrite Hlt. }
  split; [now apply fresh_key|]. split; [apply map_get_set_same|].
  split; [intros id Hne; now apply map_get_set_other|].
  split; [now destruct (insert_userId insertLandPlot)|]. now repeat split.
Qed.

Lemma deleteLandPlot_facts s (id : Z) :
  well_formed s ->
  let (s', deleted) := deleteLandPlot s id in
  (deleted = true <-> getLandPlot s id <> None)
  /\ getLandPlot s' id = None
  /\ (forall id', id' <> id -> getLandPlot s' id' = getLandPlot s id')
  /\ snd (deleteLandPlot s' id) = false.
Proof.
  intros Hwf.
  pose proof (deleteLandPlot_well_formed s id Hwf) as Hwf'.
  destruct Hwf as [_ [[Hinc _] _]].
  pose proof (map_delete_facts id (landPlots s) Hinc) as Hf.
  unfold deleteLandPlot in *.
  destruct (map_delete id (landPlots s)) as [deleted m'].
  cbn [fst] in Hwf'. destruct Hf as [Hd [Hi [_ [Hg Ho]]]].
  unfold getLandPlot. cbn [landPlots].
  split; [|split; [exact Hg | split; [exact Ho|]]].
  - rewrite Hd. split.
    + intros Hin Hnone. now apply map_get_none in Hnone.
    + intros Hsome. destruct (in_dec Z.eq_dec id (map_keys (landPlots s)))
        as [Hin | Hnot]; [exact Hin|].
      apply map_get_none in Hnot. contradiction.
  - pose proof (map_delete_facts id m' Hi) as Hf2.
    destruct (map_delete id m') as [deleted2 m2]. cbn [snd].
    destruct Hf2 as [Hd2 _].
    destruct deleted2; [|reflexivity].
    assert (Hin : In id (map_keys m')) by now apply Hd2.
    apply map_get_none in Hg. contradiction.
Qed.

(** X22: Deleting answers [true] exactly when the plot was stored; afterwards
    the identifier reads as [undefined], every other identifier reads as
    before, and deleting again answers [false]. *)
Theorem deleted_plot_is_gone s (id : Z) :
  well_formed s ->
  let (s', deleted) := deleteLandPlot s id in
  (deleted = true <-> getLandPlot s id <> None)
  /\ getLandPlot s' id = None
  /\ (forall id', id' <> id -> getLandPlot s' id' = getLandPlot s id')
  /\ snd (deleteLandPlot s' id) = false.
Proof. exact (deleteLandPlot_facts s id). Qed.

(** X23: Updating under a key where no plot is stored answers [undefined]
    and changes nothing.  Updating a stored plot answers the plot with
    every key of the update written over it, the [id] included, and
    stores it under the same key, whatever [id] it now carries: the key
    reads back the new plot, every other key reads as before, and the
    counter stays. *)
Theorem updated_plot_is_merged s (id : Z) (landPlotUpdate : LandPlotUpdate J) :
  let (s', answer) := updateLandPlot s id landPlotUpdate in
  match getLandPlot s id with
  | None => answer = None /\ s' = s
  | Some existing =>
      exists updated,
        answer = Some updated
        /\ merged existing updated landPlotUpdate
        /\ getLandPlot s' id = Some updated
        /\ (forall id', id' <> id -> getLandPlot s' id' = getLandPlot s id')
        /\ landPlotCurrentId s' = landPlotCurrentId s
        /\ users s' = users s
  end.
Proof.
  unfold updateLandPlot, getLandPlot.
  destruct (map_get id (landPlots s)) as [existing|] eqn:G; [|now split].
  eexists. split; [reflexivity|]. split; [now repeat split|].
  cbn [landPlots landPlotCurrentId users]. split; [apply map_get_set_same|].
  split; [|now split]. intros id' Hne. now apply map_get_set_other.
Qed.

Lemma increasing_filter {A : Type} (key : A -> Z) (keep : A -> bool) (l : list A) :
  increasing (map key l) -> increasing (map key (filter keep l)).
Proof.
  induction l as [|a rest IH]; cbn [map filter increasing]; [auto|].
  intros [Hlt Hinc]. destruct (keep a); cbn [map increasing]; [|now apply IH].
  split; [|now apply IH].
  apply Forall_forall. intros k Hk. rewrite Forall_forall in Hlt. apply Hlt.
  apply in_map_iff in Hk as [b [<- Hb]]. apply filter_In in Hb as [Hb _].
  now apply in_map.
Qed.

Lemma filter_values {V : Type} (keep : V -> bool) (m : JsMap V) :
  filter keep (map_values m) = map_values (filter (fun entry => keep (snd entry)) m).
Proof.
  unfold map_values. induction m as [|[k v] rest IH]; [reflexivity|].
  cbn [map filter snd]. destruct (keep v); cbn [map snd]; now rewrite IH.
Qed.

Lemma entries_at_keys {V : Type} (m entries : JsMap V) :
  increasing (map_keys m) ->
  (forall entry, In entry entries -> In entry m) ->
  Forall2 (fun key value => map_get key m = Some value)
          (map_keys entries) (map_values entries).
Proof.
  intros Hinc. unfold map_keys, map_values.
  induction entries as [|[k v] rest IH]; intros Hin; cbn [map fst snd];
    constructor.
  - apply in_map_get; [exact Hinc|]. apply Hin. now left.
  - apply IH. intros entry H. apply Hin. now right.
Qed.

(** X24: The plots of a user are exactly the stored plots whose [userId] is
    that number, and they are listed in the order of the keys they are
    stored under, which is the order of their creation; a plot stored
    with [userId] [null] is among the plots of no user. *)
Theorem plots_of_a_user s (userId : Z) :
  well_formed s ->
  (forall landPlot,
     In landPlot (getLandPlotsByUserId s userId) <->
     (exists key, getLandPlot s key = Some landPlot)
     /\ plot_userId landPlot = Some userId)
  /\ exists keys,
       increasing keys
       /\ Forall2 (fun key landPlot => getLandPlot s key = Some landPlot)
                  keys (getLandPlotsByUserId s userId).
Proof.
  intros [_ [[Hinc _] _]]. unfold getLandPlotsByUserId, getLandPlot. split.
  - intros landPlot. rewrite filter_In. unfold has_userId, map_values. split.
    + intros [Hin Hu]. apply in_map_iff in Hin as [[k p] [E Hin]].
      cbn [snd] in E. subst p. split; [exists k; now apply in_map_get|].
      destruct (plot_userId landPlot) as [u|]; [|discriminate].
      apply Z.eqb_eq in Hu. now subst u.
    + intros [[key Hget] Hu]. split.
      * apply map_get_in in Hget. apply in_map_iff. now exists (key, landPlot).
      * rewrite Hu. apply Z.eqb_refl.
  - rewrite filter_values.
    exists (map_keys (filter (fun entry => has_userId userId (snd entry))
                             (landPlots s))).
    split; [now apply increasing_filter|].
    apply entries_at_keys; [exact Hinc|].
    intros entry Hin. now apply filter_In in Hin as [Hin _].
Qed.

(** X25: Keys are not given twice: the key under which a plot is stored is
    the identifier of no plot created later, whatever is created, updated
    or deleted in between, and no plot is stored under it again once it
    is deleted. *)
Theorem identifiers_are_not_reused s (id : Z) (cs : list (Call J))
    (insertLandPlot : InsertLandPlot J) :
  well_formed s ->
  landPlotCurrentId s < 2 ^ 53 ->
  getLandPlot s id <> None ->
  plot_id (snd (createLandPlot (calls s cs) insertLandPlot)) <> id
  /\ (getLandPlot (calls s cs) id = None ->
      forall cs', getLandPlot (calls (calls s cs) cs') id = None).
Proof.
  intros Hwf Hlt Hsome.
  destruct (calls_facts cs s Hwf) as [Hwf' [_ Hgrow]].
  assert (Hid : id < landPlotCurrentId s).
  { destruct Hwf as [_ [[_ [Hkeys _]] _]].
    destruct (in_dec Z.eq_dec id (map_keys (landPlots s))) as [Hin | Hnot].
    - destruct (Hkeys _ Hin) as [_ [H | [_ H]]]; lia.
    - apply map_get_none in Hnot. contradiction. }
  split; [unfold createLandPlot; cbn [snd plot_id]; lia|].
  generalize dependent (calls s cs). intros s1 Hwf1 Hgrow1 Hnone cs'.
  revert s1 Hwf1 Hgrow1 Hnone.
  induction cs' as [|c rest IH]; intros s1 Hwf1 Hgrow1 Hnone; [exact Hnone|].
  cbn [calls fold_left]. apply IH.
  - now apply call_well_formed.
  - destruct (call_counters s1 c) as [_ H]. lia.
  - destruct c as [insertUser | insert | id' landPlotUpdate | id'];
      cbn [call].
    + exact Hnone.
    + unfold createLandPlot, getLandPlot. cbn [fst landPlots].
      rewrite map_get_set_other by lia. exact Hnone.
    + unfold updateLandPlot, getLandPlot in *.
      destruct (map_get id' (landPlots s1)) as [existing|] eqn:G;
        [|exact Hnone].
      cbn [fst landPlots]. rewrite map_get_set_other; [exact Hnone|].
      intros ->. congruence.
    + pose proof (deleteLandPlot_facts s1 id' Hwf1) as Hf.
      destruct (deleteLandPlot s1 id') as [s2 deleted]. cbn [fst].
      destruct Hf as [_ [Hgone [Hother _]]].
      destruct (Z.eq_dec id id') as [->|Hne]; [exact Hgone|].
      rewrite Hother by exact Hne. exact Hnone.
Qed.

(** X26: A created user can be read back under the identifier it got, and the
    user found by its name is the earliest stored user of that name: one
    stored before if there is one, the new user otherwise. *)
Theorem created_user_is_found s (insertUser : InsertUser.t) :
  well_formed s ->
  userCurrentId s < 2 ^ 53 ->
  let (s', user) := createUser s insertUser in
  User.id user = userCurrentId s
  /\ getUser s' (User.id user) = Some user
  /\ getUserByUsername s' (InsertUser.username insertUser)
     = match getUserByUsername s (InsertUser.username insertUser) with
       | Some earlier => Some earlier
       | None => Some user
       end.
Proof.
  intros Hwf Hlt. unfold createUser. cbv zeta. cbn [User.id].
  split; [reflexivity|].
  unfold getUser, getUserByUsername. cbn [users].
  split; [apply map_get_set_same|].
  assert (Hnone : map_get (userCurrentId s) (users s) = None).
  { destruct Hwf as [[_ [Hkeys _]] _]. apply map_get_none. intros Hin.
    destruct (Hkeys _ Hin) as [_ [H | [_ H]]]; lia. }
  set (user := User.make (userCurrentId s) (InsertUser.username insertUser)
                         (InsertUser.password insertUser)).
  assert (Happ : map_set (userCurrentId s) user (users s) = users s ++ [(userCurrentId s, user)]).
  { revert Hnone. generalize (userCurrentId s) as key.
    induction (users s) as [|[k v] rest IH]; intros key Hnone; [reflexivity|].
    cbn [map_set map_get app] in *.
    destruct (k =? key); [discriminate|]. now rewrite IH. }
  rewrite Happ. unfold map_values. rewrite map_app. cbn [map snd].
  induction (map snd (users s)) as [|u rest IH]; cbn [app find].
  - unfold user at 1. cbn [User.username]. now rewrite String.eqb_refl.
  - destruct (String.eqb (User.username u) (InsertUser.username insertUser));
      [reflexivity | exact IH].
Qed.

End StorageFacts.

(** *** The routes *)

Section RouteFacts.

Context {J Body : Type}.
Variable parseInsertLandPlot : Body -> String.string + InsertLandPlot J.
Variable parseMeasurements : J -> option String.string.
Variable parseInt : String.string -> option Z.
Variable isTruthy : J -> bool.

Implicit Types (s : MemStorage J).

(** X27: [POST /api/land-plots] answers 400 with the message of the validation
    and stores nothing when the body or its measurements are refused;
    otherwise it answers 201 with the plot it stored, and
    [GET /api/land-plots/:id] with the identifier of that plot answers 200
    with the same plot. *)
Theorem posted_plot_can_be_fetched s (body : Body) :
  let (s', response) := postLandPlot parseInsertLandPlot parseMeasurements s body in
  match parseInsertLandPlot body with
  | inl message => s' = s /\ response = mkResponse 400 (JsonMessage message)
  | inr landPlotData =>
      match parseMeasurements (insert_measurements landPlotData) with
      | Some message => s' = s /\ response = mkResponse 400 (JsonMessage message)
      | None =>
          exists landPlot,
            response = mkResponse 201 (JsonLandPlot landPlot)
            /\ plot_id landPlot = landPlotCurrentId s
            /\ plot_name landPlot = insert_name landPlotData
            /\ plot_area landPlot = insert_area landPlotData
            /\ forall idParam,
                 parseInt idParam = Some (plot_id landPlot) ->
                 getLandPlotById parseInt s' idParam
                 = mkResponse 200 (JsonLandPlot landPlot)
      end
  end.
Proof.
  unfold postLandPlot.
  destruct (parseInsertLandPlot body) as [message | landPlotData]; [now split|].
  destruct (parseMeasurements (insert_measurements landPlotData)); [now split|].
  unfold createLandPlot. cbv zeta.
  eexists. split; [reflexivity|]. cbn [plot_id plot_name plot_area].
  repeat split.
  intros idParam Hparse. unfold getLandPlotById, getLandPlot.
  rewrite Hparse. cbn [landPlots]. now rewrite map_get_set_same.
Qed.

(** X28: [DELETE /api/land-plots/:id] answers 400 and changes nothing when the
    identifier is not a number; otherwise it answers 204 when the plot was
    stored and 404 when it was not; afterwards [GET] and a second [DELETE]
    of the identifier answer 404. *)
Theorem deleted_plot_is_not_found s (idParam : String.string) :
  well_formed s ->
  let (s', response) := deleteLandPlotById parseInt s idParam in
  match parseInt idParam with
  | None => s' = s /\ response = mkResponse 400 (JsonMessage "Invalid ID format")
  | Some id =>
      (response = mkResponse 204 NoContent /\ getLandPlot s id <> None
       \/ response = mkResponse 404 (JsonMessage "Land plot not found")
          /\ getLandPlot s id = None)
      /\ getLandPlotById parseInt s' idParam
         = mkResponse 404 (JsonMessage "Land plot not found")
      /\ snd (deleteLandPlotById parseInt s' idParam)
         = mkResponse 404 (JsonMessage "Land plot not found")
  end.
Proof.
  intros Hwf. unfold deleteLandPlotById.
  destruct (parseInt idParam) as [id|] eqn:Hparse; [|now split].
  pose proof (deleteLandPlot_facts s id Hwf) as H.
  destruct (deleteLandPlot s id) as [s1 deleted].
  destruct H as [Hd [Hgone [_ Hagain]]].
  assert (Hresp : forall r1 r2 : Response J,
             snd (if negb deleted then (s1, r1) else (s1, r2))
             = (if negb deleted then r1 else r2)
             /\ fst (if negb deleted then (s1, r1) else (s1, r2)) = s1)
    by (intros; now destruct deleted).
  destruct (if negb deleted then _ else _) as [s' response] eqn:E.
  assert (Hs : s' = s1) by (destruct deleted; now inversion E). subst s'.
  split; [|split].
  - destruct deleted; cbn [negb] in E; inversion E; subst.
    + left. split; [reflexivity | now apply Hd].
    + right. split; [reflexivity|].
      destruct (getLandPlot s id) eqn:G; [|reflexivity].
      assert (false = true) by (apply Hd; discriminate). discriminate.
  - unfold getLandPlotById. now rewrite Hparse, Hgone.
  - destruct (deleteLandPlot s1 id) as [s2 deleted2].
    cbn [snd] in Hagain. subst deleted2. reflexivity.
Qed.

(** X29: [GET /api/land-plots] always answers 200 with a list.  When the
    query gives a number other than 0, the list is the list of the plots
    of that user: exactly the stored plots with that [userId].  The list
    is empty when the query is missing, empty, not a number, or 0: a
    plot stored with [userId] 0 or [null] is never listed. *)
Theorem listed_plots_have_the_user s (userIdQuery : option String.string) :
  well_formed s ->
  exists listed,
    listLandPlots parseInt s userIdQuery = mkResponse 200 (JsonLandPlots listed)
    /\ (forall text userId,
          userIdQuery = Some text -> text <> String.EmptyString ->
          parseInt text = Some userId -> userId <> 0 ->
          listed = getLandPlotsByUserId s userId
          /\ forall landPlot,
               In landPlot listed <->
               (exists key, getLandPlot s key = Some landPlot)
               /\ plot_userId landPlot = Some userId)
    /\ (userIdQuery = None \/ userIdQuery = Some String.EmptyString
        \/ (exists text, userIdQuery = Some text
                         /\ (parseInt text = None \/ parseInt text = Some 0)) ->
        listed = [])
    /\ (forall landPlot, In landPlot listed ->
          plot_userId landPlot <> None /\ plot_userId landPlot <> Some 0).
Proof.
  intros Hwf. unfold listLandPlots. eexists. split; [reflexivity|].
  split; [|split].
  - intros text userId -> Hne Hparse Hnz.
    apply String.eqb_neq in Hne. rewrite Hne, Hparse.
    apply Z.eqb_neq in Hnz. rewrite Hnz. split; [reflexivity|].
    intros landPlot. unfold getLandPlotsByUserId, getLandPlot.
    destruct Hwf as [_ [[Hinc _] _]].
    rewrite filter_In. unfold has_userId, map_values. split.
    + intros [Hin Hu]. apply in_map_iff in Hin as [[k p] [E Hin]].
      cbn [snd] in E. subst p. split; [exists k; now apply in_map_get|].
      destruct (plot_userId landPlot) as [u|]; [|discriminate].
      apply Z.eqb_eq in Hu. now subst u.
    + intros [[key Hget] Hu]. split.
      * apply map_get_in in Hget. apply in_map_iff. now exists (key, landPlot).
      * rewrite Hu. apply Z.eqb_refl.
  - intros [-> | [-> | [text [-> [Hp | Hp]]]]]; try reflexivity.
    + destruct (String.eqb text String.EmptyString); [reflexivity|].
      now rewrite Hp.
    + destruct (String.eqb text String.EmptyString); [reflexivity|].
      now rewrite Hp.
  - intros landPlot.
    destruct userIdQuery as [text|]; [|intros []].
    destruct (String.eqb text String.EmptyString); [intros []|].
    destruct (parseInt text) as [n|]; [|intros []].
    destruct (n =? 0) eqn:E; [intros []|]. apply Z.eqb_neq in E.
    unfold getLandPlotsByUserId. intros Hin. apply filter_In in Hin as [_ Hu].
    unfold has_userId in Hu.
    destruct (plot_userId landPlot) as [u|]; [|discriminate].
    apply Z.eqb_eq in Hu. subst u. split; [discriminate | congruence].
Qed.

(** [PATCH /api/land-plots/:id] answers 400 and changes nothing when the
    identifier is not a number, or when the body has measurements that
    count as true and are refused; otherwise it answers 404 and changes
    nothing when no plot is stored under the identifier, and else 200
    with the stored plot and every key of the body written over it, the
    [id] included; [GET] with the same identifier then answers that plot,
    whatever [id] it carries. *)
Theorem patched_plot_is_merged s (idParam : String.string)
    (updateData : LandPlotUpdate J) :
  let (s', response) :=
    patchLandPlotById parseMeasurements parseInt isTruthy s idParam updateData in
  match parseInt idParam with
  | None => s' = s /\ response = mkResponse 400 (JsonMessage "Invalid ID format")
  | Some id =>
      (exists measurements message,
         update_measurements updateData = Some measurements
         /\ isTruthy measurements = true
         /\ parseMeasurements measurements = Some message
         /\ s' = s /\ response = mkResponse 400 (JsonMessage message))
      \/ ((forall measurements,
             update_measurements updateData = Some measurements ->
             isTruthy measurements = true ->
             parseMeasurements measurements = None)
          /\ match getLandPlot s id with
             | None =>
                 s' = s
                 /\ response = mkResponse 404 (JsonMessage "Land plot not found")
             | Some existing =>
                 exists updated,
                   response = mkResponse 200 (JsonLandPlot updated)
                   /\ merged existing updated updateData
                   /\ getLandPlotById parseInt s' idParam
                      = mkResponse 200 (JsonLandPlot updated)
                   /\ (forall id', id' <> id ->
                                   getLandPlot s' id' = getLandPlot s id')
             end)
  end.
Proof.
  unfold patchLandPlotById.
  destruct (parseInt idParam) as [id|] eqn:Hparse; [|now split].
  assert (Hstore : forall s' answer,
            updateLandPlot s id updateData = (s', answer) ->
            match getLandPlot s id with
            | None => s' = s /\ answer = None
            | Some existing =>
                exists updated,
                  answer = Some updated
                  /\ merged existing updated updateData
                  /\ getLandPlotById parseInt s' idParam
                     = mkResponse 200 (JsonLandPlot updated)
                  /\ (forall id', id' <> id ->
                                  getLandPlot s' id' = getLandPlot s id')
            end).
  { intros s' answer. unfold updateLandPlot, getLandPlot.
    destruct (map_get id (landPlots s)) as [existing|] eqn:G;
      intros [= <- <-]; [|now split].
    eexists. split; [reflexivity|]. split; [now repeat split|].
    unfold getLandPlotById, getLandPlot. rewrite Hparse. cbn [landPlots].
    rewrite map_get_set_same. split; [reflexivity|].
    intros id' Hne. now apply map_get_set_other. }
  destruct (updateLandPlot s id updateData) as [s1 answer] eqn:E.
  specialize (Hstore s1 answer eq_refl).
  assert (Hanswer :
    match getLandPlot s id with
    | None =>
        s1 = s
        /\ match answer with
           | None => mkResponse 404 (JsonMessage "Land plot not found")
           | Some landPlot => mkResponse 200 (JsonLandPlot landPlot)
           end = mkResponse 404 (JsonMessage "Land plot not found")
    | Some existing =>
        exists updated,
          match answer with
          | None => mkResponse 404 (JsonMessage "Land plot not found")
          | Some landPlot => mkResponse 200 (JsonLandPlot landPlot)
          end = mkResponse 200 (JsonLandPlot updated)
          /\ merged existing updated updateData
          /\ getLandPlotById parseInt s1 idParam
             = mkResponse 200 (JsonLandPlot updated)
          /\ (forall id', id' <> id -> getLandPlot s1 id' = getLandPlot s id')
    end).
  { destruct (getLandPlot s id) as [existing|].
    - destruct Hstore as [updated [-> H]]. now exists updated.
    - now destruct Hstore as [-> ->]. }
  clear Hstore. cbv zeta.
  destruct (update_measurements updateData) as [measurements|] eqn:Hm.
  - destruct (isTruthy measurements) eqn:Ht.
    + destruct (parseMeasurements measurements) as [message|] eqn:Hp.
      * cbv beta iota. left. exists measurements, message. now repeat split.
      * destruct answer; cbv beta iota;
          (right; split; [intros m [= <-] _; exact Hp | exact Hanswer]).
    + destruct answer; cbv beta iota;
        (right; split; [intros m [= <-] H; congruence | exact Hanswer]).
  - destruct answer; cbv beta iota;
      (right; split; [intros m [=] | exact Hanswer]).
Qed.

End RouteFacts.

End ServerProps.

(** ** The storage and the routes on a sample *)

Module ServerChecks.

Import Server ServerSample ServerProps.
Import String.StringSyntax.
Local Open Scope string_scope.
Local Open Scope Z_scope.

Lemma sample_well_formed : well_formed sample_storage.
Proof.
  exact (proj1 (calls_facts _ newMemStorage newMemStorage_well_formed)).
Qed.

Lemma sample_counter : landPlotCurrentId sample_storage < 2 ^ 53.
Proof. vm_compute. reflexivity. Qed.

(** A third plot created in the sample gets the identifier 3 and is stored
    under the key 3. *)
Lemma created_plot_witness :
  well_formed sample_storage
  /\ landPlotCurrentId sample_storage < 2 ^ 53
  /\ getLandPlot sample_storage 3 = None
  /\ getLandPlot (fst (createLandPlot sample_storage third_plot)) 3
     = Some (mkLandPlot 3 (Some 1) "Lahan C" tt 75 "2025-01-03").
Proof.
  split; [exact sample_well_formed | split; [exact sample_counter|]].
  pose proof (created_plot_is_stored sample_storage third_plot
                sample_well_formed sample_counter) as H.
  unfold createLandPlot in H. cbv beta iota zeta in H.
  destruct H as [_ [_ [Hfree [Hget _]]]].
  split; [exact Hfree | exact Hget].
Defined.

(** Plot 1 deleted from the sample. *)
Lemma deleted_plot_witness :
  let (s', deleted) := deleteLandPlot sample_storage 1 in
  (deleted = true <-> getLandPlot sample_storage 1 <> None)
  /\ getLandPlot s' 1 = None
  /\ (forall id', id' <> 1 -> getLandPlot s' id' = getLandPlot sample_storage id')
  /\ snd (deleteLandPlot s' 1) = false.
Proof.
  exact (deleted_plot_is_gone sample_storage 1 sample_well_formed).
Defined.

(** The plots of user 1 in the sample. *)
Lemma plots_of_a_user_witness :
  well_formed sample_storage
  /\ exists keys,
       increasing keys
       /\ Forall2 (fun key landPlot => getLandPlot sample_storage key = Some landPlot)
                  keys (getLandPlotsByUserId sample_storage 1).
Proof.
  split; [exact sample_well_formed|].
  exact (proj2 (plots_of_a_user sample_storage 1 sample_well_formed)).
Defined.

(** Plot 2 deleted and a plot created: the new plot is not plot 2. *)
Lemma identifiers_witness :
  getLandPlot sample_storage 2 <> None
  /\ plot_id (snd (createLandPlot (calls sample_storage [DeleteLandPlot 2])
                                  first_plot)) <> 2.
Proof.
  assert (H : getLandPlot sample_storage 2 <> None) by (vm_compute; discriminate).
  split; [exact H|].
  exact (proj1 (identifiers_are_not_reused sample_storage 2 [DeleteLandPlot 2]
                  first_plot sample_well_formed sample_counter H)).
Defined.

(** A second user named "ani": the first one is still the one found. *)
Lemma created_user_witness :
  let (s', user) := createUser sample_storage (InsertUser.make "ani" "other") in
  User.id user = userCurrentId sample_storage
  /\ getUser s' (User.id user) = Some user
  /\ getUserByUsername s' "ani"
     = match getUserByUsername sample_storage "ani" with
       | Some earlier => Some earlier
       | None => Some user
       end.
Proof.
  apply (created_user_is_found sample_storage (InsertUser.make "ani" "other")).
  - exact sample_well_formed.
  - vm_compute. reflexivity.
Defined.

(** [DELETE /api/land-plots/2] on the sample. *)
Lemma deleted_route_witness :
  let (s', response) := deleteLandPlotById sample_parseInt sample_storage "2" in
  match sample_parseInt "2" with
  | None => s' = sample_storage
            /\ response = mkResponse 400 (JsonMessage "Invalid ID format")
  | Some id =>
      (response = mkResponse 204 NoContent /\ getLandPlot sample_storage id <> None
       \/ response = mkResponse 404 (JsonMessage "Land plot not found")
          /\ getLandPlot sample_storage id = None)
      /\ getLandPlotById sample_parseInt s' "2"
         = mkResponse 404 (JsonMessage "Land plot not found")
      /\ snd (deleteLandPlotById sample_parseInt s' "2")
         = mkResponse 404 (JsonMessage "Land plot not found")
  end.
Proof.
  exact (deleted_plot_is_not_found sample_parseInt sample_storage "2"
           sample_well_formed).
Defined.

(** [GET /api/land-plots?userId=1] on the sample lists the plots of user 1. *)
Lemma listed_plots_witness :
  well_formed sample_storage
  /\ listLandPlots sample_parseInt sample_storage (Some "1")
     = mkResponse 200 (JsonLandPlots (getLandPlotsByUserId sample_storage 1)).
Proof.
  split; [exact sample_well_formed|].
  destruct (listed_plots_have_the_user sample_parseInt sample_storage (Some "1")
              sample_well_formed) as [listed [Hresponse [Hlisted _]]].
  rewrite Hresponse. do 2 f_equal.
  apply (Hlisted "1" 1); [reflexivity | discriminate | reflexivity | discriminate].
Defined.

(** Identifiers can repeat.  After the calls of the sample, an update of
    plot 1 that carries the [id] 3, and the creation of a third plot, two
    plots carry the identifier 3: the one stored under the key 1 and the
    one stored under the key 3. *)
Theorem identifiers_can_repeat :
  exists (cs : list (Call unit)) (key1 key2 : Z) (landPlot1 landPlot2 : LandPlot unit),
    let s := calls newMemStorage cs in
    key1 <> key2
    /\ getLandPlot s key1 = Some landPlot1
    /\ getLandPlot s key2 = Some landPlot2
    /\ plot_id landPlot1 = plot_id landPlot2
    /\ plot_id landPlot1 <> key1
    /\ map plot_id (getLandPlotsByUserId s 1) = [3; 3].
Proof.
  exists [CreateUser (InsertUser.make "ani" "secret");
          CreateLandPlot first_plot; CreateLandPlot second_plot;
          UpdateLandPlot 1 renumbering; CreateLandPlot third_plot].
  exists 1, 3.
  exists (mkLandPlot 3 (Some 1) "Lahan A" tt 200 "2025-01-01").
  exists (mkLandPlot 3 (Some 1) "Lahan C" tt 75 "2025-01-03").
  repeat split; discriminate.
Qed.

(** The sample, call by call. *)
Example sample_listing :
  sent (listLandPlots sample_parseInt sample_storage (Some "1"))
  = JsonLandPlots [mkLandPlot 1 (Some 1) "Lahan A" tt 200 "2025-01-01"]
  /\ sent (listLandPlots sample_parseInt sample_storage (Some "0"))
     = JsonLandPlots []
  /\ getLandPlot sample_storage 2
     = Some (mkLandPlot 2 None "Lahan B" tt 50 "2025-01-02").
Proof. repeat split. Qed.

End ServerChecks.
